(** * dcargs / tyro: the top-level entry [cli] and its collaborators

    The development embeds [dcargs/_cli.py] (the function [cli]) over an
    explicit record of the collaborators it calls, and gives models of the
    schema registry, the schema builder, the reconstructor and the JSON
    constructor used by the test-suite. *)

From Stdlib Require Import String Ascii List ZArith Bool Lia Arith.
From Stdlib Require Import DecimalString DecimalZ DecimalPos DecimalFacts.
From Stdlib Require DecimalN.
Import ListNotations.
Local Open Scope string_scope.
Local Open Scope list_scope.
#[local] Set Warnings "-register-all".

(* ===================================================================== *)
(** ** Python objects *)
(* ===================================================================== *)

(** Sentinel singletons: [dataclasses.MISSING], [_fields.MISSING_NONPROP]
    and [_fields.MISSING_PROP]. *)
Inductive sentinel : Type :=
| DC_MISSING
| MISSING_NONPROP
| MISSING_PROP.

(** The Python objects that flow through [cli]: defaults, parsed values,
    reconstructed instances.  A [dict] keeps insertion order. *)
Inductive value : Type :=
| VNone
| VBool (b : bool)
| VInt (z : Z)
| VStr (s : string)
| VList (items : list value)
| VDict (items : list (value * value))
| VObj (cls : string) (attrs : list (string * value))
| VMissing (k : sentinel).

(** [x is None]. *)
Definition is_None (v : value) : bool :=
  match v with VNone => true | _ => false end.

(** Truth value of an object, as [if x:] tests it. *)
Definition truthy (v : value) : bool :=
  match v with
  | VNone => false
  | VBool b => b
  | VInt z => negb (Z.eqb z 0)
  | VStr s => negb (String.eqb s "")
  | VList l => match l with [] => false | _ => true end
  | VDict l => match l with [] => false | _ => true end
  | VObj _ _ => true
  | VMissing _ => true
  end.

(* ===================================================================== *)
(** ** Strings: [str.replace] *)
(* ===================================================================== *)

Module PyStr.

(** [s.startswith(p)]. *)
Fixpoint startswith (p s : string) : bool :=
  match p with
  | EmptyString => true
  | String a p' =>
      match s with
      | String b s' => Ascii.eqb a b && startswith p' s'
      | EmptyString => false
      end
  end.

(** One left-to-right pass; [skip] counts the characters of a match that
    are still to be dropped. *)
Fixpoint replace_go (old new : string) (skip : nat) (s : string) : string :=
  match s with
  | EmptyString => EmptyString
  | String c s' =>
      match skip with
      | S k => replace_go old new k s'
      | O =>
          if startswith old s
          then new ++ replace_go old new (String.length old - 1) s'
          else String c (replace_go old new 0 s')
      end
  end.

(** With an empty [old], Python puts [new] around every character. *)
Fixpoint intersperse (new : string) (s : string) : string :=
  match s with
  | EmptyString => new
  | String c s' => new ++ String c (intersperse new s')
  end.

(** [s.replace(old, new)]. *)
Definition replace (s old new : string) : string :=
  match old with
  | EmptyString => intersperse new s
  | _ => replace_go old new 0 s
  end.

End PyStr.

(* ===================================================================== *)
(** ** Dictionaries with string keys, sets of strings *)
(* ===================================================================== *)

Module PyDict.

Section Dict.
Context {V : Type}.

Definition t : Type := list (string * V).

Fixpoint get (d : t) (k : string) : option V :=
  match d with
  | [] => None
  | (k', v) :: d' => if String.eqb k' k then Some v else get d' k
  end.

Definition mem (d : t) (k : string) : bool :=
  match get d k with Some _ => true | None => false end.

(** [d[k] = v]: an existing key keeps its position. *)
Fixpoint set (d : t) (k : string) (v : V) : t :=
  match d with
  | [] => [(k, v)]
  | (k', v') :: d' =>
      if String.eqb k' k then (k', v) :: d' else (k', v') :: set d' k v
  end.

Definition keys (d : t) : list string := map fst d.

(** [{key(k): v for k, v in d.items()}]. *)
Definition rekey (key : string -> string) (d : t) : t :=
  fold_left (fun acc kv => set acc (key (fst kv)) (snd kv)) d [].

End Dict.

End PyDict.

Module PySet.

Definition t : Type := list string.

Definition mem (s : t) (k : string) : bool :=
  existsb (String.eqb k) s.

(** [keys - s] for a key view and a set. *)
Definition diff (ks : list string) (s : t) : list string :=
  filter (fun k => negb (mem s k)) ks.

End PySet.

(* ===================================================================== *)
(** ** Effects: printed output, warnings, exceptions *)
(* ===================================================================== *)

(** The two formatting contexts of [_argparse_formatter]. *)
Inductive fmt_context : Type :=
| ansi_context
| dummy_termcolor_context.

Inductive event : Type :=
| Print (s : string)              (* print(s): one line on stdout      *)
| Warn (s : string)               (* warnings.warn(s, stacklevel=2)    *)
| Stderr (s : string)             (* a message on standard error       *)
| Enter (c : fmt_context)         (* context manager __enter__         *)
| Leave (c : fmt_context).        (* context manager __exit__          *)

(** What the two [assert] statements of [cli] report. *)
Inductive assertion : Type :=
| BadShell (got : string)
| Unconsumed (parsed : list string) (consumed : list string).

Inductive exn : Type :=
| SystemExit (code : option Z)
| AssertionError (a : assertion)
| InstantiationError (arg0 : string)
| AttributeError (name : string)
| OtherError (kind : string) (msg : string)
| NotEmbedded (why : string).     (* the run leaves what is embedded here *)

(** A computation: what it emitted, and how it ended. *)
Definition M (A : Type) : Type := list event * (exn + A).

Definition ret {A} (a : A) : M A := ([], inr a).
Definition raise {A} (e : exn) : M A := ([], inl e).
Definition emit (ev : event) : M unit := ([ev], inr tt).

Definition bind {A B} (m : M A) (k : A -> M B) : M B :=
  match m with
  | (tr, inl e) => (tr, inl e)
  | (tr, inr a) => let '(tr', r) := k a in (tr ++ tr', r)
  end.

(** [try: m  except InstantiationError as e: h(e.args[0])]. *)
Definition try_instantiation {A} (m : M A) (h : string -> M A) : M A :=
  match m with
  | (tr, inl (InstantiationError msg)) =>
      let '(tr', r) := h msg in (tr ++ tr', r)
  | other => other
  end.

(** [with c: body]: the context is left on every exit path. *)
Definition with_context {A} (c : fmt_context) (body : M A) : M A :=
  let '(tr, r) := body in (Enter c :: tr ++ [Leave c], r).

(** [assert cond, info]. *)
Definition assert_ (cond : bool) (info : assertion) : M unit :=
  if cond then ret tt else raise (AssertionError info).

Declare Scope py_scope.
Delimit Scope py_scope with py.
Notation "x <- m ;; k" := (bind m (fun x => k))
  (at level 61, m at next level, right associativity) : py_scope.
Notation "m ;; k" := (bind m (fun _ => k))
  (at level 61, right associativity) : py_scope.
Local Open Scope py_scope.

Definition trace_of {A} (m : M A) : list event := fst m.
Definition outcome_of {A} (m : M A) : exn + A := snd m.

(** The lines a run printed on standard output. *)
Fixpoint stdout (tr : list event) : list string :=
  match tr with
  | [] => []
  | Print s :: tr' => s :: stdout tr'
  | _ :: tr' => stdout tr'
  end.

(** Exit status of the interpreter when [SystemExit(code)] reaches the top
    level: [None] and [0] are success. *)
Definition exit_status (code : option Z) : Z :=
  match code with
  | None => 0
  | Some z => z
  end.

(** [getattr(obj, name)]. *)
Definition getattr (obj : value) (name : string) : M value :=
  match obj with
  | VObj _ attrs =>
      match PyDict.get attrs name with
      | Some v => ret v
      | None => raise (AttributeError name)
      end
  | _ => raise (AttributeError name)
  end.

(** [dataclasses.make_dataclass] looks at the default of every field and
    refuses a mutable one, a [list] or a [dict]: such a default must be
    given as [default_factory].  The message names the field.  An object
    of a class is taken to be hashable. *)
Definition mutable_default_error (name cls : string) : exn :=
  OtherError "ValueError"
    ("mutable default <class '" ++ cls ++ "'> for field " ++ name
     ++ " is not allowed: use default_factory").

Definition check_field_default (name : string) (default : value) : M unit :=
  match default with
  | VList _ => raise (mutable_default_error name "list")
  | VDict _ => raise (mutable_default_error name "dict")
  | _ => ret tt
  end.

Fixpoint check_field_defaults {T : Type} (fields : list (string * T * value))
  : M unit :=
  match fields with
  | [] => ret tt
  | f :: r =>
      check_field_default (fst (fst f)) (snd f) ;;
      check_field_defaults r
  end.

(* ===================================================================== *)
(** ** [dcargs/_cli.py] *)
(* ===================================================================== *)

(** The modules [cli] imports: [_strings], [sys], [conf], [dataclasses],
    [_fields], [_parsers], [argparse], [_argparse_formatter], [shtab] and
    [_calling].  [callable] is what can be passed as [f], [pspec] is a
    [ParserSpecification], [parser] an [argparse.ArgumentParser] and
    [formatter] a formatter class.  Every call may print, warn and raise;
    [pspec_apply] returns the parser it has filled.  Reading an attribute
    ([parser_definition.args], [parser.prog]) and formatting the usage
    are plain functions. *)
Record Env (callable pspec parser formatter : Type) : Type := {
  dummy_field_name : string;
  sys_argv : list string;
  AvoidSubcommands : callable -> M callable;
  make_dataclass : string -> list (string * callable * value) -> M callable;
  is_nested_type : callable -> value -> M bool;
  from_callable :
    callable -> option string -> list callable -> option unit ->
    value -> string -> M pspec;
  pspec_args : pspec -> nat;
  pspec_apply : pspec -> parser -> M parser;
  ArgumentParser : option string -> formatter -> M parser;
  parser_prog : parser -> string;
  parse_args : parser -> list string -> M (@PyDict.t value);
  format_usage : parser -> string;
  make_formatter_class : nat -> M formatter;
  shtab_complete : parser -> string -> string -> M string;
  call_from_args :
    callable -> pspec -> value -> @PyDict.t value -> string ->
    M (value * PySet.t)
}.

Arguments dummy_field_name {callable pspec parser formatter} _.
Arguments sys_argv {callable pspec parser formatter} _.
Arguments AvoidSubcommands {callable pspec parser formatter} _ _.
Arguments make_dataclass {callable pspec parser formatter} _ _ _.
Arguments is_nested_type {callable pspec parser formatter} _ _ _.
Arguments from_callable {callable pspec parser formatter} _ _ _ _ _ _ _.
Arguments pspec_args {callable pspec parser formatter} _ _.
Arguments pspec_apply {callable pspec parser formatter} _ _ _.
Arguments ArgumentParser {callable pspec parser formatter} _ _ _.
Arguments parser_prog {callable pspec parser formatter} _ _.
Arguments parse_args {callable pspec parser formatter} _ _ _.
Arguments format_usage {callable pspec parser formatter} _ _.
Arguments make_formatter_class {callable pspec parser formatter} _ _.
Arguments shtab_complete {callable pspec parser formatter} _ _ _ _.
Arguments call_from_args {callable pspec parser formatter} _ _ _ _ _ _.

Definition completion_flag : string := "--dcargs-print-completion".

Definition completion_shells : list string := ["bash"; "zsh"; "tcsh"].

Definition warn_default_instance : string :=
  "`default_instance=` is deprecated! use `default=` instead.".

Definition warn_avoid_subparsers : string :=
  "`avoid_subparsers=` is deprecated! use `dcargs.conf.AvoidSubparsers[]` instead.".

Section Cli.

Context {callable pspec parser formatter : Type}.
Variable E : Env callable pspec parser formatter.

(** Lines 107-118: the deprecated keyword arguments. *)
Definition apply_deprecated
    (f : callable) (default : value) (deprecated_kwargs : @PyDict.t value)
  : M (callable * value) :=
  default <-
    match PyDict.get deprecated_kwargs "default_instance" with
    | Some d => emit (Warn warn_default_instance) ;; ret d
    | None => ret default
    end ;;
  f <-
    (if truthy (match PyDict.get deprecated_kwargs "avoid_subparsers" with
                | Some b => b
                | None => VBool false
                end)
     then f' <- AvoidSubcommands E f ;;
          emit (Warn warn_avoid_subparsers) ;;
          ret f'
     else ret f) ;;
  ret (f, default).

(** Lines 126-128. *)
Definition default_instance_internal (default : value) : value :=
  if is_None default then VMissing MISSING_NONPROP else default.

(** Lines 130-143: the callable handed to the schema builder, and whether
    it is the synthetic one-field dataclass. *)
Definition wrap_target (f : callable) (default : value)
  : M (callable * bool) :=
  nested <- is_nested_type E f (default_instance_internal default) ;;
  if negb nested
  then
    let dummy_field := if is_None default then VMissing DC_MISSING else default in
    f' <- make_dataclass E "" [(dummy_field_name E, f, dummy_field)] ;;
    ret (f', true)
  else ret (f, false).

(** Line 157. *)
Definition effective_args (args : option (list string)) : list string :=
  match args with
  | None => tl (sys_argv E)
  | Some a => a
  end.

(** Line 158. *)
Definition print_completion (args : list string) : bool :=
  (2 <=? List.length args)%nat && String.eqb (hd "" args) completion_flag.

(** Lines 168-174: the formatter class, the parser, and the schema
    applied to it. *)
Definition build_parser (prog : option string) (parser_definition : pspec)
  : M parser :=
  formatter_class <-
    make_formatter_class E (pspec_args E parser_definition) ;;
  p <- ArgumentParser E prog formatter_class ;;
  pspec_apply E parser_definition p.

(** Lines 160-191: build the parser; either print a completion script and
    exit, or parse.  The parser is returned with the parsed mapping. *)
Definition run_parser
    (prog : option string) (parser_definition : pspec) (args : list string)
  : M (parser * @PyDict.t value) :=
  let formatting_context :=
    if print_completion args then dummy_termcolor_context else ansi_context in
  let completion_shell := nth 1 args "" in
  with_context formatting_context
    (p <- build_parser prog parser_definition ;;
     if print_completion args
     then
       assert_ (existsb (String.eqb completion_shell) completion_shells)
               (BadShell completion_shell) ;;
       script <- shtab_complete E p completion_shell
                   ("dcargs_" ++ parser_prog E p) ;;
       emit (Print script) ;;
       raise (SystemExit None)
     else
       ns <- parse_args E p args ;;
       ret (p, ns)).

(** Lines 193-197. *)
Definition strip_dummy (dummy_wrapped : bool) (ns : @PyDict.t value)
  : @PyDict.t value :=
  if dummy_wrapped
  then PyDict.rekey (fun k => PyStr.replace k (dummy_field_name E) "") ns
  else ns.

(** Lines 199-213. *)
Definition reconstruct
    (f : callable) (parser_definition : pspec) (dii : value)
    (p : parser) (ns : @PyDict.t value)
  : M (value * PySet.t) :=
  try_instantiation
    (call_from_args E f parser_definition dii ns "")
    (fun arg0 =>
       emit (Print (format_usage E p)) ;;
       emit (Print "") ;;
       emit (Print arg0) ;;
       raise (SystemExit None)).

(** What lines 107-197 hand over to the calling phase. *)
Record parsed : Type := {
  p_f : callable;
  p_dummy_wrapped : bool;
  p_default_instance : value;
  p_definition : pspec;
  p_parser : parser;
  p_values : @PyDict.t value
}.

(** Lines 107-197: schema derivation, parser construction, parsing. *)
Definition derive_and_parse
    (f : callable) (prog description : option string)
    (args : option (list string)) (default : value)
    (deprecated_kwargs : @PyDict.t value)
  : M parsed :=
  fd <- apply_deprecated f default deprecated_kwargs ;;
  let dii := default_instance_internal (snd fd) in
  fw <- wrap_target (fst fd) (snd fd) ;;
  parser_definition <- from_callable E (fst fw) description [] None dii "" ;;
  pn <- run_parser prog parser_definition (effective_args args) ;;
  ret {| p_f := fst fw;
         p_dummy_wrapped := snd fw;
         p_default_instance := dii;
         p_definition := parser_definition;
         p_parser := fst pn;
         p_values := strip_dummy (snd fw) (snd pn) |}.

(** Lines 215-218. *)
Definition all_consumed (ns : @PyDict.t value) (consumed : PySet.t) : bool :=
  Nat.eqb (List.length (PySet.diff (PyDict.keys ns) consumed)) 0.

(** Lines 220-222. *)
Definition unwrap (dummy_wrapped : bool) (out : value) : M value :=
  if dummy_wrapped then getattr out (dummy_field_name E) else ret out.

(** Lines 199-222: the calling phase. *)
Definition call_and_return (st : parsed) : M value :=
  oc <- reconstruct (p_f st) (p_definition st) (p_default_instance st)
                    (p_parser st) (p_values st) ;;
  assert_ (all_consumed (p_values st) (snd oc))
          (Unconsumed (PyDict.keys (p_values st)) (snd oc)) ;;
  unwrap (p_dummy_wrapped st) (fst oc).

(** [cli(f, prog=, description=, args=, default=, **deprecated_kwargs)]. *)
Definition cli
    (f : callable) (prog description : option string)
    (args : option (list string)) (default : value)
    (deprecated_kwargs : @PyDict.t value)
  : M value :=
  st <- derive_and_parse f prog description args default deprecated_kwargs ;;
  call_and_return st.

End Cli.

(* ===================================================================== *)
(** ** Results of pure helpers *)
(* ===================================================================== *)

(** A helper returns a value, raises, or leaves what is embedded here
    (floating point, code points above 255). *)
Inductive res (A : Type) : Type :=
| Ok (a : A)
| Err (msg : string)
| Outside (why : string).

Arguments Ok {A} a.
Arguments Err {A} msg.
Arguments Outside {A} why.

Definition rbind {A B} (m : res A) (k : A -> res B) : res B :=
  match m with
  | Ok a => k a
  | Err msg => Err msg
  | Outside why => Outside why
  end.

(** Results of a loop that stops at the first failure. *)
Fixpoint rsequence {A} (l : list (res A)) : res (list A) :=
  match l with
  | [] => Ok []
  | m :: r => rbind m (fun a => rbind (rsequence r) (fun b => Ok (a :: b)))
  end.

(* ===================================================================== *)
(** ** The [json] module: [json.dumps] and [json.loads] *)
(* ===================================================================== *)

(** The test-suite builds its constructor from Python's [json] module.
    Strings are sequences of code points below 256; floats and larger code
    points are outside the embedding and reported as [Outside].  Integers
    follow the limit of 4300 digits that Python 3.11 puts on conversions
    between [int] and [str].  What the interpreter does when it runs out
    of stack or memory is not part of the embedding. *)
Module Json.

Local Open Scope string_scope.

Definition dq : ascii := "034"%char.
Definition backslash : ascii := "092"%char.

(** The decimal text of an integer. *)
Definition decimal (z : Z) : string := NilZero.string_of_int (Z.to_int z).

(** Its number of digits, the sign left out. *)
Definition digits (z : Z) : nat := String.length (decimal (Z.abs z)).

(** [sys.int_info.default_max_str_digits]: since Python 3.11 a conversion
    between [int] and [str] raises [ValueError] above this number of
    digits. *)
Definition max_str_digits : Z := 4300.

(** The message of that [ValueError], up to its first clause. *)
Definition digit_limit_error : string :=
  "ValueError: Exceeds the limit (4300 digits) for integer string conversion".

(** [str(z)] for an [int], as [int.__repr__] computes it. *)
Definition str_of_int (z : Z) : res string :=
  if (max_str_digits <? Z.of_nat (digits z))%Z
  then Err digit_limit_error
  else Ok (decimal z).

(** *** Encoder *)

Definition hex_digit (n : nat) : ascii :=
  nth n ["0"; "1"; "2"; "3"; "4"; "5"; "6"; "7"; "8"; "9";
         "a"; "b"; "c"; "d"; "e"; "f"]%char "0"%char.

(** [ESCAPE_ASCII]: a quote, a backslash and everything outside
    [' '..'~'] is escaped. *)
Definition escape_char (c : ascii) : string :=
  let n := nat_of_ascii c in
  if Ascii.eqb c dq then String backslash (String dq "")
  else if Ascii.eqb c backslash then String backslash (String backslash "")
  else if Nat.eqb n 10 then String backslash "n"
  else if Nat.eqb n 13 then String backslash "r"
  else if Nat.eqb n 9 then String backslash "t"
  else if Nat.eqb n 8 then String backslash "b"
  else if Nat.eqb n 12 then String backslash "f"
  else if (n <? 32)%nat || (126 <? n)%nat then
    String backslash
      (String "u" (String "0" (String "0"
         (String (hex_digit (n / 16)) (String (hex_digit (n mod 16)) "")))))
  else String c "".

Fixpoint escape (s : string) : string :=
  match s with
  | EmptyString => EmptyString
  | String c s' => escape_char c ++ escape s'
  end.

Definition encode_string (s : string) : string :=
  String dq (escape s ++ String dq "").

(** A dictionary key: [str], [int], [bool] and [None] are accepted. *)
Definition encode_key (k : value) : res string :=
  match k with
  | VStr s => Ok (encode_string s)
  | VBool true => Ok (encode_string "true")
  | VBool false => Ok (encode_string "false")
  | VNone => Ok (encode_string "null")
  | VInt z => rbind (str_of_int z) (fun t => Ok (encode_string t))
  | _ => Err "keys must be str, int, float, bool or None"
  end.

(** [json.dumps(v)] with the default separators. *)
Fixpoint dumps (v : value) : res string :=
  match v with
  | VNone => Ok "null"
  | VBool true => Ok "true"
  | VBool false => Ok "false"
  | VInt z => str_of_int z
  | VStr s => Ok (encode_string s)
  | VList l =>
      rbind (rsequence (map dumps l))
        (fun parts => Ok ("[" ++ String.concat ", " parts ++ "]"))
  | VDict d =>
      rbind
        (rsequence
           (map (fun kv =>
                   rbind (encode_key (fst kv)) (fun a =>
                   rbind (dumps (snd kv)) (fun b => Ok (a ++ ": " ++ b))))
                d))
        (fun parts => Ok ("{" ++ String.concat ", " parts ++ "}"))
  | VObj _ _ => Err "Object is not JSON serializable"
  | VMissing _ => Err "Object is not JSON serializable"
  end.

(** *** Decoder *)

Definition is_ws (c : ascii) : bool :=
  let n := nat_of_ascii c in
  Nat.eqb n 32 || Nat.eqb n 9 || Nat.eqb n 10 || Nat.eqb n 13.

Fixpoint skip_ws (s : string) : string :=
  match s with
  | String c s' => if is_ws c then skip_ws s' else s
  | EmptyString => EmptyString
  end.

Definition is_digit (c : ascii) : bool :=
  let n := nat_of_ascii c in (48 <=? n)%nat && (n <=? 57)%nat.

Fixpoint span_digits (s : string) : string * string :=
  match s with
  | String c s' =>
      if is_digit c
      then let '(ds, r) := span_digits s' in (String c ds, r)
      else (EmptyString, s)
  | EmptyString => (EmptyString, EmptyString)
  end.

Definition hex_value (c : ascii) : option nat :=
  let n := nat_of_ascii c in
  if (48 <=? n)%nat && (n <=? 57)%nat then Some (n - 48)
  else if (97 <=? n)%nat && (n <=? 102)%nat then Some (n - 87)
  else if (65 <=? n)%nat && (n <=? 70)%nat then Some (n - 55)
  else None.

Definition hex4 (a b c d : ascii) : option nat :=
  match hex_value a, hex_value b, hex_value c, hex_value d with
  | Some x, Some y, Some z, Some w => Some (((x * 16 + y) * 16 + z) * 16 + w)
  | _, _, _, _ => None
  end.

Definition cons_char (c : ascii) (r : res (string * string))
  : res (string * string) :=
  rbind r (fun p => Ok (String c (fst p), snd p)).

(** The body of a string literal, after the opening quote; returns the
    decoded text and what follows the closing quote. *)
Fixpoint scan_string (s : string) : res (string * string) :=
  match s with
  | EmptyString => Err "Unterminated string"
  | String c r =>
      if Ascii.eqb c dq then Ok (EmptyString, r)
      else if Ascii.eqb c backslash then
        match r with
        | EmptyString => Err "Unterminated string"
        | String e r' =>
            if Ascii.eqb e dq then cons_char dq (scan_string r')
            else if Ascii.eqb e backslash then cons_char backslash (scan_string r')
            else if Ascii.eqb e "/" then cons_char "/" (scan_string r')
            else if Ascii.eqb e "b" then cons_char "008" (scan_string r')
            else if Ascii.eqb e "f" then cons_char "012" (scan_string r')
            else if Ascii.eqb e "n" then cons_char "010" (scan_string r')
            else if Ascii.eqb e "r" then cons_char "013" (scan_string r')
            else if Ascii.eqb e "t" then cons_char "009" (scan_string r')
            else if Ascii.eqb e "u" then
              match r' with
              | String h1 (String h2 (String h3 (String h4 r''))) =>
                  match hex4 h1 h2 h3 h4 with
                  | Some n =>
                      if (n <? 256)%nat
                      then cons_char (ascii_of_nat n) (scan_string r'')
                      else Outside "code point above 255"
                  | None => Err "Invalid \uXXXX escape"
                  end
              | _ => Err "Invalid \uXXXX escape"
              end
            else Err "Invalid \escape"
        end
      else if (nat_of_ascii c <? 32)%nat then Err "Invalid control character"
      else cons_char c (scan_string r)
  end.

Definition head_is (c : ascii) (s : string) : bool :=
  match s with
  | String c' _ => Ascii.eqb c' c
  | EmptyString => false
  end.

Definition tail (s : string) : string :=
  match s with
  | String _ r => r
  | EmptyString => EmptyString
  end.

Fixpoint drop (n : nat) (s : string) : string :=
  match n, s with
  | S n', String _ r => drop n' r
  | _, _ => s
  end.

Definition head_digit (s : string) : bool :=
  match s with String c _ => is_digit c | EmptyString => false end.

(** A fraction needs a digit after the point, an exponent a digit after
    the optional sign: only then is the literal a float. *)
Definition starts_float (s : string) : bool :=
  match s with
  | String c (String d r) =>
      (Ascii.eqb c "." && is_digit d)
      || ((Ascii.eqb c "e" || Ascii.eqb c "E")
          && (is_digit d
              || ((Ascii.eqb d "+" || Ascii.eqb d "-") && head_digit r)))
  | _ => false
  end.

(** An integer literal: a single zero, or a digit run that starts with a
    non-zero digit; a fraction or an exponent makes a float.  The digits
    go through [int(...)], which refuses more than [max_str_digits]. *)
Definition scan_natural (s : string) : res (Z * string) :=
  if head_is "0" s then
    if starts_float (tail s) then Outside "float" else Ok (0%Z, tail s)
  else
    let ds := fst (span_digits s) in
    let r := snd (span_digits s) in
    match ds with
    | EmptyString => Err "Expecting value"
    | _ =>
        match NilZero.uint_of_string ds with
        | Some u =>
            if starts_float r then Outside "float"
            else if (max_str_digits <? Z.of_nat (String.length ds))%Z
            then Err digit_limit_error
            else Ok (Z.of_uint u, r)
        | None => Err "Expecting value"
        end
    end.

Definition scan_number (s : string) : res (Z * string) :=
  if head_is "-" s
  then rbind (scan_natural (tail s)) (fun p => Ok (Z.opp (fst p), snd p))
  else scan_natural s.

(** [dict] assignment on an object under construction: a repeated key
    keeps its first position and takes the last value. *)
Fixpoint obj_set (d : list (value * value)) (k : string) (v : value)
  : list (value * value) :=
  match d with
  | [] => [(VStr k, v)]
  | (VStr k', v') :: d' =>
      if String.eqb k' k then (VStr k', v) :: d'
      else (VStr k', v') :: obj_set d' k v
  | kv :: d' => kv :: obj_set d' k v
  end.

(** [scan_once]: the input starts at the value.  [parse_array] and
    [parse_object] start at the first element, resp. at the quote of the
    first key, and carry what was read so far. *)
Fixpoint parse_value (fuel : nat) (s : string) : res (value * string) :=
  match fuel with
  | O => Outside "fuel"
  | S f =>
      if head_is dq s then
        rbind (scan_string (tail s)) (fun p => Ok (VStr (fst p), snd p))
      else if head_is "{" s then
        let r := skip_ws (tail s) in
        if head_is "}" r then Ok (VDict [], tail r)
        else parse_object f r []
      else if head_is "[" s then
        let r := skip_ws (tail s) in
        if head_is "]" r then Ok (VList [], tail r)
        else parse_array f r []
      else if PyStr.startswith "null" s then Ok (VNone, drop 4 s)
      else if PyStr.startswith "true" s then Ok (VBool true, drop 4 s)
      else if PyStr.startswith "false" s then Ok (VBool false, drop 5 s)
      else if PyStr.startswith "NaN" s then Outside "float"
      else if PyStr.startswith "Infinity" s then Outside "float"
      else if PyStr.startswith "-Infinity" s then Outside "float"
      else rbind (scan_number s) (fun p => Ok (VInt (fst p), snd p))
  end
with parse_array (fuel : nat) (s : string) (acc : list value)
  : res (value * string) :=
  match fuel with
  | O => Outside "fuel"
  | S f =>
      rbind (parse_value f s) (fun p =>
        let r := skip_ws (snd p) in
        if head_is "]" r then Ok (VList (acc ++ [fst p])%list, tail r)
        else if head_is "," r
        then parse_array f (skip_ws (tail r)) (acc ++ [fst p])%list
        else Err "Expecting ',' delimiter")
  end
with parse_object (fuel : nat) (s : string) (acc : list (value * value))
  : res (value * string) :=
  match fuel with
  | O => Outside "fuel"
  | S f =>
      if head_is dq s then
        rbind (scan_string (tail s)) (fun k =>
          let r1 := skip_ws (snd k) in
          if head_is ":" r1 then
            rbind (parse_value f (skip_ws (tail r1))) (fun p =>
              let r2 := skip_ws (snd p) in
              if head_is "}" r2
              then Ok (VDict (obj_set acc (fst k) (fst p)), tail r2)
              else if head_is "," r2
              then parse_object f (skip_ws (tail r2))
                                (obj_set acc (fst k) (fst p))
              else Err "Expecting ',' delimiter")
          else Err "Expecting ':' delimiter")
      else Err "Expecting property name enclosed in double quotes"
  end.

(** [json.loads(s)]. *)
Definition loads (s : string) : res value :=
  rbind (parse_value (S (2 * String.length s)) (skip_ws s)) (fun p =>
    match skip_ws (snd p) with
    | EmptyString => Ok (fst p)
    | _ => Err "Extra data"
    end).

(** *** The values on which decoding inverts encoding *)

Fixpoint distinct (l : list string) : bool :=
  match l with
  | [] => true
  | x :: r => negb (existsb (String.eqb x) r) && distinct r
  end.

Definition key_text (k : value) : string :=
  match k with VStr s => s | _ => "" end.

Definition is_str (v : value) : bool :=
  match v with VStr _ => true | _ => false end.

(** [None], booleans, integers, strings, lists of such values, and
    dictionaries of such values whose keys are strings. *)
Fixpoint json_plain (v : value) : bool :=
  match v with
  | VNone => true
  | VBool _ => true
  | VInt _ => true
  | VStr _ => true
  | VList l => forallb json_plain l
  | VDict d =>
      forallb (fun kv => is_str (fst kv) && json_plain (snd kv)) d
      && distinct (map (fun kv => key_text (fst kv)) d)
  | VObj _ _ => false
  | VMissing _ => false
  end.

(** The integers of a value stay within [max_str_digits]. *)
Fixpoint ints_fit (v : value) : bool :=
  match v with
  | VInt z => (Z.of_nat (digits z) <=? max_str_digits)%Z
  | VList l => forallb ints_fit l
  | VDict d => forallb (fun kv => ints_fit (fst kv) && ints_fit (snd kv)) d
  | VObj _ attrs => forallb (fun kv => ints_fit (snd kv)) attrs
  | _ => true
  end.

(** What may follow a value inside a document. *)
Definition delimited (rest : string) : Prop :=
  head_digit rest = false /\ starts_float rest = false.

Definition starts_value (s : string) : bool :=
  match s with
  | String c _ => negb (is_ws c) && negb (Ascii.eqb c "]")
  | EmptyString => false
  end.

End Json.


(* ===================================================================== *)
(** ** Schema derivation and reconstruction *)
(* ===================================================================== *)

Module Schema.

Local Open Scope string_scope.

(** *** ConstructorSpec *)

(** Modelled from the spec: [nargs] of a ConstructorSpec (section 3), a
    natural number or "variable". *)
Inductive nargs_t : Type :=
| Fixed (n : nat)
| Variadic.

(** Modelled from the spec: ConstructorSpec (section 3); the class is not
    under src/.  The test-suite writes [instance_from_str],
    [str_from_instance] and [is_instance] for the last three fields. *)
Record ConstructorSpec : Type := {
  nargs : nargs_t;
  metavar : string;
  instance_from_tokens : list string -> res value;
  tokens_from_instance : value -> res (list string);
  accepts : value -> bool
}.

(** [json_constructor_spec] of [test_custom_primitive_generated.py],
    lines 8-14. *)
Definition json_constructor_spec : ConstructorSpec := {|
  nargs := Fixed 1;
  metavar := "JSON";
  instance_from_tokens := fun args =>
    match args with
    | a :: _ => Json.loads a
    | [] => Err "IndexError: list index out of range"
    end;
  tokens_from_instance := fun x => rbind (Json.dumps x) (fun s => Ok [s]);
  accepts := fun x => match x with VDict _ => true | _ => false end
|}.

(** Modelled from the spec: the display round trip of section 3,
    [instance_from_tokens(tokens_from_instance(v))]. *)
Definition round_trip (cs : ConstructorSpec) (v : value) : res value :=
  rbind (tokens_from_instance cs v) (instance_from_tokens cs).

(** *** TypeDescriptor *)

(** Modelled from the spec: a field of a structure (FieldSpec, section 3):
    its name, its type and its declared default, if any. *)
Record field_of (T : Type) : Type := {
  f_name : string;
  f_type : T;
  f_default : option value
}.

Arguments f_name {T} _.
Arguments f_type {T} _.
Arguments f_default {T} _.

(** Modelled from the spec: how a Group assembles its instance (section
    3): a class is instantiated with the values of its fields, a function
    is called with them. *)
Inductive constructor : Type :=
| Instantiate (cls : string)
| Call (name : string) (body : @PyDict.t value -> exn + value).

(** Modelled from the spec: TypeDescriptor (section 3), for the shapes the
    examples and the test use: primitives, [Any], [Optional], mappings,
    annotations that carry an explicit constructor, the
    [AvoidSubcommands] marker and nested structures. *)
Inductive ty : Type :=
| TBool
| TInt
| TStr
| TAny
| TOptional (t : ty)
| TMapping (k v : ty)
| TAnnotated (t : ty) (override : ConstructorSpec)
| TAvoidSubcommands (t : ty)
| TStruct (c : constructor) (fields : list (field_of ty)).

(** Modelled from the spec: the Resolver strips markers that carry no
    shape of their own (section 4.2). *)
Fixpoint strip (t : ty) : ty :=
  match t with
  | TAvoidSubcommands t' => strip t'
  | _ => t
  end.

(** *** ConstructorRegistry *)

(** Modelled from the spec: the ConstructorRegistry of section 4.1, of
    which only a test is present.  A rule maps a type shape to a spec or
    declines; the registry is the stack of the scopes that are active,
    innermost first. *)
Definition rule : Type := ty -> option ConstructorSpec.

Definition registry : Type := list (list rule).

(** Modelled from the spec: user rules, in registration order (section
    4.1). *)
Definition active_rules (reg : registry) : list rule := concat (rev reg).

(** Modelled from the spec: entering a scope pushes its rules (section 5). *)
Definition enter_scope (rules : list rule) (reg : registry) : registry :=
  rules :: reg.

(** Modelled from the spec: leaving a scope pops them (section 5). *)
Definition exit_scope (reg : registry) : registry := tl reg.

(** Modelled from the spec: a rule registered while a scope is active
    joins that scope (section 4.1). *)
Definition register (r : rule) (reg : registry) : registry :=
  match reg with
  | [] => [[r]]
  | top :: rest => (top ++ [r])%list :: rest
  end.

(** Modelled from the spec: the first user rule that matches wins (section
    4.1). *)
Fixpoint first_match (rules : list rule) (t : ty) : option ConstructorSpec :=
  match rules with
  | [] => None
  | r :: rules' =>
      match r t with
      | Some cs => Some cs
      | None => first_match rules' t
      end
  end.

(** [json_dict_spec] of the test, lines 21-29: [Dict[str, Any]] only. *)
Definition json_dict_spec : rule := fun t =>
  match t with
  | TMapping TStr TAny => Some json_constructor_spec
  | _ => None
  end.

(** Built-in rules. *)

(** Modelled from the spec: the built-in rule for booleans (section 4.1);
    [True] and [False] are the tokens of the example. *)
Definition bool_spec : ConstructorSpec := {|
  nargs := Fixed 1;
  metavar := "{True,False}";
  instance_from_tokens := fun toks =>
    match toks with
    | [t] =>
        if String.eqb t "True" then Ok (VBool true)
        else if String.eqb t "False" then Ok (VBool false)
        else Err ("invalid choice: " ++ t)
    | _ => Err "expected one token"
    end;
  tokens_from_instance := fun v =>
    match v with
    | VBool true => Ok ["True"]
    | VBool false => Ok ["False"]
    | _ => Err "not a bool"
    end;
  accepts := fun v => match v with VBool _ => true | _ => false end
|}.

(** Modelled from the spec: decimal integers, with an optional minus sign. *)
Definition int_of_token (t : string) : res value :=
  match t with
  | String "-" r =>
      match NilZero.uint_of_string r with
      | Some u => Ok (VInt (Z.opp (Z.of_uint u)))
      | None => Err ("invalid literal for int(): " ++ t)
      end
  | _ =>
      match NilZero.uint_of_string t with
      | Some u => Ok (VInt (Z.of_uint u))
      | None => Err ("invalid literal for int(): " ++ t)
      end
  end.

(** Modelled from the spec: the built-in rule for integers (section 4.1). *)
Definition int_spec : ConstructorSpec := {|
  nargs := Fixed 1;
  metavar := "INT";
  instance_from_tokens := fun toks =>
    match toks with
    | [t] => int_of_token t
    | _ => Err "expected one token"
    end;
  tokens_from_instance := fun v =>
    match v with
    | VInt z => rbind (Json.str_of_int z) (fun t => Ok [t])
    | _ => Err "not an int"
    end;
  accepts := fun v => match v with VInt _ => true | _ => false end
|}.

(** Modelled from the spec: the built-in rule for strings (section 4.1). *)
Definition str_spec : ConstructorSpec := {|
  nargs := Fixed 1;
  metavar := "STR";
  instance_from_tokens := fun toks =>
    match toks with
    | [t] => Ok (VStr t)
    | _ => Err "expected one token"
    end;
  tokens_from_instance := fun v =>
    match v with
    | VStr s => Ok [s]
    | _ => Err "not a str"
    end;
  accepts := fun v => match v with VStr _ => true | _ => false end
|}.

(** Modelled from the spec: [Optional[T]] (section 4.2); the token [None]
    stands for the absent value. *)
Definition optional_spec (inner : ConstructorSpec) : ConstructorSpec := {|
  nargs := nargs inner;
  metavar := "{None}|" ++ metavar inner;
  instance_from_tokens := fun toks =>
    match toks with
    | [t] => if String.eqb t "None" then Ok VNone
             else instance_from_tokens inner toks
    | _ => instance_from_tokens inner toks
    end;
  tokens_from_instance := fun v =>
    match v with
    | VNone => Ok ["None"]
    | _ => tokens_from_instance inner v
    end;
  accepts := fun v => match v with VNone => true | _ => accepts inner v end
|}.

(** Modelled from the spec: the message of the failure when no rule
    matches (section 4.1, Scenario D). *)
Definition no_matching_rule : string := "no matching rule".

(** Modelled from the spec: the lookup order of section 4.1, most specific
    first: the explicit override of the field, the user rules in
    registration order, the built-in rules, failure. *)
Fixpoint resolve_spec (rules : list rule) (t : ty) : res ConstructorSpec :=
  match t with
  | TAnnotated _ cs => Ok cs
  | TAvoidSubcommands t' => resolve_spec rules t'
  | _ =>
      match first_match rules t with
      | Some cs => Ok cs
      | None =>
          match t with
          | TBool => Ok bool_spec
          | TInt => Ok int_spec
          | TStr => Ok str_spec
          | TOptional t' =>
              rbind (resolve_spec rules t') (fun cs => Ok (optional_spec cs))
          | _ => Err no_matching_rule
          end
      end
  end.

(** *** Schema tree *)

(** Modelled from the spec: the default of a FieldSpec (section 3). *)
Inductive default_state : Type :=
| Required
| HasValue (v : value).

(** Modelled from the spec: FieldSpec (section 3).  [fs_required] is the
    status shown to the user; [fs_default] is what the reconstructor
    falls back on. *)
Record FieldSpec : Type := {
  fs_name : string;
  fs_path : list string;
  fs_default : default_state;
  fs_required : bool
}.

(** Modelled from the spec: how a leaf is spelled on the command line. *)
Inductive arg_kind : Type :=
| Positional                      (* the field of the synthetic wrapper   *)
| Flag                            (* a boolean with a default             *)
| Option_.                        (* a flag followed by [nargs] tokens    *)

(** Modelled from the spec: ParserNode (section 3), leaves and groups. *)
Inductive node : Type :=
| Leaf (fs : FieldSpec) (cs : ConstructorSpec) (kind : arg_kind)
| Group (fs : FieldSpec) (c : constructor) (children : list node).

(** Modelled from the spec: the FieldSpec of a node. *)
Definition node_spec (n : node) : FieldSpec :=
  match n with
  | Leaf fs _ _ => fs
  | Group fs _ _ => fs
  end.

(** *** Schema Tree Builder *)

Section Builder.

Variable rules : list rule.
Variable dummy : string.

(** Modelled from the spec: the value a default instance holds for a
    field. *)
Definition instance_field (inst : value) (name : string) : option value :=
  match inst with
  | VObj _ attrs => PyDict.get attrs name
  | _ => None
  end.

(** Modelled from the spec: default propagation of the Builder (section
    4.3, step 3) with the precedence of section 3 and of the comment on
    line 151 of [_cli.py]: the default instance overrides the declared
    default. *)
Definition effective_default (declared : option value) (inst : value)
    (name : string) : default_state :=
  match instance_field inst name with
  | Some v => HasValue v
  | None =>
      match declared with
      | Some v => HasValue v
      | None => Required
      end
  end.

(** Modelled from the spec: an argument is required when propagation
    leaves it no default (section 4.3, step 3: "else [Required]", and
    section 4.4: a leaf that is absent fails only if its default is
    [Required]). *)
Definition is_required (d : default_state) : bool :=
  match d with
  | Required => true
  | HasValue _ => false
  end.

(** Modelled from the spec: a boolean that is given a default value
    becomes a pair of flags (docstring of [cli]); the field of the
    synthetic wrapper is positional. *)
Definition leaf_kind (name : string) (t : ty) (declared : option value)
  : arg_kind :=
  if String.eqb name dummy then Positional
  else
    match strip t, declared with
    | TBool, Some _ => Flag
    | _, _ => Option_
    end.

(** Modelled from the spec: the default of a nested field is the default
    instance of its own fields (section 3, "recursively"). *)
Definition instance_of (d : default_state) : value :=
  match d with
  | HasValue v => v
  | Required => VMissing MISSING_NONPROP
  end.

(** Modelled from the spec: the Schema Tree Builder of section 4.3, for
    leaves and nested groups.  [inst] is the default instance of the
    enclosing structure, [prefix] its path. *)
Fixpoint build_field (prefix : list string) (inst : value)
    (name : string) (declared : option value) (t : ty) {struct t}
  : res node :=
  let fs := {| fs_name := name;
               fs_path := (prefix ++ [name])%list;
               fs_default := effective_default declared inst name;
               fs_required :=
                 is_required (effective_default declared inst name) |} in
  match t with
  | TStruct c fields =>
      rbind
        ((fix go (fields : list (field_of ty)) : res (list node) :=
            match fields with
            | [] => Ok []
            | f :: r =>
                rbind (build_field (prefix ++ [name])%list
                         (instance_of (fs_default fs))
                         (f_name f) (f_default f) (f_type f))
                  (fun n => rbind (go r) (fun ns => Ok (n :: ns)))
            end) fields)
        (fun children => Ok (Group fs c children))
  | TAvoidSubcommands t' => build_field prefix inst name declared t'
  | _ =>
      rbind (resolve_spec rules t)
        (fun cs => Ok (Leaf fs cs (leaf_kind name t declared)))
  end.

(** Modelled from the spec: the fields of a structure, in declaration order
    (section 4.3, step 1). *)
Fixpoint build_fields (prefix : list string) (inst : value)
    (fields : list (field_of ty)) : res (list node) :=
  match fields with
  | [] => Ok []
  | f :: r =>
      rbind (build_field prefix inst (f_name f) (f_default f) (f_type f))
        (fun n => rbind (build_fields prefix inst r)
                    (fun ns => Ok (n :: ns)))
  end.

(** Modelled from the spec: [build(target, default_instance, name_prefix)]
    at the top level (section 4.3). *)
Definition build (target : ty) (default_instance : value)
    (prefix : list string) : res node :=
  match strip target with
  | TStruct c fields =>
      rbind (build_fields prefix default_instance fields)
        (fun children =>
           Ok (Group {| fs_name := "";
                        fs_path := prefix;
                        fs_default := Required;
                        fs_required := true |} c children))
  | _ => Err "not a nested structure"
  end.

End Builder.

(** Modelled from the spec: the leaves of a tree, in declaration order, as
    the Builder exposes them (section 6). *)
Fixpoint leaves (n : node) : list (FieldSpec * ConstructorSpec * arg_kind) :=
  match n with
  | Leaf fs cs kind => [(fs, cs, kind)]
  | Group _ _ children => flat_map leaves children
  end.

(** Modelled from the spec: the paths shown to the user as required
    ([is_required], section 6). *)
Definition required_paths (n : node) : list (list string) :=
  map (fun l => fs_path (fst (fst l)))
      (filter (fun l => fs_required (fst (fst l))) (leaves n)).

(** Modelled from the spec: the default of every leaf, by path. *)
Definition leaf_defaults (n : node) : list (list string * default_state) :=
  map (fun l => (fs_path (fst (fst l)), fs_default (fst (fst l)))) (leaves n).

(** *** Front-end parser *)

(** Modelled from the spec: the front-end parser is an external
    collaborator; section 6 fixes what it receives per leaf and what it
    returns, a flat mapping from path to raw tokens or to a marker for
    absent.  Flags follow the docstrings of [cli] and of
    [examples/01_basics/05_flags.py]. *)
Record argument : Type := {
  a_dest : string;
  a_kind : arg_kind;
  a_nargs : nargs_t;
  a_metavar : string;
  a_required : bool
}.

(** Modelled from the spec: the flattened name of a path (section 3). *)
Definition dest_of (path : list string) : string := String.concat "." path.

(** Modelled from the spec: the flag of an argument; underscores are
    written as dashes ([--flag-a] for [flag_a]). *)
Definition flag_of (dest : string) : string :=
  "--" ++ PyStr.replace dest "_" "-".

(** Modelled from the spec: the flag that switches a boolean off
    ([--no-flag-b]). *)
Definition neg_flag_of (dest : string) : string :=
  "--no-" ++ PyStr.replace dest "_" "-".

(** Modelled from the spec: what the Builder exposes of a leaf (section 6). *)
Definition argument_of (l : FieldSpec * ConstructorSpec * arg_kind)
  : argument :=
  let '(fs, cs, kind) := l in
  {| a_dest := dest_of (fs_path fs);
     a_kind := kind;
     a_nargs := nargs cs;
     a_metavar := metavar cs;
     a_required := fs_required fs |}.

(** Modelled from the spec: the marker for absent (section 6). *)
Definition absent : value := VMissing MISSING_PROP.

(** Modelled from the spec: raw tokens in the flat mapping (section 6). *)
Definition raw (toks : list string) : value := VList (map VStr toks).

(** Modelled from the spec: what a token starts when it is a flag. *)
Inductive matched : Type :=
| MSet (dest : string) (toks : list string)
| MTake (dest : string) (n : nat)
| MRest (dest : string)
| MNone.

(** Modelled from the spec: the argument a flag belongs to, if any. *)
Fixpoint match_flag (args : list argument) (tok : string) : matched :=
  match args with
  | [] => MNone
  | a :: r =>
      match a_kind a with
      | Flag =>
          if String.eqb tok (flag_of (a_dest a)) then MSet (a_dest a) ["True"]
          else if String.eqb tok (neg_flag_of (a_dest a))
          then MSet (a_dest a) ["False"]
          else match_flag r tok
      | Option_ =>
          if String.eqb tok (flag_of (a_dest a)) then
            match a_nargs a with
            | Fixed O => MSet (a_dest a) []
            | Fixed (S n) => MTake (a_dest a) (S n)
            | Variadic => MRest (a_dest a)
            end
          else match_flag r tok
      | Positional => match_flag r tok
      end
  end.

(** Modelled from the spec: the first positional argument that has no value
    yet. *)
Fixpoint next_positional (args : list argument) (ns : @PyDict.t value)
  : option argument :=
  match args with
  | [] => None
  | a :: r =>
      match a_kind a, PyDict.get ns (a_dest a) with
      | Positional, Some (VMissing _) => Some a
      | _, _ => next_positional r ns
      end
  end.

(** Modelled from the spec: the front-end parser between two tokens. *)
Inductive pstate : Type :=
| Idle
| Collect (dest : string) (need : nat) (got : list string)
| CollectRest (dest : string) (got : list string).

(** Modelled from the spec: a token that is spelled as a flag. *)
Definition is_flag_like (tok : string) : bool := PyStr.startswith "--" tok.

(** Modelled from the spec: the front-end parser, token by token; the
    result is the flat mapping of section 6. *)
Fixpoint parse_loop (args : list argument) (toks : list string)
    (st : pstate) (ns : @PyDict.t value) : res (@PyDict.t value) :=
  match toks with
  | [] =>
      match st with
      | Idle => Ok ns
      | Collect dest _ _ => Err ("expected more arguments for " ++ dest)
      | CollectRest dest got => Ok (PyDict.set ns dest (raw got))
      end
  | tok :: rest =>
      match st with
      | Collect dest (S (S n)) got =>
          parse_loop args rest (Collect dest (S n) (got ++ [tok])%list) ns
      | Collect dest _ got =>
          parse_loop args rest Idle
            (PyDict.set ns dest (raw (got ++ [tok])%list))
      | CollectRest dest got =>
          if is_flag_like tok
          then
            match match_flag args tok with
            | MSet d toks' =>
                parse_loop args rest Idle
                  (PyDict.set (PyDict.set ns dest (raw got)) d (raw toks'))
            | MTake d n =>
                parse_loop args rest (Collect d n [])
                  (PyDict.set ns dest (raw got))
            | MRest d =>
                parse_loop args rest (CollectRest d [])
                  (PyDict.set ns dest (raw got))
            | MNone => Err ("unrecognized arguments: " ++ tok)
            end
          else parse_loop args rest (CollectRest dest (got ++ [tok])%list) ns
      | Idle =>
          match match_flag args tok with
          | MSet d toks' => parse_loop args rest Idle (PyDict.set ns d (raw toks'))
          | MTake d n => parse_loop args rest (Collect d n []) ns
          | MRest d => parse_loop args rest (CollectRest d []) ns
          | MNone =>
              match next_positional args ns with
              | Some a =>
                  match a_nargs a with
                  | Fixed (S (S n)) =>
                      parse_loop args rest (Collect (a_dest a) (S n) [tok]) ns
                  | Fixed _ =>
                      parse_loop args rest Idle
                        (PyDict.set ns (a_dest a) (raw [tok]))
                  | Variadic =>
                      parse_loop args rest (CollectRest (a_dest a) [tok]) ns
                  end
              | None => Err ("unrecognized arguments: " ++ tok)
              end
          end
      end
  end.

(** Modelled from the spec: every leaf starts out absent (section 6). *)
Definition initial_values (args : list argument) : @PyDict.t value :=
  fold_left (fun ns a => PyDict.set ns (a_dest a) absent) args [].

(** Modelled from the spec: an argument parser: the program name, the
    formatter and the arguments it was given. *)
Record parser : Type := {
  pr_prog : string;
  pr_formatter : nat;
  pr_args : list argument
}.

(** Modelled from the spec: the usage line; its layout is out of scope
    (section 1). *)
Definition usage (p : parser) : string :=
  "usage: " ++ pr_prog p ++
  String.concat ""
    (map (fun a =>
            match a_kind a with
            | Positional => " " ++ a_metavar a
            | Flag => " [" ++ flag_of (a_dest a) ++ " | "
                          ++ neg_flag_of (a_dest a) ++ "]"
            | Option_ =>
                if a_required a
                then " " ++ flag_of (a_dest a) ++ " " ++ a_metavar a
                else " [" ++ flag_of (a_dest a) ++ " " ++ a_metavar a ++ "]"
            end) (pr_args p)).

(** Modelled from the spec: [parser.parse_args(args)]; a usage error ends
    the process with status 2. *)
Definition run_parse_args (p : parser) (args : list string)
  : M (@PyDict.t value) :=
  match parse_loop (pr_args p) args Idle (initial_values (pr_args p)) with
  | Ok ns => ret ns
  | Err msg =>
      bind (emit (Stderr (usage p))) (fun _ =>
      bind (emit (Stderr (pr_prog p ++ ": error: " ++ msg))) (fun _ =>
      raise (SystemExit (Some 2%Z))))
  | Outside why => raise (NotEmbedded why)
  end.

(** *** Reconstructor *)

Section Reconstructor.

Variable dummy : string.

(** Modelled from the spec: the key under which the reconstructor looks a
    leaf up; the name of the synthetic field does not count, as [cli]
    removes it from the parsed keys. *)
Definition field_key (path : list string) : string :=
  String.concat "." (filter (fun seg => negb (String.eqb seg dummy)) path).

(** Modelled from the spec: the raw tokens of an entry of the flat
    mapping. *)
Fixpoint tokens_of (l : list value) : option (list string) :=
  match l with
  | [] => Some []
  | VStr s :: r =>
      match tokens_of r with
      | Some ts => Some (s :: ts)
      | None => None
      end
  | _ :: _ => None
  end.

(** Modelled from the spec: MissingRequiredArgument, naming the path
    (section 4.4, Scenario E). *)
Definition missing_required (key : string) : exn :=
  InstantiationError ("MissingRequiredArgument: " ++ key).

(** Modelled from the spec: ConversionError with path and cause (section
    4.4). *)
Definition conversion_error (key msg : string) : exn :=
  InstantiationError ("ConversionError: " ++ key ++ ": " ++ msg).

(** Modelled from the spec: the error of a child, annotated with the path
    of the group (section 4.4). *)
Definition annotate (path : list string) (e : exn) : exn :=
  match e, path with
  | InstantiationError msg, _ :: _ =>
      InstantiationError (msg ++ " (in " ++ dest_of path ++ ")")
  | _, _ => e
  end.

(** Modelled from the spec: a leaf that is absent from the input (section
    4.4). *)
Definition from_default (fs : FieldSpec) (key : string)
  : exn + (value * PySet.t) :=
  match fs_default fs with
  | HasValue v => inr (v, [key])
  | Required => inl (missing_required key)
  end.

(** Modelled from the spec: the assembly function of a group (section
    4.4). *)
Definition construct (c : constructor) (kwargs : @PyDict.t value)
  : exn + value :=
  match c with
  | Instantiate cls => inr (VObj cls kwargs)
  | Call _ body => body kwargs
  end.

(** Modelled from the spec: the Reconstructor of section 4.4, for leaves
    and groups. *)
Fixpoint assemble (n : node) (flat : @PyDict.t value)
  : exn + (value * PySet.t) :=
  match n with
  | Leaf fs cs _ =>
      let key := field_key (fs_path fs) in
      match PyDict.get flat key with
      | Some (VList l) =>
          match tokens_of l with
          | Some toks =>
              match instance_from_tokens cs toks with
              | Ok v => inr (v, [key])
              | Err msg => inl (conversion_error key msg)
              | Outside why => inl (NotEmbedded why)
              end
          | None => inl (OtherError "TypeError" "raw tokens expected")
          end
      | _ => from_default fs key
      end
  | Group fs c children =>
      match
        (fix go (children : list node)
           : exn + (@PyDict.t value * PySet.t) :=
           match children with
           | [] => inr ([], [])
           | ch :: r =>
               match assemble ch flat with
               | inl e => inl (annotate (fs_path fs) e)
               | inr (v, used) =>
                   match go r with
                   | inl e => inl e
                   | inr (kwargs, used') =>
                       inr ((fs_name (node_spec ch), v) :: kwargs,
                            (used ++ used')%list)
                   end
               end
           end) children
      with
      | inl e => inl e
      | inr (kwargs, used) =>
          match construct c kwargs with
          | inl e => inl e
          | inr v => inr (v, used)
          end
      end
  end.

End Reconstructor.

(** *** The collaborators of [cli] *)

(** Modelled from the spec: what [ParserSpecification.from_callable]
    returns: the schema tree and the description. *)
Record pspec : Type := {
  ps_root : node;
  ps_description : option string
}.

(** Modelled from the spec: [len(parser_definition.args)], the arguments
    of the top level. *)
Definition direct_args (n : node) : nat :=
  match n with
  | Group _ _ children =>
      List.length (filter (fun ch => match ch with
                                     | Leaf _ _ _ => true
                                     | Group _ _ _ => false
                                     end) children)
  | Leaf _ _ _ => 1
  end.

(** Modelled from the spec: the declared default of a dataclass field;
    [dataclasses.MISSING] stands for none. *)
Definition declared_default (d : value) : option value :=
  match d with
  | VMissing DC_MISSING => None
  | _ => Some d
  end.

(** Modelled from the spec: [_fields.is_nested_type]: a nested structure,
    after markers are stripped. *)
Definition is_struct (t : ty) : bool :=
  match strip t with
  | TStruct _ _ => true
  | _ => false
  end.

(** Modelled from the spec: the name prefix as a path. *)
Definition prefix_path (prefix : string) : list string :=
  match prefix with
  | EmptyString => []
  | _ => [prefix]
  end.

(** Modelled from the spec: the modules [cli] imports are not part of
    the sources at hand; the record binds them to the registry, builder,
    front-end parser and reconstructor above. *)
Definition env (reg : registry) (dummy : string) (argv : list string)
  : Env ty pspec parser nat := {|
  dummy_field_name := dummy;
  sys_argv := argv;
  AvoidSubcommands := fun f => ret (TAvoidSubcommands f);
  make_dataclass := fun cls fields =>
    check_field_defaults fields ;;
    ret (TStruct (Instantiate cls)
           (map (fun f => {| f_name := fst (fst f);
                             f_type := snd (fst f);
                             f_default := declared_default (snd f) |})
                fields));
  is_nested_type := fun f _ => ret (is_struct f);
  from_callable := fun f description _ _ default_instance prefix =>
    match build (active_rules reg) dummy f default_instance
                (prefix_path prefix) with
    | Ok n => ret {| ps_root := n; ps_description := description |}
    | Err msg => raise (OtherError "SchemaError" msg)
    | Outside why => raise (NotEmbedded why)
    end;
  pspec_args := fun spec => direct_args (ps_root spec);
  pspec_apply := fun spec p =>
    ret {| pr_prog := pr_prog p;
           pr_formatter := pr_formatter p;
           pr_args := map argument_of (leaves (ps_root spec)) |};
  ArgumentParser := fun prog formatter =>
    ret {| pr_prog := match prog with Some s => s | None => hd "" argv end;
           pr_formatter := formatter;
           pr_args := [] |};
  parser_prog := pr_prog;
  parse_args := run_parse_args;
  format_usage := usage;
  make_formatter_class := fun n => ret n;
  shtab_complete := fun p shell root_prefix =>
    ret ("# " ++ shell ++ " completion for " ++ root_prefix);
  call_from_args := fun _ spec _ values _ =>
    ([], assemble dummy (ps_root spec) values)
|}.

(** *** Sessions: registry scopes around calls of [cli] *)

(** Modelled from the spec: a registry scope is a [with] block (section
    5): entering pushes its rules, leaving pops them on every exit
    path. *)
Inductive cmd : Type :=
| RunCli (f : ty) (args : list string) (default : value)
| Register (r : rule)
| WithRegistry (rules : list rule) (body : list cmd)
| Throw (e : exn).

(** Modelled from the spec: what a run of commands leaves: the results of
    the calls of [cli], the exception that ended it, and the registry. *)
Record session : Type := {
  results : list (M value);
  raised : option exn;
  final : registry
}.

Section Session.

Variable dummy : string.
Variable argv : list string.

(** Modelled from the spec: the exception a call of [cli] ended with. *)
Definition raised_by (m : M value) : option exn :=
  match snd m with
  | inl e => Some e
  | inr _ => None
  end.

(** Modelled from the spec: one command; a scope pops its rules on every
    exit path (section 5). *)
Fixpoint run (c : cmd) (reg : registry) {struct c} : session :=
  match c with
  | RunCli f args default =>
      let m := cli (env reg dummy argv) f None None (Some args) default [] in
      {| results := [m]; raised := raised_by m; final := reg |}
  | Register r =>
      {| results := []; raised := None; final := register r reg |}
  | WithRegistry rules body =>
      let s :=
        (fix block (body : list cmd) (reg : registry) : session :=
           match body with
           | [] => {| results := []; raised := None; final := reg |}
           | c :: r =>
               let s1 := run c reg in
               match raised s1 with
               | Some _ => s1
               | None =>
                   let s2 := block r (final s1) in
                   {| results := (results s1 ++ results s2)%list;
                      raised := raised s2;
                      final := final s2 |}
               end
           end) body (enter_scope rules reg) in
      {| results := results s; raised := raised s;
         final := exit_scope (final s) |}
  | Throw e => {| results := []; raised := Some e; final := reg |}
  end.

(** Modelled from the spec: commands in sequence; an exception ends the
    sequence. *)
Fixpoint run_block (body : list cmd) (reg : registry) : session :=
  match body with
  | [] => {| results := []; raised := None; final := reg |}
  | c :: r =>
      let s1 := run c reg in
      match raised s1 with
      | Some _ => s1
      | None =>
          let s2 := run_block r (final s1) in
          {| results := (results s1 ++ results s2)%list;
             raised := raised s2;
             final := final s2 |}
      end
  end.

End Session.

End Schema.

(* ===================================================================== *)
(** ** Variations of the collaborators, and the targets of the examples *)
(* ===================================================================== *)

Section Variations.

Context {callable pspec parser formatter : Type}.

(** The same collaborators under another process argument list. *)
Definition with_argv (E : Env callable pspec parser formatter)
    (argv : list string) : Env callable pspec parser formatter :=
  {| dummy_field_name := dummy_field_name E;
     sys_argv := argv;
     AvoidSubcommands := AvoidSubcommands E;
     make_dataclass := make_dataclass E;
     is_nested_type := is_nested_type E;
     from_callable := from_callable E;
     pspec_args := pspec_args E;
     pspec_apply := pspec_apply E;
     ArgumentParser := ArgumentParser E;
     parser_prog := parser_prog E;
     parse_args := parse_args E;
     format_usage := format_usage E;
     make_formatter_class := make_formatter_class E;
     shtab_complete := shtab_complete E;
     call_from_args := call_from_args E |}.

(** The same collaborators with another calling phase: [call_from_args]
    is the only one that calls the target. *)
Definition with_call_from_args (E : Env callable pspec parser formatter)
    (c : callable -> pspec -> value -> @PyDict.t value -> string ->
         M (value * PySet.t))
  : Env callable pspec parser formatter :=
  {| dummy_field_name := dummy_field_name E;
     sys_argv := sys_argv E;
     AvoidSubcommands := AvoidSubcommands E;
     make_dataclass := make_dataclass E;
     is_nested_type := is_nested_type E;
     from_callable := from_callable E;
     pspec_args := pspec_args E;
     pspec_apply := pspec_apply E;
     ArgumentParser := ArgumentParser E;
     parser_prog := parser_prog E;
     parse_args := parse_args E;
     format_usage := format_usage E;
     make_formatter_class := make_formatter_class E;
     shtab_complete := shtab_complete E;
     call_from_args := c |}.

(** Lines 126-153 alone: the schema [cli] derives for [f] and [default]. *)
Definition derived_schema (E : Env callable pspec parser formatter)
    (f : callable) (default : value) : M pspec :=
  bind (wrap_target E f default) (fun fw =>
    from_callable E (fst fw) None [] None
                  (default_instance_internal default) "").

End Variations.

(** Collaborators that answer with fixed values: the parser returns the
    mapping [ns], the calling phase returns [out] and reports [consumed]. *)
Definition fixed_env (ns : @PyDict.t value) (out : value)
    (consumed : PySet.t) : Env unit unit unit unit :=
  {| dummy_field_name := "__dcargs_dummy_field_name__";
     sys_argv := ["prog"];
     AvoidSubcommands := fun f => ret f;
     make_dataclass := fun _ fields => bind (check_field_defaults fields) ret;
     is_nested_type := fun _ _ => ret true;
     from_callable := fun _ _ _ _ _ _ => ret tt;
     pspec_args := fun _ => O;
     pspec_apply := fun _ p => ret p;
     ArgumentParser := fun _ _ => ret tt;
     parser_prog := fun _ => "prog";
     parse_args := fun _ _ => ret ns;
     format_usage := fun _ => "usage: prog";
     make_formatter_class := fun _ => ret tt;
     shtab_complete := fun _ _ _ => ret "";
     call_from_args := fun _ _ _ _ _ => ret (out, consumed) |}.

Module Examples.

Import Schema.

Definition quote : string := String Json.dq "".

Definition field (name : string) (t : ty) (default : option value)
  : field_of ty :=
  {| f_name := name; f_type := t; f_default := default |}.

(** [_strings.dummy_field_name], as the collaborators below spell it. *)
Definition dummy : string := "__dcargs_dummy_field_name__".

Definition argv : list string := ["prog.py"].

(** The collaborators with no user rule active. *)
Definition plain_env : Env ty pspec parser nat := env [] dummy argv.

(** The two flags of [examples/01_basics/05_flags.py], lines 28-32. *)
Definition Flags : ty :=
  TStruct (Instantiate "Args")
    [field "flag_a" TBool (Some (VBool false));
     field "flag_b" TBool (Some (VBool true))].

(** [Args] of [examples/01_basics/05_flags.py], lines 20-32. *)
Definition Args : ty :=
  TStruct (Instantiate "Args")
    [field "boolean" TBool None;
     field "optional_boolean" (TOptional TBool) (Some VNone);
     field "flag_a" TBool (Some (VBool false));
     field "flag_b" TBool (Some (VBool true))].

(** [def main(x: Dict[str, Any]) -> Dict[str, Any]: return x] of the
    test, lines 31-32. *)
Definition main_body (kwargs : @PyDict.t value) : exn + value :=
  match PyDict.get kwargs "x" with
  | Some x => inr x
  | None => inl (OtherError "TypeError" "missing argument x")
  end.

Definition main : ty :=
  TStruct (Call "main" main_body) [field "x" (TMapping TStr TAny) None].

(** The collaborators inside [with primitive_registry:] of the test. *)
Definition json_env : Env ty pspec parser nat :=
  env (enter_scope [json_dict_spec] []) dummy argv.

(** [def main(x: int): return x]: one required integer. *)
Definition count_body (kwargs : @PyDict.t value) : exn + value :=
  match PyDict.get kwargs "x" with
  | Some x => inr x
  | None => inl (OtherError "TypeError" "missing argument x")
  end.

Definition count : ty :=
  TStruct (Call "main" count_body) [field "x" TInt None].

(** A default instance for [Args]:
    [Args(boolean=False, optional_boolean=None, flag_a=True, flag_b=True)]. *)
Definition args_default : value :=
  VObj "Args" [("boolean", VBool false); ("optional_boolean", VNone);
               ("flag_a", VBool true); ("flag_b", VBool true)].

(** The token of the test, line 35. *)
Definition a1_token : string := "{" ++ quote ++ "a" ++ quote ++ ": 1}".

End Examples.

(* ===================================================================== *)
(** ** Properties as the specification words them *)
(* ===================================================================== *)

Section Stated.

Context {callable pspec parser formatter : Type}.
Variable E : Env callable pspec parser formatter.

(** Total consumption: on a normal return, the consumed paths are exactly
    the paths of the flat mapping. *)
Definition consumes_exactly
    (f : callable) (prog description : option string)
    (args : option (list string)) (default : value)
    (kw : @PyDict.t value) : Prop :=
  forall tr1 st tr2 out consumed v,
    derive_and_parse E f prog description args default kw = (tr1, inr st) ->
    call_from_args E (p_f st) (p_definition st) (p_default_instance st)
                   (p_values st) "" = (tr2, inr (out, consumed)) ->
    outcome_of (cli E f prog description args default kw) = inr v ->
    forall k, In k consumed <-> In k (PyDict.keys (p_values st)).

(** A completion request with a supported shell prints the script and
    raises [SystemExit]. *)
Definition completion_always_exits
    (f : callable) (prog description : option string)
    (args : option (list string)) (default : value)
    (kw : @PyDict.t value) : Prop :=
  (2 <= List.length (effective_args E args))%nat ->
  hd "" (effective_args E args) = completion_flag ->
  In (nth 1 (effective_args E args) "") completion_shells ->
  outcome_of (cli E f prog description args default kw)
  = inl (SystemExit None).

End Stated.

(** Round trip of the default display, for one spec. *)
Definition round_trips (cs : Schema.ConstructorSpec) : Prop :=
  forall v, Schema.accepts cs v = true -> Schema.round_trip cs v = Ok v.

(** A default instance leaves the required/optional status of every
    argument as it is without one. *)
Definition default_keeps_status
    (E : Env Schema.ty Schema.pspec Schema.parser nat)
    (f : Schema.ty) (default : value) : Prop :=
  forall tr0 s0 tr1 s1,
    derived_schema E f VNone = (tr0, inr s0) ->
    derived_schema E f default = (tr1, inr s1) ->
    Schema.required_paths (Schema.ps_root s0)
    = Schema.required_paths (Schema.ps_root s1).

(** The value a default instance holds at a path. *)
Fixpoint lookup_path (inst : value) (path : list string) : option value :=
  match path with
  | [] => Some inst
  | name :: rest =>
      match Schema.instance_field inst name with
      | Some v => lookup_path v rest
      | None => None
      end
  end.

(* ===================================================================== *)
(** ** Induction principles and auxiliary notions *)
(* ===================================================================== *)

(** Structural induction through the lists inside a value. *)
Section ValueInd.
Variable P : value -> Prop.
Hypothesis HNone : P VNone.
Hypothesis HBool : forall b, P (VBool b).
Hypothesis HInt : forall z, P (VInt z).
Hypothesis HStr : forall s, P (VStr s).
Hypothesis HList : forall l, Forall P l -> P (VList l).
Hypothesis HDict :
  forall d, Forall (fun kv => P (fst kv) /\ P (snd kv)) d -> P (VDict d).
Hypothesis HObj :
  forall cls attrs, Forall (fun kv => P (snd kv)) attrs -> P (VObj cls attrs).
Hypothesis HMissing : forall k, P (VMissing k).

Fixpoint value_ind' (v : value) : P v :=
  match v with
  | VNone => HNone
  | VBool b => HBool b
  | VInt z => HInt z
  | VStr s => HStr s
  | VList l =>
      HList l
        ((fix go (l : list value) : Forall P l :=
            match l with
            | [] => Forall_nil _
            | x :: r => Forall_cons _ (value_ind' x) (go r)
            end) l)
  | VDict d =>
      HDict d
        ((fix go (d : list (value * value))
            : Forall (fun kv => P (fst kv) /\ P (snd kv)) d :=
            match d with
            | [] => Forall_nil _
            | (k, x) :: r =>
                Forall_cons (k, x) (conj (value_ind' k) (value_ind' x)) (go r)
            end) d)
  | VObj cls attrs =>
      HObj cls attrs
        ((fix go (d : list (string * value))
            : Forall (fun kv => P (snd kv)) d :=
            match d with
            | [] => Forall_nil _
            | (k, x) :: r => Forall_cons (k, x) (value_ind' x) (go r)
            end) attrs)
  | VMissing k => HMissing k
  end.
End ValueInd.

(** Structural induction through the bodies of nested scopes. *)
Section CmdInd.
Import Schema.
Variable P : cmd -> Prop.
Hypothesis HRun : forall f args default, P (RunCli f args default).
Hypothesis HReg : forall r, P (Register r).
Hypothesis HWith : forall rules body, Forall P body -> P (WithRegistry rules body).
Hypothesis HThrow : forall e, P (Throw e).

Fixpoint cmd_ind' (c : cmd) : P c :=
  match c with
  | RunCli f args default => HRun f args default
  | Register r => HReg r
  | WithRegistry rules body =>
      HWith rules body
        ((fix go (body : list cmd) : Forall P body :=
            match body with
            | [] => Forall_nil _
            | c :: r => Forall_cons _ (cmd_ind' c) (go r)
            end) body)
  | Throw e => HThrow e
  end.
End CmdInd.

(** Structural induction through the fields of nested structures. *)
Section TyInd.
Import Schema.
Variable P : ty -> Prop.
Hypothesis HBool : P TBool.
Hypothesis HInt : P TInt.
Hypothesis HStr : P TStr.
Hypothesis HAny : P TAny.
Hypothesis HOpt : forall t, P t -> P (TOptional t).
Hypothesis HMap : forall k v, P k -> P v -> P (TMapping k v).
Hypothesis HAnn : forall t cs, P t -> P (TAnnotated t cs).
Hypothesis HAvoid : forall t, P t -> P (TAvoidSubcommands t).
Hypothesis HStruct :
  forall c fields, Forall (fun f => P (f_type f)) fields -> P (TStruct c fields).

Fixpoint ty_ind' (t : ty) : P t :=
  match t with
  | TBool => HBool
  | TInt => HInt
  | TStr => HStr
  | TAny => HAny
  | TOptional t' => HOpt t' (ty_ind' t')
  | TMapping k v => HMap k v (ty_ind' k) (ty_ind' v)
  | TAnnotated t' cs => HAnn t' cs (ty_ind' t')
  | TAvoidSubcommands t' => HAvoid t' (ty_ind' t')
  | TStruct c fields =>
      HStruct c fields
        ((fix go (fields : list (field_of ty))
            : Forall (fun f => P (f_type f)) fields :=
            match fields with
            | [] => Forall_nil _
            | f :: r => Forall_cons f (ty_ind' (f_type f)) (go r)
            end) fields)
  end.
End TyInd.

Section JsonNotions.
Import Json.
Local Open Scope string_scope.

(** The roundtrip property of one value. *)
Definition rt (v : value) : Prop :=
  json_plain v = true -> ints_fit v = true ->
  exists s,
    dumps v = Ok s /\ starts_value s = true /\
    forall fuel rest,
      String.length s <= fuel -> delimited rest ->
      parse_value fuel (s ++ rest) = Ok (v, rest).

Definition has_key (acc : list (value * value)) (k : string) : bool :=
  existsb (fun kv => match fst kv with
                     | VStr k' => String.eqb k' k
                     | _ => false
                     end) acc.

Definition member (kv : value * value) : res string :=
  rbind (encode_key (fst kv)) (fun a =>
  rbind (dumps (snd kv)) (fun b => Ok (a ++ ": " ++ b))).

Definition keys_of (d : list (value * value)) : list string :=
  map (fun kv => key_text (fst kv)) d.

(** A result that consumed input and did not stop for lack of fuel. *)
Definition progress {A} (r : res (A * string)) (s : string) : Prop :=
  match r with
  | Ok (_, rest) => String.length rest < String.length s
  | Err _ => True
  | Outside why => why <> "fuel"
  end.

End JsonNotions.

Section BuilderNotions.
Import Schema.
Variable rules : list Schema.rule.
Variable dummy : string.

(** A leaf is shown as required exactly when it has no default. *)
Definition status_of_default (l : FieldSpec * ConstructorSpec * arg_kind)
  : Prop :=
  fs_required (fst (fst l)) = is_required (fs_default (fst (fst l))).

Definition status_follows (t : ty) : Prop :=
  forall prefix inst name declared n,
    Schema.build_field rules dummy prefix inst name declared t = Ok n ->
    Forall status_of_default (leaves n).

Definition overridden (inst : value) (prefix : list string)
    (l : FieldSpec * ConstructorSpec * arg_kind) : Prop :=
  exists rel,
    fs_path (fst (fst l)) = prefix ++ rel /\
    forall v, lookup_path inst rel = Some v ->
              fs_default (fst (fst l)) = HasValue v.

Definition defaults_follow (t : ty) : Prop :=
  forall prefix inst name declared n,
    Schema.build_field rules dummy prefix inst name declared t = Ok n ->
    Forall (overridden inst prefix) (leaves n).

End BuilderNotions.

(* ===================================================================== *)
(** ** Further notions used by the statements below *)
(* ===================================================================== *)

Section MoreVariations.

Context {callable pspec parser formatter : Type}.

(** The same collaborators with another [ArgumentParser.parse_args]. *)
Definition with_parse_args (E : Env callable pspec parser formatter)
    (pa : parser -> list string -> M (@PyDict.t value))
  : Env callable pspec parser formatter :=
  {| dummy_field_name := dummy_field_name E;
     sys_argv := sys_argv E;
     AvoidSubcommands := AvoidSubcommands E;
     make_dataclass := make_dataclass E;
     is_nested_type := is_nested_type E;
     from_callable := from_callable E;
     pspec_args := pspec_args E;
     pspec_apply := pspec_apply E;
     ArgumentParser := ArgumentParser E;
     parser_prog := parser_prog E;
     parse_args := pa;
     format_usage := format_usage E;
     make_formatter_class := make_formatter_class E;
     shtab_complete := shtab_complete E;
     call_from_args := call_from_args E |}.

(** The same collaborators with another [ParserSpecification.apply]. *)
Definition with_pspec_apply (E : Env callable pspec parser formatter)
    (ap : pspec -> parser -> M parser)
  : Env callable pspec parser formatter :=
  {| dummy_field_name := dummy_field_name E;
     sys_argv := sys_argv E;
     AvoidSubcommands := AvoidSubcommands E;
     make_dataclass := make_dataclass E;
     is_nested_type := is_nested_type E;
     from_callable := from_callable E;
     pspec_args := pspec_args E;
     pspec_apply := ap;
     ArgumentParser := ArgumentParser E;
     parser_prog := parser_prog E;
     parse_args := parse_args E;
     format_usage := format_usage E;
     make_formatter_class := make_formatter_class E;
     shtab_complete := shtab_complete E;
     call_from_args := call_from_args E |}.

(** [deprecated_kwargs.get("avoid_subparsers", False)], as a truth value. *)
Definition avoid_subparsers_set (kw : @PyDict.t value) : bool :=
  truthy (match PyDict.get kw "avoid_subparsers" with
          | Some b => b
          | None => VBool false
          end).

End MoreVariations.

(** Collaborators that follow a script: schema derivation ends as
    [derive], parsing as [parse] and the calling phase as [call]; [nested]
    is the answer of [is_nested_type]. *)
Definition scripted_env (nested : bool) (derive : M unit)
    (parse : M (@PyDict.t value)) (call : M (value * PySet.t))
  : Env unit unit unit unit :=
  {| dummy_field_name := "__dcargs_dummy_field_name__";
     sys_argv := ["prog"];
     AvoidSubcommands := fun f => ret f;
     make_dataclass := fun _ fields => bind (check_field_defaults fields) ret;
     is_nested_type := fun _ _ => ret nested;
     from_callable := fun _ _ _ _ _ _ => derive;
     pspec_args := fun _ => O;
     pspec_apply := fun _ p => ret p;
     ArgumentParser := fun _ _ => ret tt;
     parser_prog := fun _ => "prog";
     parse_args := fun _ _ => parse;
     format_usage := fun _ => "usage: prog";
     make_formatter_class := fun _ => ret tt;
     shtab_complete := fun _ _ _ => ret "";
     call_from_args := fun _ _ _ _ _ => call |}.

Section StringNotions.

(** [old in s]: [old] occurs in [s] as a substring. *)
Fixpoint occurs (old s : string) : bool :=
  PyStr.startswith old s
  || match s with
     | String _ s' => occurs old s'
     | EmptyString => false
     end.

(** The last entry of [d] whose rewritten key is [k]: the entry a dict
    comprehension over [d.items()] leaves under [k]. *)
Definition last_under {V : Type} (key : string -> string)
    (d : @PyDict.t V) (k : string) : option V :=
  option_map snd (find (fun kv => String.eqb (key (fst kv)) k) (rev d)).

End StringNotions.

Section StatedOfWrapping.

Context {callable pspec parser formatter : Type}.
Variable E : Env callable pspec parser formatter.

(** The synthetic dataclass does not show at the interface: no exception
    that leaves [cli] names its field. *)
Definition wrapping_is_invisible
    (f : callable) (prog description : option string)
    (args : option (list string)) (default : value)
    (kw : @PyDict.t value) : Prop :=
  forall tr kind msg,
    cli E f prog description args default kw
    = (tr, inl (OtherError kind msg)) ->
    occurs (dummy_field_name E) msg = false.

End StatedOfWrapping.

Section JsonText.
Import Json.

(** Space, tab, line feed and carriage return only. *)
Fixpoint blank (s : string) : bool :=
  match s with
  | EmptyString => true
  | String c s' => is_ws c && blank s'
  end.

(** No white space in [p]. *)
Fixpoint no_ws (p : string) : bool :=
  match p with
  | EmptyString => true
  | String c p' => negb (is_ws c) && no_ws p'
  end.

(** [s'] is [s] followed by white space. *)
Definition padded (s s' : string) : Prop :=
  exists w, blank w = true /\ s' = (s ++ w)%string.

(** A character of [' '..'~']. *)
Definition printable (c : ascii) : bool :=
  (32 <=? nat_of_ascii c)%nat && (nat_of_ascii c <=? 126)%nat.

(** The members of an object under construction: string keys, values of
    the round trip. *)
Definition plain_members (d : list (value * value)) : bool :=
  forallb (fun kv => is_str (fst kv) && json_plain (snd kv)) d.

Fixpoint all_printable (s : string) : bool :=
  match s with
  | EmptyString => true
  | String c s' => printable c && all_printable s'
  end.

End JsonText.

(* ===================================================================== *)
(** * Proofs *)
(* ===================================================================== *)

(** ** [json]: decoding inverts encoding *)

Import Json.
Local Open Scope string_scope.

Lemma append_assoc (a b c : string) : (a ++ b) ++ c = a ++ (b ++ c).
Proof. induction a as [|x a IH]; simpl; [reflexivity | now rewrite IH]. Qed.

Lemma append_nil_r (a : string) : a ++ "" = a.
Proof. induction a as [|x a IH]; simpl; [reflexivity | now rewrite IH]. Qed.

Lemma length_append (a b : string) :
  String.length (a ++ b) = String.length a + String.length b.
Proof. induction a as [|x a IH]; simpl; [reflexivity | now rewrite IH]. Qed.

Lemma scan_escape_char (c : ascii) (r : string) :
  scan_string (escape_char c ++ r) = cons_char c (scan_string r).
Proof.
  destruct c as [[] [] [] [] [] [] [] []]; reflexivity.
Qed.

Lemma scan_escape (s rest : string) :
  scan_string (escape s ++ String dq rest) = Ok (s, rest).
Proof.
  induction s as [|c s IH]; simpl.
  - reflexivity.
  - rewrite append_assoc, scan_escape_char, IH. reflexivity.
Qed.
Lemma span_digits_uint (d : Decimal.uint) (rest : string) :
  head_digit rest = false ->
  span_digits (NilEmpty.string_of_uint d ++ rest)
  = (NilEmpty.string_of_uint d, rest).
Proof.
  intros Hr.
  induction d; simpl; try (rewrite IHd; reflexivity).
  destruct rest as [|c r]; simpl in *; [reflexivity | now rewrite Hr].
Qed.

Lemma unorm_to_uint (p : positive) :
  Decimal.unorm (Pos.to_uint p) = Pos.to_uint p.
Proof.
  pose proof (Unsigned.to_of (Pos.to_uint p)) as H.
  rewrite Unsigned.of_to in H. simpl in H. symmetry. exact H.
Qed.

Lemma to_uint_head (p : positive) :
  exists c r,
    NilEmpty.string_of_uint (Pos.to_uint p) = String c r /\
    is_digit c = true /\ Ascii.eqb c "0" = false /\ Ascii.eqb c "-" = false.
Proof.
  pose proof (unorm_to_uint p) as Hn.
  pose proof (Unsigned.to_uint_nonnil p) as Hnil.
  pose proof (Unsigned.to_uint_nonzero p) as Hz.
  destruct (Pos.to_uint p) as [|u|u|u|u|u|u|u|u|u|u] eqn:E;
    try (cbn; eexists _, _; repeat split; reflexivity).
  - congruence.
  - exfalso. rewrite unorm_D0 in Hn.
    destruct u as [|u|u|u|u|u|u|u|u|u|u]; try congruence;
    match type of Hn with
    | Decimal.unorm ?x = _ =>
        assert (Hx : x <> Decimal.Nil) by discriminate;
        pose proof (nb_digits_unorm x Hx) as Hl; rewrite Hn in Hl; simpl in Hl; lia
    end.
Qed.

Lemma string_of_uint_nonnil (d : Decimal.uint) :
  d <> Decimal.Nil -> NilZero.string_of_uint d = NilEmpty.string_of_uint d.
Proof. destruct d; try reflexivity. congruence. Qed.

Lemma digits_pos (p : positive) :
  digits (Z.pos p) = String.length (NilEmpty.string_of_uint (Pos.to_uint p)).
Proof.
  unfold digits, decimal. simpl Z.abs. simpl Z.to_int.
  unfold NilZero.string_of_int.
  now rewrite string_of_uint_nonnil by apply Unsigned.to_uint_nonnil.
Qed.

Lemma digits_neg (p : positive) : digits (Z.neg p) = digits (Z.pos p).
Proof. reflexivity. Qed.

Lemma scan_natural_pos (p : positive) (rest : string) :
  (Z.of_nat (digits (Z.pos p)) <= max_str_digits)%Z ->
  delimited rest ->
  scan_natural (NilEmpty.string_of_uint (Pos.to_uint p) ++ rest)
  = Ok (Z.pos p, rest).
Proof.
  intros Hl [Hd Hf]. rewrite digits_pos in Hl.
  destruct (to_uint_head p) as (c & r & E & Hc & H0 & Hm).
  unfold scan_natural.
  rewrite (span_digits_uint _ _ Hd). cbn [fst snd].
  assert (H1 : head_is "0" (NilEmpty.string_of_uint (Pos.to_uint p) ++ rest) = false)
    by (rewrite E; cbn; exact H0).
  assert (H2 : NilZero.uint_of_string (NilEmpty.string_of_uint (Pos.to_uint p))
               = Some (Pos.to_uint p)).
  { rewrite <- string_of_uint_nonnil by apply Unsigned.to_uint_nonnil.
    apply NilZero.usu, Unsigned.to_uint_nonnil. }
  rewrite H1, H2, Hf.
  replace (max_str_digits
           <? Z.of_nat (String.length
                          (NilEmpty.string_of_uint (Pos.to_uint p))))%Z
    with false by (symmetry; apply Z.ltb_ge; exact Hl).
  rewrite E.
  pose proof (DecimalZ.of_to (Z.pos p)) as Hz. simpl in Hz. rewrite Hz.
  reflexivity.
Qed.

Lemma scan_number_int (z : Z) (rest : string) :
  (Z.of_nat (digits z) <= max_str_digits)%Z ->
  delimited rest ->
  scan_number (decimal z ++ rest) = Ok (z, rest).
Proof.
  intros Hl Hr. unfold decimal, scan_number.
  destruct z as [|p|p]; simpl Z.to_int; unfold NilZero.string_of_int.
  - destruct Hr as [Hd Hf]. cbn. unfold scan_natural. cbn. rewrite Hf. reflexivity.
  - rewrite string_of_uint_nonnil by apply Unsigned.to_uint_nonnil.
    destruct (to_uint_head p) as (c & r & E & Hc & H0 & Hm).
    replace (head_is "-" (NilEmpty.string_of_uint (Pos.to_uint p) ++ rest)) with false
      by (rewrite E; cbn; now rewrite Hm).
    now apply scan_natural_pos.
  - rewrite string_of_uint_nonnil by apply Unsigned.to_uint_nonnil.
    cbn [append head_is tail]. rewrite Ascii.eqb_refl.
    rewrite scan_natural_pos by assumption. reflexivity.
Qed.

Lemma jbind_ok {A B} (m : res A) (k : A -> res B) (b : B) :
  rbind m k = Ok b -> exists a, m = Ok a /\ k a = Ok b.
Proof. destruct m; simpl; intros H; try discriminate. eauto. Qed.

Lemma starts_value_app (s X : string) :
  starts_value s = true ->
  skip_ws (s ++ X) = s ++ X /\ head_is "]" (s ++ X) = false.
Proof.
  destruct s as [|c s]; simpl; [discriminate|].
  intros H. apply andb_prop in H as [H1 H2].
  apply negb_true_iff in H1, H2. rewrite H1, H2. split; reflexivity.
Qed.

Lemma parse_value_digit (c : ascii) (r : string) (f : nat) :
  is_digit c = true ->
  parse_value (S f) (String c r)
  = rbind (scan_number (String c r)) (fun p => Ok (VInt (fst p), snd p)).
Proof.
  destruct c as [[] [] [] [] [] [] [] []]; intros H;
    try discriminate H; reflexivity.
Qed.

Lemma parse_value_minus (c : ascii) (r : string) (f : nat) :
  is_digit c = true ->
  parse_value (S f) (String "-" (String c r))
  = rbind (scan_number (String "-" (String c r)))
          (fun p => Ok (VInt (fst p), snd p)).
Proof.
  destruct c as [[] [] [] [] [] [] [] []]; intros H;
    try discriminate H; reflexivity.
Qed.

Lemma digit_starts_value (c : ascii) (r : string) :
  is_digit c = true -> starts_value (String c r) = true.
Proof.
  destruct c as [[] [] [] [] [] [] [] []]; intros H;
    try discriminate H; reflexivity.
Qed.

Lemma decimal_shape (z : Z) :
  exists c r, is_digit c = true /\
    (decimal z = String c r \/ decimal z = String "-" (String c r)).
Proof.
  unfold decimal. destruct z as [|p|p]; simpl Z.to_int;
    unfold NilZero.string_of_int.
  - exists "0"%char, "". split; [reflexivity | left; reflexivity].
  - rewrite string_of_uint_nonnil by apply Unsigned.to_uint_nonnil.
    destruct (to_uint_head p) as (c & r & E & Hc & _).
    exists c, r. split; [exact Hc | left; exact E].
  - rewrite string_of_uint_nonnil by apply Unsigned.to_uint_nonnil.
    destruct (to_uint_head p) as (c & r & E & Hc & _).
    exists c, r. split; [exact Hc | right; now rewrite E].
Qed.

Lemma parse_value_int (z : Z) (f : nat) (rest : string) :
  (Z.of_nat (digits z) <= max_str_digits)%Z ->
  delimited rest ->
  parse_value (S f) (decimal z ++ rest) = Ok (VInt z, rest).
Proof.
  intros Hl Hr.
  pose proof (scan_number_int z rest Hl Hr) as Hs.
  destruct (decimal_shape z) as (c & r & Hc & [E | E]);
    rewrite E in *; cbn [append] in *.
  - rewrite parse_value_digit by exact Hc. rewrite Hs. reflexivity.
  - rewrite parse_value_minus by exact Hc. rewrite Hs. reflexivity.
Qed.

Lemma int_starts_value (z : Z) : starts_value (decimal z) = true.
Proof.
  destruct (decimal_shape z) as (c & r & Hc & [E | E]); rewrite E.
  - now apply digit_starts_value.
  - reflexivity.
Qed.

Lemma decimal_length (z : Z) : 1 <= String.length (decimal z).
Proof.
  destruct (decimal_shape z) as (c & r & Hc & [E | E]); rewrite E; simpl; lia.
Qed.

Lemma delimited_cases (c : ascii) (r : string) :
  (c = "," \/ c = "]" \/ c = "}")%char -> delimited (String c r).
Proof.
  intros [-> | [-> | ->]]; split; try reflexivity; destruct r; reflexivity.
Qed.

Lemma delimited_nil : delimited "".
Proof. split; reflexivity. Qed.


Lemma str_of_int_fits (z : Z) :
  (Z.of_nat (digits z) <= max_str_digits)%Z -> str_of_int z = Ok (decimal z).
Proof.
  intros H. unfold str_of_int.
  now replace (max_str_digits <? Z.of_nat (digits z))%Z with false
    by (symmetry; apply Z.ltb_ge; exact H).
Qed.

Lemma str_of_int_ok (z : Z) (t : string) :
  str_of_int z = Ok t ->
  t = decimal z /\ (Z.of_nat (digits z) <= max_str_digits)%Z.
Proof.
  unfold str_of_int.
  destruct (max_str_digits <? Z.of_nat (digits z))%Z eqn:E; [discriminate|].
  intros H. injection H as <-. split; [reflexivity|]. now apply Z.ltb_ge.
Qed.

Lemma rt_array (l : list value) :
  Forall rt l -> forallb json_plain l = true -> forallb ints_fit l = true ->
  exists parts,
    rsequence (map dumps l) = Ok parts /\
    (l <> [] ->
     starts_value (String.concat ", " parts) = true /\
     forall fuel acc rest,
       String.length (String.concat ", " parts) + 1 <= fuel ->
       parse_array fuel (String.concat ", " parts ++ String "]" rest) acc
       = Ok (VList (acc ++ l)%list, rest)).
Proof.
  induction 1 as [|x l Hx Hl IH]; intros Hp Hfit.
  - exists []. split; [reflexivity | congruence].
  - simpl in Hp. apply andb_prop in Hp as [Hpx Hpl].
    simpl in Hfit. apply andb_prop in Hfit as [Hfx Hfl].
    destruct (Hx Hpx Hfx) as (a & Ha & Hsa & Hpa).
    destruct (IH Hpl Hfl) as (b & Hb & Hrest).
    exists (a :: b). split.
    { simpl. rewrite Ha. simpl. rewrite Hb. reflexivity. }
    intros _. destruct l as [|y l].
    + simpl in Hb. injection Hb as <-. simpl. split; [exact Hsa|].
      intros fuel acc rest Hf. destruct fuel as [|f]; [lia|].
      simpl parse_array. rewrite Hpa by (try lia; apply delimited_cases; auto).
      reflexivity.
    + destruct Hrest as [Hsb Hpb]; [discriminate|].
      destruct b as [|b0 b].
      { exfalso. simpl in Hb.
        destruct (dumps y); simpl in Hb; try discriminate;
          destruct (rsequence (map dumps l)); simpl in Hb; discriminate. }
      change (String.concat ", " (a :: b0 :: b))
        with (a ++ ", " ++ String.concat ", " (b0 :: b)).
      remember (String.concat ", " (b0 :: b)) as J eqn:EJ.
      split.
      { destruct a; [discriminate Hsa | exact Hsa]. }
      intros fuel acc rest Hf. rewrite !length_append in Hf. simpl in Hf.
      destruct fuel as [|f]; [lia|].
      simpl parse_array. rewrite !append_assoc.
      rewrite Hpa by (try lia; apply delimited_cases; auto).
      simpl.
      destruct (starts_value_app J (String "]" rest) Hsb) as [-> _].
      rewrite Hpb by lia. rewrite <- List.app_assoc. reflexivity.
Qed.

Lemma obj_set_fresh (acc : list (value * value)) (k : string) (v : value) :
  has_key acc k = false -> obj_set acc k v = (acc ++ [(VStr k, v)])%list.
Proof.
  induction acc as [|[k0 v0] acc IH]; simpl; intros H; [reflexivity|].
  apply orb_false_iff in H as [H1 H2].
  destruct k0; simpl in *; try (now rewrite IH).
  rewrite H1. now rewrite IH.
Qed.

Lemma has_key_snoc (acc : list (value * value)) (k k' : string) (v : value) :
  has_key (acc ++ [(VStr k, v)]) k' = has_key acc k' || String.eqb k k'.
Proof.
  unfold has_key. rewrite existsb_app. simpl. now rewrite orb_false_r.
Qed.


Lemma rt_object (d : list (value * value)) :
  Forall (fun kv => rt (fst kv) /\ rt (snd kv)) d ->
  forallb (fun kv => is_str (fst kv) && json_plain (snd kv)) d = true ->
  forallb (fun kv => ints_fit (fst kv) && ints_fit (snd kv)) d = true ->
  exists parts,
    rsequence (map member d) = Ok parts /\
    (d <> [] ->
     head_is dq (String.concat ", " parts) = true /\
     forall fuel acc rest,
       String.length (String.concat ", " parts) + 1 <= fuel ->
       (forall k, In k (keys_of d) -> has_key acc k = false) ->
       distinct (keys_of d) = true ->
       parse_object fuel (String.concat ", " parts ++ String "}" rest) acc
       = Ok (VDict (acc ++ d)%list, rest)).
Proof.
  induction 1 as [|[k x] d [_ Hx] Hd IH]; intros Hp Hfit.
  - exists []. split; [reflexivity | congruence].
  - simpl in Hp. apply andb_prop in Hp as [Hpx Hpd].
    apply andb_prop in Hpx as [Hk Hpx].
    simpl in Hfit. apply andb_prop in Hfit as [Hfx Hfd].
    apply andb_prop in Hfx as [_ Hfx].
    destruct k as [| | |k| | | |]; try discriminate Hk. clear Hk.
    simpl in Hx, Hpx.
    destruct (Hx Hpx Hfx) as (b & Hb & Hsb & Hpb).
    destruct (IH Hpd Hfd) as (ps & Hps & Hrest).
    remember (encode_string k ++ ": " ++ b) as m eqn:Em.
    exists (m :: ps). split.
    { simpl. unfold member at 1. simpl. rewrite Hb. simpl. rewrite Hps.
      rewrite Em. reflexivity. }
    intros _.
    assert (Hscan : forall X,
      scan_string (tail (m ++ X)) = Ok (k, String ":" (String " " (b ++ X)))).
    { intros X. rewrite Em. unfold encode_string. simpl tail.
      rewrite !append_assoc. simpl.
      change (String dq (String ":" (String " " (b ++ X))))
        with (String dq (String ":" (String " " (b ++ X)))).
      apply scan_escape. }
    assert (Hlen : String.length b + 4 <= String.length m).
    { rewrite Em. unfold encode_string. simpl. rewrite !length_append. simpl. lia. }
    assert (Hhd : forall X, head_is dq (m ++ X) = true).
    { intros X. rewrite Em. reflexivity. }
    destruct d as [|kv d].
    + simpl in Hps. injection Hps as <-.
      change (String.concat ", " [m]) with m.
      split; [rewrite <- (append_nil_r m); apply Hhd|].
      intros fuel acc rest Hf Hfresh _.
      destruct fuel as [|f]; [lia|].
      simpl parse_object.
      rewrite Hhd.
      rewrite Hscan. simpl.
      destruct (starts_value_app b (String "}" rest) Hsb) as [-> _].
      rewrite Hpb by (try lia; apply delimited_cases; auto). simpl.
      rewrite obj_set_fresh by (apply Hfresh; left; reflexivity).
      reflexivity.
    + destruct Hrest as [Hsp Hpp]; [discriminate|].
      destruct ps as [|p0 ps].
      { exfalso. simpl in Hps.
        destruct (member kv); simpl in Hps; try discriminate;
          destruct (rsequence (map member d)); simpl in Hps; discriminate. }
      change (String.concat ", " (m :: p0 :: ps))
        with (m ++ ", " ++ String.concat ", " (p0 :: ps)).
      remember (String.concat ", " (p0 :: ps)) as J eqn:EJ.
      split; [apply Hhd|].
      intros fuel acc rest Hf Hfresh Hdist.
      rewrite !length_append in Hf. simpl in Hf.
      destruct fuel as [|f]; [lia|].
      simpl parse_object. rewrite !append_assoc.
      rewrite Hhd.
      rewrite Hscan. simpl.
      destruct (starts_value_app b (String "," (String " " (J ++ String "}" rest))) Hsb)
        as [-> _].
      rewrite Hpb by (try lia; apply delimited_cases; auto). simpl.
      rewrite obj_set_fresh by (apply Hfresh; left; reflexivity).
      assert (HJ : skip_ws (J ++ String "}" rest) = J ++ String "}" rest).
      { destruct J as [|c J]; [discriminate Hsp|]. simpl in Hsp.
        apply Ascii.eqb_eq in Hsp. subst c. reflexivity. }
      rewrite HJ. simpl in Hdist. apply andb_prop in Hdist as [Hnk Hdist].
      rewrite Hpp; try lia; try exact Hdist.
      * rewrite <- List.app_assoc. reflexivity.
      * intros k2 Hin. rewrite has_key_snoc.
        rewrite Hfresh by (right; exact Hin). simpl.
        destruct (String.eqb_spec k k2) as [E|]; [|reflexivity].
        exfalso. subst k2. apply negb_true_iff in Hnk.
        assert (Ht : existsb (String.eqb k) (keys_of (kv :: d)) = true).
        { apply existsb_exists. exists k.
          split; [exact Hin | apply String.eqb_refl]. }
        simpl in Ht. congruence.
Qed.

Lemma value_roundtrip (v : value) : rt v.
Proof.
  induction v using value_ind'; intros Hp Hfit.
  - exists "null". repeat split. intros [|f] rest Hf Hr; [simpl in Hf; lia | reflexivity].
  - destruct b.
    + exists "true". repeat split. intros [|f] rest Hf Hr; [simpl in Hf; lia | reflexivity].
    + exists "false". repeat split. intros [|f] rest Hf Hr; [simpl in Hf; lia | reflexivity].
  - simpl in Hfit. apply Z.leb_le in Hfit.
    exists (decimal z). split; [now apply str_of_int_fits|].
    split; [apply int_starts_value|].
    intros [|f] rest Hf Hr.
    + pose proof (decimal_length z). lia.
    + now apply parse_value_int.
  - exists (encode_string s). repeat split.
    intros [|f] rest Hf Hr; [simpl in Hf; lia|].
    unfold encode_string. simpl parse_value.
    rewrite append_assoc. simpl. rewrite scan_escape. reflexivity.
  - simpl in Hp. simpl in Hfit.
    destruct (rt_array l H Hp Hfit) as (parts & Hparts & Hrest).
    exists ("[" ++ String.concat ", " parts ++ "]").
    split; [simpl; rewrite Hparts; reflexivity|]. split; [reflexivity|].
    intros [|f] rest Hf Hr; [simpl in Hf; lia|].
    destruct l as [|x l].
    + simpl in Hparts. injection Hparts as <-. reflexivity.
    + destruct Hrest as [Hs Hparse]; [discriminate|].
      simpl in Hf. rewrite length_append in Hf. simpl in Hf.
      simpl. rewrite append_assoc. simpl.
      destruct (starts_value_app (String.concat ", " parts) (String "]" rest) Hs)
        as [-> ->].
      rewrite Hparse by lia. reflexivity.
  - simpl in Hp. apply andb_prop in Hp as [Hp Hdist]. simpl in Hfit.
    destruct (rt_object d H Hp Hfit) as (parts & Hparts & Hrest).
    exists ("{" ++ String.concat ", " parts ++ "}").
    split.
    { change (dumps (VDict d))
        with (rbind (rsequence (map member d))
                (fun parts => Ok ("{" ++ String.concat ", " parts ++ "}"))).
      rewrite Hparts. reflexivity. }
    split; [reflexivity|].
    intros [|f] rest Hf Hr; [simpl in Hf; lia|].
    destruct d as [|kv d].
    + simpl in Hparts. injection Hparts as <-. reflexivity.
    + destruct Hrest as [Hs Hparse]; [discriminate|].
      simpl in Hf. rewrite length_append in Hf. simpl in Hf.
      simpl. rewrite append_assoc. simpl.
      assert (HJ : skip_ws (String.concat ", " parts ++ String "}" rest)
                   = String.concat ", " parts ++ String "}" rest
                   /\ head_is "}" (String.concat ", " parts ++ String "}" rest) = false).
      { destruct (String.concat ", " parts) as [|c J]; [discriminate Hs|].
        simpl in Hs. apply Ascii.eqb_eq in Hs. subst c. split; reflexivity. }
      destruct HJ as [-> ->].
      rewrite Hparse; try lia; try reflexivity; try exact Hdist.
  - discriminate Hp.
  - discriminate Hp.
Qed.

Theorem loads_dumps (v : value) :
  json_plain v = true -> ints_fit v = true ->
  exists s, dumps v = Ok s /\ loads s = Ok v.
Proof.
  intros Hp Hfit.
  destruct (value_roundtrip v Hp Hfit) as (s & Hs & Hstart & Hparse).
  exists s. split; [exact Hs|].
  unfold loads.
  destruct (starts_value_app s "" Hstart) as [Hws _].
  rewrite append_nil_r in Hws. rewrite Hws.
  pose proof (Hparse (S (2 * String.length s)) "" ltac:(lia) delimited_nil) as H.
  rewrite append_nil_r in H. rewrite H. reflexivity.
Qed.

Lemma skip_ws_length (s : string) :
  String.length (skip_ws s) <= String.length s.
Proof.
  induction s as [|c s IH]; simpl; [lia|].
  destruct (is_ws c); simpl; lia.
Qed.

Lemma tail_length (s : string) :
  String.length (tail s) <= String.length s.
Proof. destruct s; simpl; lia. Qed.

Lemma head_is_length (c : ascii) (s : string) :
  head_is c s = true -> String.length (tail s) < String.length s.
Proof. destruct s; simpl; [discriminate | lia]. Qed.

Lemma cons_char_progress (c : ascii) (r : res (string * string)) (s : string) :
  progress r s -> progress (cons_char c r) s.
Proof. destruct r as [[x rest] | |]; simpl; auto. Qed.

Lemma progress_weaken {A} (r : res (A * string)) (s s' : string) :
  progress r s -> String.length s <= String.length s' -> progress r s'.
Proof. destruct r as [[x rest] | |]; simpl; auto. lia. Qed.

Lemma scan_string_progress (s : string) :
  match scan_string s with
  | Ok (_, rest) => String.length rest < String.length s
  | Err _ => True
  | Outside why => why <> "fuel"
  end.
Proof.
  change (progress (scan_string s) s).
  remember (String.length s) as n eqn:En.
  revert s En. induction n as [n IH] using lt_wf_ind. intros s En.
  destruct s as [|c r]; simpl; [exact I|].
  assert (Hrec : forall r', String.length r' < n -> forall c',
            progress (cons_char c' (scan_string r')) (String c r)).
  { intros r' Hlt c'. apply cons_char_progress.
    eapply progress_weaken; [apply (IH _ Hlt r' eq_refl)|].
    simpl in En. simpl. lia. }
  simpl in En.
  destruct (Ascii.eqb c dq); [simpl; lia|].
  destruct (Ascii.eqb c backslash).
  - destruct r as [|e r']; [exact I|]. simpl in En.
    repeat match goal with
    | |- progress (if Ascii.eqb e ?x then _ else _) _ =>
        destruct (Ascii.eqb e x); [apply Hrec; lia|]
    end.
    destruct (Ascii.eqb e "u"); [|exact I].
    destruct r' as [|h1 [|h2 [|h3 [|h4 r'']]]]; try exact I.
    destruct (hex4 h1 h2 h3 h4); [|exact I].
    destruct (_ <? 256)%nat; [|simpl; discriminate].
    apply Hrec. simpl in En. lia.
  - destruct (_ <? 32)%nat; [exact I|]. apply Hrec. lia.
Qed.

Lemma span_digits_length (s : string) :
  String.length (fst (span_digits s)) + String.length (snd (span_digits s))
  = String.length s.
Proof.
  induction s as [|c s IH]; simpl; [reflexivity|].
  destruct (is_digit c); simpl; [|reflexivity].
  destruct (span_digits s); simpl in *. lia.
Qed.

Lemma scan_natural_progress (s : string) : progress (scan_natural s) s.
Proof.
  unfold scan_natural.
  destruct (head_is "0" s) eqn:H0.
  - destruct (starts_float (tail s)); simpl; [discriminate|].
    now apply head_is_length in H0.
  - pose proof (span_digits_length s) as Hl.
    destruct (fst (span_digits s)) as [|d ds] eqn:Ef; [exact I|].
    destruct (NilZero.uint_of_string (String d ds)); [|exact I].
    destruct (starts_float (snd (span_digits s))); [simpl; discriminate|].
    destruct (max_str_digits <? _)%Z; [exact I|].
    simpl in Hl |- *. lia.
Qed.

Lemma scan_number_progress (s : string) : progress (scan_number s) s.
Proof.
  unfold scan_number. destruct (head_is "-" s) eqn:Hm.
  - pose proof (scan_natural_progress (tail s)) as Hp.
    apply head_is_length in Hm.
    destruct (scan_natural (tail s)) as [[z rest] | |]; simpl in *; auto. lia.
  - apply scan_natural_progress.
Qed.

Lemma startswith_drop (p s : string) :
  PyStr.startswith p s = true -> p <> "" ->
  String.length (drop (String.length p) s) < String.length s.
Proof.
  revert s. induction p as [|a p IH]; intros s H Hn; [congruence|].
  destruct s as [|b s]; simpl in H; [discriminate|].
  apply andb_prop in H as [_ H]. simpl.
  destruct p as [|a' p].
  - simpl. lia.
  - specialize (IH s H ltac:(discriminate)). simpl in *. lia.
Qed.

Lemma rbind_progress {A B} (m : res (A * string)) (k : A * string -> res (B * string))
    (s : string) :
  progress m s ->
  (forall a rest, m = Ok (a, rest) -> progress (k (a, rest)) s) ->
  progress (rbind m k) s.
Proof.
  destruct m as [[a rest] | |]; simpl; auto.
Qed.

Lemma parse_value_S (f : nat) (s : string) :
  parse_value (S f) s
  = if head_is dq s then
      rbind (scan_string (tail s)) (fun p => Ok (VStr (fst p), snd p))
    else if head_is "{" s then
      let r := skip_ws (tail s) in
      if head_is "}" r then Ok (VDict [], tail r)
      else parse_object f r []
    else if head_is "[" s then
      let r := skip_ws (tail s) in
      if head_is "]" r then Ok (VList [], tail r)
      else parse_array f r []
    else if PyStr.startswith "null" s then Ok (VNone, drop 4 s)
    else if PyStr.startswith "true" s then Ok (VBool true, drop 4 s)
    else if PyStr.startswith "false" s then Ok (VBool false, drop 5 s)
    else if PyStr.startswith "NaN" s then Outside "float"
    else if PyStr.startswith "Infinity" s then Outside "float"
    else if PyStr.startswith "-Infinity" s then Outside "float"
    else rbind (scan_number s) (fun p => Ok (VInt (fst p), snd p)).
Proof. reflexivity. Qed.

Lemma parse_array_S (f : nat) (s : string) (acc : list value) :
  parse_array (S f) s acc
  = rbind (parse_value f s) (fun p =>
      let r := skip_ws (snd p) in
      if head_is "]" r then Ok (VList (acc ++ [fst p])%list, tail r)
      else if head_is "," r
      then parse_array f (skip_ws (tail r)) (acc ++ [fst p])%list
      else Err "Expecting ',' delimiter").
Proof. reflexivity. Qed.

Lemma parse_object_S (f : nat) (s : string) (acc : list (value * value)) :
  parse_object (S f) s acc
  = if head_is dq s then
      rbind (scan_string (tail s)) (fun k =>
        let r1 := skip_ws (snd k) in
        if head_is ":" r1 then
          rbind (parse_value f (skip_ws (tail r1))) (fun p =>
            let r2 := skip_ws (snd p) in
            if head_is "}" r2
            then Ok (VDict (obj_set acc (fst k) (fst p)), tail r2)
            else if head_is "," r2
            then parse_object f (skip_ws (tail r2))
                              (obj_set acc (fst k) (fst p))
            else Err "Expecting ',' delimiter")
        else Err "Expecting ':' delimiter")
    else Err "Expecting property name enclosed in double quotes".
Proof. reflexivity. Qed.

Lemma parse_progress (fuel : nat) :
  (forall s, 2 * String.length s + 1 <= fuel ->
             progress (parse_value fuel s) s) /\
  (forall s acc, 2 * String.length s + 2 <= fuel ->
                 progress (parse_array fuel s acc) s) /\
  (forall s acc, 2 * String.length s + 2 <= fuel ->
                 progress (parse_object fuel s acc) s).
Proof.
  induction fuel as [|f (IHv & IHa & IHo)].
  - repeat split; intros; lia.
  - split; [|split].
    + intros s Hf. rewrite parse_value_S.
      destruct (head_is dq s) eqn:Hq.
      { apply head_is_length in Hq.
        pose proof (scan_string_progress (tail s)) as Hp.
        destruct (scan_string (tail s)) as [[x rest] | |]; simpl in *; auto. lia. }
      destruct (head_is "{" s) eqn:Hb.
      { apply head_is_length in Hb.
        pose proof (skip_ws_length (tail s)) as Hw. cbv zeta.
        destruct (head_is "}" (skip_ws (tail s))) eqn:Hc.
        - apply head_is_length in Hc. simpl. lia.
        - eapply progress_weaken; [apply IHo; lia | lia]. }
      destruct (head_is "[" s) eqn:Ha.
      { apply head_is_length in Ha.
        pose proof (skip_ws_length (tail s)) as Hw. cbv zeta.
        destruct (head_is "]" (skip_ws (tail s))) eqn:Hc.
        - apply head_is_length in Hc. simpl. lia.
        - eapply progress_weaken; [apply IHa; lia | lia]. }
      destruct (PyStr.startswith "null" s) eqn:Hn.
      { apply (startswith_drop "null" s Hn). discriminate. }
      destruct (PyStr.startswith "true" s) eqn:Ht.
      { apply (startswith_drop "true" s Ht). discriminate. }
      destruct (PyStr.startswith "false" s) eqn:Hfa.
      { apply (startswith_drop "false" s Hfa). discriminate. }
      destruct (PyStr.startswith "NaN" s); [discriminate|].
      destruct (PyStr.startswith "Infinity" s); [discriminate|].
      destruct (PyStr.startswith "-Infinity" s); [discriminate|].
      pose proof (scan_number_progress s) as Hp.
      destruct (scan_number s) as [[z rest] | |]; simpl in *; auto.
    + intros s acc Hf. rewrite parse_array_S.
      apply rbind_progress; [apply IHv; lia|].
      intros v rest Hv.
      pose proof (IHv s ltac:(lia)) as Hp. rewrite Hv in Hp. simpl in Hp.
      cbv zeta. cbn [fst snd].
      pose proof (skip_ws_length rest) as Hw.
      destruct (head_is "]" (skip_ws rest)) eqn:Hc.
      { pose proof (tail_length (skip_ws rest)). simpl. lia. }
      destruct (head_is "," (skip_ws rest)) eqn:Hk; [|exact I].
      apply head_is_length in Hk.
      pose proof (skip_ws_length (tail (skip_ws rest))) as Hw'.
      eapply progress_weaken; [apply IHa; lia | lia].
    + intros s acc Hf. rewrite parse_object_S.
      destruct (head_is dq s) eqn:Hq; [|exact I].
      apply head_is_length in Hq.
      pose proof (scan_string_progress (tail s)) as Hp.
      destruct (scan_string (tail s)) as [[k r0] | |]; simpl in *; auto.
      pose proof (skip_ws_length r0) as Hw.
      destruct (head_is ":" (skip_ws r0)) eqn:Hc; [|exact I].
      apply head_is_length in Hc.
      pose proof (skip_ws_length (tail (skip_ws r0))) as Hw1.
      apply rbind_progress.
      { eapply progress_weaken; [apply IHv; lia | lia]. }
      intros v rest Hv.
      pose proof (IHv (skip_ws (tail (skip_ws r0))) ltac:(lia)) as Hpv.
      rewrite Hv in Hpv. simpl in Hpv. cbn [fst snd].
      pose proof (skip_ws_length rest) as Hw2.
      destruct (head_is "}" (skip_ws rest)) eqn:Hc2.
      { pose proof (tail_length (skip_ws rest)). simpl. lia. }
      destruct (head_is "," (skip_ws rest)) eqn:Hk; [|exact I].
      apply head_is_length in Hk.
      pose proof (skip_ws_length (tail (skip_ws rest))) as Hw3.
      eapply progress_weaken; [apply IHo; lia | lia].
Qed.

(** [loads] never stops for lack of fuel. *)
Lemma loads_has_fuel (s : string) (why : string) :
  loads s = Outside why -> why <> "fuel".
Proof.
  unfold loads. intros H.
  pose proof (skip_ws_length s) as Hw.
  pose proof (proj1 (parse_progress (S (2 * String.length s)))
                (skip_ws s) ltac:(lia)) as Hp.
  destruct (parse_value (S (2 * String.length s)) (skip_ws s))
    as [[v rest] | |]; simpl in *.
  - destruct (skip_ws rest); discriminate.
  - discriminate.
  - injection H as <-. exact Hp.
Qed.

(** ** What [json.loads] returns *)

Lemma existsb_snoc (k : string) (l : list string) (x : string) :
  existsb (String.eqb k) (l ++ [x]) = existsb (String.eqb k) l || String.eqb k x.
Proof. rewrite existsb_app. simpl. now rewrite orb_false_r. Qed.

Lemma distinct_snoc (l : list string) (x : string) :
  distinct (l ++ [x]) = distinct l && negb (existsb (String.eqb x) l).
Proof.
  induction l as [|y l IH]; simpl; [reflexivity|].
  rewrite existsb_snoc, IH, negb_orb, (String.eqb_sym x y).
  destruct (existsb (String.eqb y) l), (distinct l), (String.eqb y x),
    (existsb (String.eqb x) l); reflexivity.
Qed.

Lemma has_key_keys (d : list (value * value)) (k : string) :
  forallb (fun kv => is_str (fst kv)) d = true ->
  has_key d k = existsb (String.eqb k) (keys_of d).
Proof.
  induction d as [|[k0 v0] d IH]; simpl; [reflexivity|].
  intros H. apply andb_prop in H as [Hs Hd].
  destruct k0; try discriminate Hs. simpl.
  now rewrite IH, (String.eqb_sym s k).
Qed.

Lemma obj_set_present (d : list (value * value)) (k : string) (v : value) :
  forallb (fun kv => is_str (fst kv)) d = true ->
  has_key d k = true ->
  keys_of (obj_set d k v) = keys_of d /\
  forallb (fun kv => is_str (fst kv)) (obj_set d k v) = true.
Proof.
  induction d as [|[k0 v0] d IH]; simpl; [discriminate|].
  intros H Hk. apply andb_prop in H as [Hs Hd].
  destruct k0; try discriminate Hs. simpl in Hk.
  destruct (String.eqb s k) eqn:E; simpl.
  - now rewrite Hd.
  - destruct (IH Hd Hk) as [I1 I2]. now rewrite I1, I2.
Qed.

Lemma plain_members_str (d : list (value * value)) :
  plain_members d = true -> forallb (fun kv => is_str (fst kv)) d = true.
Proof.
  unfold plain_members. induction d as [|kv d IH]; simpl; [reflexivity|].
  intros H. apply andb_prop in H as [H1 H2]. apply andb_prop in H1 as [H1 _].
  now rewrite H1, IH.
Qed.

Lemma obj_set_members (d : list (value * value)) (k : string) (v : value) :
  plain_members d = true -> json_plain v = true ->
  plain_members (obj_set d k v) = true.
Proof.
  unfold plain_members.
  induction d as [|[k0 v0] d IH]; simpl; intros H Hv.
  - now rewrite Hv.
  - apply andb_prop in H as [H1 H2]. apply andb_prop in H1 as [Hs Hp].
    destruct k0; try discriminate Hs.
    destruct (String.eqb s k); simpl.
    + now rewrite Hv, H2.
    + now rewrite Hp, IH.
Qed.

Lemma obj_set_plain (d : list (value * value)) (k : string) (v : value) :
  json_plain (VDict d) = true -> json_plain v = true ->
  json_plain (VDict (obj_set d k v)) = true.
Proof.
  cbn [json_plain]. fold (plain_members d).
  fold (plain_members (obj_set d k v)). fold (keys_of d).
  fold (keys_of (obj_set d k v)).
  intros H Hv. apply andb_prop in H as [Hm Hd].
  rewrite (obj_set_members d k v Hm Hv). cbn [andb].
  pose proof (plain_members_str d Hm) as Hs.
  destruct (has_key d k) eqn:Hk.
  - now rewrite (proj1 (obj_set_present d k v Hs Hk)).
  - rewrite (obj_set_fresh d k v Hk). unfold keys_of. rewrite map_app.
    cbn [map fst key_text]. rewrite distinct_snoc.
    fold (keys_of d). rewrite Hd. cbn [andb].
    now rewrite <- (has_key_keys d k Hs), Hk.
Qed.

Lemma forallb_snoc {A} (p : A -> bool) (l : list A) (x : A) :
  forallb p l = true -> p x = true -> forallb p (l ++ [x]) = true.
Proof. intros Hl Hx. rewrite forallb_app, Hl. simpl. now rewrite Hx. Qed.

Lemma parse_plain (fuel : nat) :
  (forall s v r, parse_value fuel s = Ok (v, r) -> json_plain v = true) /\
  (forall s acc v r,
     parse_array fuel s acc = Ok (v, r) ->
     forallb json_plain acc = true -> json_plain v = true) /\
  (forall s acc v r,
     parse_object fuel s acc = Ok (v, r) ->
     json_plain (VDict acc) = true -> json_plain v = true).
Proof.
  induction fuel as [|f (IHv & IHa & IHo)].
  - repeat split; intros; discriminate.
  - split; [|split].
    + intros s v r. rewrite parse_value_S.
      destruct (head_is dq s).
      { intros H. apply jbind_ok in H as (p & _ & H).
        now injection H as <- _. }
      destruct (head_is "{" s).
      { cbv zeta. destruct (head_is "}" _).
        - intros H. now injection H as <- _.
        - intros H. now apply (IHo _ _ _ _ H). }
      destruct (head_is "[" s).
      { cbv zeta. destruct (head_is "]" _).
        - intros H. now injection H as <- _.
        - intros H. now apply (IHa _ _ _ _ H). }
      destruct (PyStr.startswith "null" s).
      { intros H. now injection H as <- _. }
      destruct (PyStr.startswith "true" s).
      { intros H. now injection H as <- _. }
      destruct (PyStr.startswith "false" s).
      { intros H. now injection H as <- _. }
      destruct (PyStr.startswith "NaN" s); [discriminate|].
      destruct (PyStr.startswith "Infinity" s); [discriminate|].
      destruct (PyStr.startswith "-Infinity" s); [discriminate|].
      intros H. apply jbind_ok in H as (p & _ & H).
      now injection H as <- _.
    + intros s acc v r. rewrite parse_array_S. intros H Hacc.
      apply jbind_ok in H as ([x rest] & Hx & H). cbv zeta in H.
      cbn [fst snd] in H.
      pose proof (IHv _ _ _ Hx) as Hpx.
      pose proof (forallb_snoc json_plain acc x Hacc Hpx) as Hacc'.
      destruct (head_is "]" _).
      { injection H as <- _. exact Hacc'. }
      destruct (head_is "," _); [|discriminate].
      now apply (IHa _ _ _ _ H).
    + intros s acc v r. rewrite parse_object_S. intros H Hacc.
      destruct (head_is dq s); [|discriminate].
      apply jbind_ok in H as ([k rest] & _ & H). cbv zeta in H.
      cbn [fst snd] in H.
      destruct (head_is ":" _); [|discriminate].
      apply jbind_ok in H as ([x rest'] & Hx & H). cbn [fst snd] in H.
      pose proof (IHv _ _ _ Hx) as Hpx.
      pose proof (obj_set_plain acc k x Hacc Hpx) as Hacc'.
      destruct (head_is "}" _).
      { injection H as <- _. exact Hacc'. }
      destruct (head_is "," _); [|discriminate].
      now apply (IHo _ _ _ _ H).
Qed.

(** Decoded integers are within the limit of [int(...)]. *)

Lemma uint_of_string_digits (s : string) (u : Decimal.uint) :
  NilEmpty.uint_of_string s = Some u -> Decimal.nb_digits u = String.length s.
Proof.
  revert u. induction s as [|a s IH]; intros u H.
  - injection H as <-. reflexivity.
  - cbn [NilEmpty.uint_of_string] in H.
    destruct (NilEmpty.uint_of_string s) as [u0|] eqn:E.
    + specialize (IH u0 eq_refl).
      destruct a as [[] [] [] [] [] [] [] []]; cbn in H;
        try discriminate H; injection H as <-; cbn; now rewrite IH.
    + destruct a as [[] [] [] [] [] [] [] []]; cbn in H; discriminate H.
Qed.

Lemma string_of_uint_length (u : Decimal.uint) :
  String.length (NilEmpty.string_of_uint u) = Decimal.nb_digits u.
Proof. induction u; simpl; auto. Qed.

Lemma digits_of_uint (u : Decimal.uint) :
  u <> Decimal.Nil -> digits (Z.of_uint u) <= Decimal.nb_digits u.
Proof.
  intros Hu. unfold Z.of_uint. change (Pos.of_uint u) with (N.of_uint u).
  pose proof (DecimalN.Unsigned.to_of u) as Hto.
  destruct (N.of_uint u) as [|p] eqn:E.
  - change (digits (Z.of_N 0)) with 1.
    destruct u; cbn [Decimal.nb_digits]; try lia. congruence.
  - cbn [Z.of_N]. rewrite digits_pos.
    change (Pos.to_uint p) with (N.to_uint (N.pos p)). rewrite Hto.
    rewrite string_of_uint_length.
    now apply nb_digits_unorm.
Qed.

Lemma scan_natural_fits (s : string) (z : Z) (r : string) :
  scan_natural s = Ok (z, r) -> (Z.of_nat (digits z) <= max_str_digits)%Z.
Proof.
  unfold scan_natural. destruct (head_is "0" s).
  - destruct (starts_float (tail s)); [discriminate|].
    intros H. injection H as <- _. cbn. discriminate.
  - destruct (fst (span_digits s)) as [|c ds] eqn:Ef; [discriminate|].
    destruct (NilZero.uint_of_string (String c ds)) as [u|] eqn:Eu;
      [|discriminate].
    destruct (starts_float (snd (span_digits s))); [discriminate|].
    destruct (max_str_digits <? _)%Z eqn:El; [discriminate|].
    intros H. injection H as <- _. apply Z.ltb_ge in El.
    unfold NilZero.uint_of_string in Eu.
    pose proof (uint_of_string_digits _ _ Eu) as Hn.
    assert (Hu : u <> Decimal.Nil).
    { intros ->. simpl in Hn. discriminate Hn. }
    pose proof (digits_of_uint u Hu). lia.
Qed.

Lemma scan_number_fits (s : string) (z : Z) (r : string) :
  scan_number s = Ok (z, r) -> (Z.of_nat (digits z) <= max_str_digits)%Z.
Proof.
  unfold scan_number. destruct (head_is "-" s).
  - intros H. apply jbind_ok in H as ([z0 r0] & H0 & H).
    injection H as <- _. cbn [fst].
    apply scan_natural_fits in H0.
    destruct z0 as [|p|p]; exact H0.
  - apply scan_natural_fits.
Qed.

Lemma obj_set_fits (d : list (value * value)) (k : string) (v : value) :
  ints_fit (VDict d) = true -> ints_fit v = true ->
  ints_fit (VDict (obj_set d k v)) = true.
Proof.
  cbn [ints_fit]. induction d as [|[k0 v0] d IH]; simpl; intros H Hv.
  - now rewrite Hv.
  - apply andb_prop in H as [H1 H2]. apply andb_prop in H1 as [Hk Hx].
    destruct k0; simpl in *;
      try (rewrite ?Hk, ?Hx; simpl; now apply IH).
    destruct (String.eqb s k); simpl.
    + now rewrite Hv, H2.
    + rewrite Hx. simpl. now apply IH.
Qed.

Lemma parse_fits (fuel : nat) :
  (forall s v r, parse_value fuel s = Ok (v, r) -> ints_fit v = true) /\
  (forall s acc v r,
     parse_array fuel s acc = Ok (v, r) ->
     forallb ints_fit acc = true -> ints_fit v = true) /\
  (forall s acc v r,
     parse_object fuel s acc = Ok (v, r) ->
     ints_fit (VDict acc) = true -> ints_fit v = true).
Proof.
  induction fuel as [|f (IHv & IHa & IHo)].
  - repeat split; intros; discriminate.
  - split; [|split].
    + intros s v r. rewrite parse_value_S.
      destruct (head_is dq s).
      { intros H. apply jbind_ok in H as (p & _ & H).
        now injection H as <- _. }
      destruct (head_is "{" s).
      { cbv zeta. destruct (head_is "}" _).
        - intros H. now injection H as <- _.
        - intros H. now apply (IHo _ _ _ _ H). }
      destruct (head_is "[" s).
      { cbv zeta. destruct (head_is "]" _).
        - intros H. now injection H as <- _.
        - intros H. now apply (IHa _ _ _ _ H). }
      destruct (PyStr.startswith "null" s).
      { intros H. now injection H as <- _. }
      destruct (PyStr.startswith "true" s).
      { intros H. now injection H as <- _. }
      destruct (PyStr.startswith "false" s).
      { intros H. now injection H as <- _. }
      destruct (PyStr.startswith "NaN" s); [discriminate|].
      destruct (PyStr.startswith "Infinity" s); [discriminate|].
      destruct (PyStr.startswith "-Infinity" s); [discriminate|].
      intros H. apply jbind_ok in H as ([z r0] & Hz & H).
      injection H as <- _. cbn [fst ints_fit].
      apply Z.leb_le. exact (scan_number_fits _ _ _ Hz).
    + intros s acc v r. rewrite parse_array_S. intros H Hacc.
      apply jbind_ok in H as ([x rest] & Hx & H). cbv zeta in H.
      cbn [fst snd] in H.
      pose proof (IHv _ _ _ Hx) as Hpx.
      pose proof (forallb_snoc ints_fit acc x Hacc Hpx) as Hacc'.
      destruct (head_is "]" _).
      { injection H as <- _. exact Hacc'. }
      destruct (head_is "," _); [|discriminate].
      now apply (IHa _ _ _ _ H).
    + intros s acc v r. rewrite parse_object_S. intros H Hacc.
      destruct (head_is dq s); [|discriminate].
      apply jbind_ok in H as ([k rest] & _ & H). cbv zeta in H.
      cbn [fst snd] in H.
      destruct (head_is ":" _); [|discriminate].
      apply jbind_ok in H as ([x rest'] & Hx & H). cbn [fst snd] in H.
      pose proof (IHv _ _ _ Hx) as Hpx.
      pose proof (obj_set_fits acc k x Hacc Hpx) as Hacc'.
      destruct (head_is "}" _).
      { injection H as <- _. exact Hacc'. }
      destruct (head_is "," _); [|discriminate].
      now apply (IHo _ _ _ _ H).
Qed.

(** What [json.dumps] encodes is within the limit of [str(...)]. *)
Lemma dumps_fits (v : value) (t : string) :
  dumps v = Ok t -> ints_fit v = true.
Proof.
  revert t. induction v using value_ind'; intros t Hd; try reflexivity.
  - cbn [dumps] in Hd. apply str_of_int_ok in Hd as [_ Hl].
    cbn [ints_fit]. now apply Z.leb_le.
  - cbn [dumps] in Hd. apply jbind_ok in Hd as (parts & Hparts & _).
    cbn [ints_fit]. revert parts Hparts.
    induction H as [|x l Hx Hl IH]; intros parts Hparts; [reflexivity|].
    cbn [map rsequence] in Hparts.
    apply jbind_ok in Hparts as (a & Ha & Hparts).
    apply jbind_ok in Hparts as (b & Hb & _).
    cbn [forallb]. now rewrite (Hx a Ha), (IH b Hb).
  - cbn [dumps] in Hd. apply jbind_ok in Hd as (parts & Hparts & _).
    cbn [ints_fit]. revert parts Hparts.
    induction H as [|[k x] l [_ Hx] Hl IH]; intros parts Hparts;
      [reflexivity|].
    cbn [map rsequence fst snd] in Hparts.
    apply jbind_ok in Hparts as (a & Ha & Hparts).
    apply jbind_ok in Hparts as (b & Hb & _).
    apply jbind_ok in Ha as (ka & Hka & Ha).
    apply jbind_ok in Ha as (xa & Hxa & _).
    cbn [fst snd] in Hx. cbn [forallb fst snd].
    rewrite (Hx xa Hxa), (IH b Hb).
    rewrite andb_true_r. cbn [andb]. rewrite andb_true_r.
    destruct k as [| [] | z | ks | | | |]; try reflexivity;
      try discriminate Hka.
    cbn [encode_key] in Hka. apply jbind_ok in Hka as (zt & Hzt & _).
    apply str_of_int_ok in Hzt as [_ Hl']. cbn [ints_fit].
    now apply Z.leb_le.
  - discriminate Hd.
Qed.

Lemma loads_parsed (s : string) (v : value) :
  loads s = Ok v ->
  exists rest,
    parse_value (S (2 * String.length s)) (skip_ws s) = Ok (v, rest) /\
    skip_ws rest = "".
Proof.
  unfold loads. intros H. apply jbind_ok in H as ([x rest] & Hx & H).
  cbn [fst snd] in H. exists rest.
  destruct (skip_ws rest); [|discriminate].
  injection H as <-. now split.
Qed.

(** X16: whatever [json.loads] returns is built from [None], booleans,
    integers, strings, lists and dictionaries with distinct string keys
    (test, line 11). *)
Theorem loads_yields_plain_values (s : string) (v : value) :
  loads s = Ok v -> json_plain v = true.
Proof.
  intros H. destruct (loads_parsed s v H) as (rest & Hp & _).
  exact (proj1 (parse_plain _) _ _ _ Hp).
Qed.

(** X17: a decoded value can be encoded, and decoding the encoding gives
    the same value: [loads (dumps (loads s)) = loads s] (test, lines
    11-13). *)
Theorem decoded_values_round_trip (s : string) (v : value) :
  loads s = Ok v -> exists t, dumps v = Ok t /\ loads t = Ok v.
Proof.
  intros H. destruct (loads_parsed s v H) as (rest & Hp & _).
  apply loads_dumps.
  - exact (proj1 (parse_plain _) _ _ _ Hp).
  - exact (proj1 (parse_fits _) _ _ _ Hp).
Qed.

(** X18: on the values of the round trip, [json.dumps] is one-to-one:
    two different defaults are never displayed alike (test, line 13). *)
Theorem dumps_is_injective (v w : value) (t : string) :
  json_plain v = true -> json_plain w = true ->
  dumps v = Ok t -> dumps w = Ok t -> v = w.
Proof.
  intros Hv Hw Dv Dw.
  destruct (loads_dumps v Hv (dumps_fits v t Dv)) as (t1 & D1 & L1).
  destruct (loads_dumps w Hw (dumps_fits w t Dw)) as (t2 & D2 & L2).
  rewrite Dv in D1. injection D1 as <-.
  rewrite Dw in D2. injection D2 as <-.
  rewrite L1 in L2. now injection L2.
Qed.

(** X19: an empty token, or one of white space only, is rejected with
    [Expecting value] (test, line 11). *)
Theorem blank_token_is_rejected (s : string) :
  blank s = true -> loads s = Err "Expecting value".
Proof.
  intros H. unfold loads.
  assert (Hs : skip_ws s = "").
  { induction s as [|c s IH]; [reflexivity|]. simpl in H.
    apply andb_prop in H as [Hc Hb]. simpl. rewrite Hc. now apply IH. }
  rewrite Hs. reflexivity.
Qed.

(** ** What [json.dumps] writes *)

Lemma all_printable_app (a b : string) :
  all_printable (a ++ b) = all_printable a && all_printable b.
Proof.
  induction a as [|c a IH]; simpl; [reflexivity|].
  now rewrite IH, andb_assoc.
Qed.

Lemma escape_char_printable (c : ascii) : all_printable (escape_char c) = true.
Proof. destruct c as [[] [] [] [] [] [] [] []]; reflexivity. Qed.

Lemma escape_printable (s : string) : all_printable (escape s) = true.
Proof.
  induction s as [|c s IH]; simpl; [reflexivity|].
  now rewrite all_printable_app, escape_char_printable, IH.
Qed.

Lemma encode_string_printable (s : string) :
  all_printable (encode_string s) = true.
Proof.
  unfold encode_string. cbn [all_printable].
  rewrite all_printable_app, escape_printable. reflexivity.
Qed.

Lemma uint_printable (d : Decimal.uint) :
  all_printable (NilEmpty.string_of_uint d) = true.
Proof. induction d; simpl; auto. Qed.

Lemma decimal_printable (z : Z) : all_printable (decimal z) = true.
Proof.
  unfold decimal, NilZero.string_of_int, NilZero.string_of_uint.
  destruct (Z.to_int z) as [d | d]; destruct d; simpl;
    auto using uint_printable.
Qed.

Lemma concat_printable (sep : string) (parts : list string) :
  all_printable sep = true ->
  Forall (fun p => all_printable p = true) parts ->
  all_printable (String.concat sep parts) = true.
Proof.
  intros Hsep H. induction H as [|p parts Hp Hps IH]; [reflexivity|].
  destruct parts as [|q parts]; [exact Hp|].
  change (String.concat sep (p :: q :: parts))
    with (p ++ sep ++ String.concat sep (q :: parts)).
  now rewrite !all_printable_app, Hp, Hsep, IH.
Qed.

Lemma rsequence_Forall {A} (P : A -> Prop) (l : list (res A)) (parts : list A) :
  Forall (fun m => forall a, m = Ok a -> P a) l ->
  rsequence l = Ok parts -> Forall P parts.
Proof.
  intros H. revert parts. induction H as [|m l Hm Hl IH]; intros parts Hs.
  - injection Hs as <-. constructor.
  - cbn [rsequence] in Hs. apply jbind_ok in Hs as (a & Ha & Hs).
    apply jbind_ok in Hs as (b & Hb & Hs). injection Hs as <-.
    constructor; [now apply Hm | now apply IH].
Qed.

Lemma encode_key_printable (k : value) (t : string) :
  encode_key k = Ok t -> all_printable t = true.
Proof.
  destruct k as [| [] | z | s | | | |]; simpl; intros H;
    try discriminate;
    try (apply jbind_ok in H as (zt & _ & H));
    injection H as <-; apply encode_string_printable.
Qed.

(** X20: [json.dumps] writes characters of [' '..'~'] only: whatever the
    strings of the value hold, the token shown for a default is plain
    printable ASCII on a single line (test, line 13). *)
Theorem dumps_is_printable_ascii (v : value) (t : string) :
  dumps v = Ok t -> all_printable t = true.
Proof.
  revert t. induction v using value_ind'; intros t Hd.
  - now injection Hd as <-.
  - destruct b; now injection Hd as <-.
  - cbn [dumps] in Hd. apply str_of_int_ok in Hd as [-> _].
    apply decimal_printable.
  - injection Hd as <-. apply encode_string_printable.
  - cbn [dumps] in Hd. apply jbind_ok in Hd as (parts & Hparts & Hd).
    injection Hd as <-.
    change (all_printable (String "[" (String.concat ", " parts ++ "]"))
            = true).
    cbn [all_printable]. rewrite all_printable_app.
    change (all_printable "]") with true.
    change (printable "[") with true.
    rewrite andb_true_r. cbn [andb].
    apply concat_printable; [reflexivity|].
    apply (rsequence_Forall _ (map dumps l)); [|exact Hparts].
    apply Forall_map. revert H. apply Forall_impl. intros x Hx a. apply Hx.
  - cbn [dumps] in Hd. apply jbind_ok in Hd as (parts & Hparts & Hd).
    injection Hd as <-.
    change (all_printable (String "{" (String.concat ", " parts ++ "}"))
            = true).
    cbn [all_printable]. rewrite all_printable_app.
    change (all_printable "}") with true.
    change (printable "{") with true.
    rewrite andb_true_r. cbn [andb].
    apply concat_printable; [reflexivity|].
    refine (rsequence_Forall _ _ _ _ Hparts).
    apply Forall_map. revert H. apply Forall_impl.
    intros [k x] [_ Hx] a Ha. cbn [fst snd] in *.
    apply jbind_ok in Ha as (ka & Hka & Ha).
    apply jbind_ok in Ha as (xa & Hxa & Ha). injection Ha as <-.
    rewrite all_printable_app, (encode_key_printable k ka Hka).
    exact (Hx xa Hxa).
  - discriminate.
  - discriminate.
Qed.

(** X23: a dictionary with an integer key is encoded with the decimal
    text of the key, and whenever [json.dumps] returns for it, the round
    trip gives that text as the key: [{z: v}] returns as [{str(z): v}]
    (test, lines 11-13). *)
Theorem integer_keys_come_back_as_text (z : Z) (v : value) (t : string) :
  json_plain v = true ->
  dumps (VDict [(VInt z, v)]) = Ok t ->
  dumps (VDict [(VStr (decimal z), v)]) = Ok t /\
  loads t = Ok (VDict [(VStr (decimal z), v)]).
Proof.
  intros Hv Hd.
  assert (Ht : dumps (VDict [(VStr (decimal z), v)]) = Ok t).
  { cbn [dumps map rsequence fst snd encode_key] in Hd |- *.
    destruct (str_of_int z) as [zt | |] eqn:Ez; try discriminate Hd.
    apply str_of_int_ok in Ez as [-> _]. exact Hd. }
  split; [exact Ht|].
  assert (Hp : json_plain (VDict [(VStr (decimal z), v)]) = true).
  { cbn [json_plain forallb fst snd is_str map key_text distinct existsb].
    now rewrite Hv. }
  destruct (loads_dumps _ Hp (dumps_fits _ _ Ht)) as (t' & Hd' & Hl).
  rewrite Ht in Hd'. injection Hd' as <-. exact Hl.
Qed.

(** ** White space around a document *)

Lemma is_ws_cases (a : ascii) :
  is_ws a = true ->
  (a = " " \/ a = "009" \/ a = "010" \/ a = "013")%char.
Proof.
  destruct a as [[] [] [] [] [] [] [] []]; intros H;
    try discriminate H; auto.
Qed.

Lemma padded_refl (s : string) : padded s s.
Proof. exists "". split; [reflexivity|]. now rewrite append_nil_r. Qed.

Lemma padded_nil (s' : string) : padded "" s' <-> blank s' = true.
Proof.
  split.
  - intros (w & Hw & ->). exact Hw.
  - intros H. now exists s'.
Qed.

Lemma padded_cons (c : ascii) (s s' : string) :
  padded (String c s) s' <-> exists t, s' = String c t /\ padded s t.
Proof.
  split.
  - intros (w & Hw & ->). exists (s ++ w). split; [reflexivity|]. now exists w.
  - intros (t & -> & w & Hw & ->). now exists w.
Qed.

Lemma blank_tail (s : string) : blank s = true -> blank (tail s) = true.
Proof.
  destruct s as [|a s]; [reflexivity|]. simpl. intros H.
  now apply andb_prop in H as [_ H].
Qed.

Lemma blank_skip_ws (s : string) : blank s = true -> skip_ws s = "".
Proof.
  induction s as [|a s IH]; [reflexivity|]. simpl. intros H.
  apply andb_prop in H as [Ha Hs]. rewrite Ha. now apply IH.
Qed.

Lemma skip_ws_blank (s : string) : skip_ws s = "" -> blank s = true.
Proof.
  induction s as [|a s IH]; [reflexivity|]. simpl.
  destruct (is_ws a); [exact IH | discriminate].
Qed.

Lemma blank_head_is (c : ascii) (s : string) :
  is_ws c = false -> blank s = true -> head_is c s = false.
Proof.
  intros Hc. destruct s as [|a s]; [reflexivity|]. simpl. intros H.
  apply andb_prop in H as [Ha _].
  destruct (Ascii.eqb a c) eqn:E; [|reflexivity].
  apply Ascii.eqb_eq in E. subst a. congruence.
Qed.

Lemma head_is_padded (c : ascii) (s s' : string) :
  is_ws c = false -> padded s s' -> head_is c s' = head_is c s.
Proof.
  intros Hc Hp. destruct s as [|a s].
  - apply padded_nil in Hp. now apply blank_head_is.
  - apply padded_cons in Hp as (t & -> & _). reflexivity.
Qed.

Lemma tail_padded (s s' : string) : padded s s' -> padded (tail s) (tail s').
Proof.
  intros Hp. destruct s as [|a s].
  - apply padded_nil in Hp. apply padded_nil. now apply blank_tail.
  - apply padded_cons in Hp as (t & -> & Ht). exact Ht.
Qed.

Lemma skip_ws_padded (s s' : string) :
  padded s s' -> padded (skip_ws s) (skip_ws s').
Proof.
  revert s'. induction s as [|a s IH]; intros s' Hp.
  - apply padded_nil in Hp. rewrite (blank_skip_ws s' Hp). apply padded_refl.
  - apply padded_cons in Hp as (t & -> & Ht). simpl.
    destruct (is_ws a); [now apply IH|].
    apply padded_cons. now exists t.
Qed.

Lemma drop_padded (n : nat) (s s' : string) :
  padded s s' -> padded (drop n s) (drop n s').
Proof.
  revert s s'. induction n as [|n IH]; intros s s' Hp.
  - destruct s, s'; exact Hp.
  - destruct s as [|a s].
    + apply padded_nil in Hp. apply padded_nil.
      clear IH. revert n. induction s' as [|b s' IH']; intros n.
      * reflexivity.
      * simpl in Hp. apply andb_prop in Hp as [Hb Hs]. simpl.
        destruct n; [exact Hs | now apply IH'].
    + apply padded_cons in Hp as (t & -> & Ht). simpl. now apply IH.
Qed.

Lemma startswith_padded (p s s' : string) :
  no_ws p = true -> padded s s' ->
  PyStr.startswith p s' = PyStr.startswith p s.
Proof.
  revert s s'. induction p as [|c p IH]; intros s s' Hn Hp; [reflexivity|].
  simpl in Hn. apply andb_prop in Hn as [Hc Hn].
  apply negb_true_iff in Hc.
  destruct s as [|a s].
  - apply padded_nil in Hp. simpl. destruct s' as [|b s']; [reflexivity|].
    simpl in Hp. apply andb_prop in Hp as [Hb _].
    destruct (Ascii.eqb c b) eqn:E; [|reflexivity].
    apply Ascii.eqb_eq in E. subst b. congruence.
  - apply padded_cons in Hp as (t & -> & Ht). simpl.
    now rewrite (IH s t Hn Ht).
Qed.

Lemma cons_char_ok (c : ascii) (r : res (string * string)) (t rest : string) :
  cons_char c r = Ok (t, rest) ->
  exists t0, r = Ok (t0, rest) /\ t = String c t0.
Proof.
  destruct r as [[t0 rest0] | |]; simpl; intros H; try discriminate.
  injection H as <- <-. now exists t0.
Qed.

Lemma scan_string_padded (s : string) :
  forall s' t rest,
    scan_string s = Ok (t, rest) -> padded s s' ->
    exists rest', scan_string s' = Ok (t, rest') /\ padded rest rest'.
Proof.
  remember (String.length s) as n eqn:En.
  revert s En. induction n as [n IH] using lt_wf_ind. intros s En s' t rest.
  destruct s as [|c r]; [discriminate|].
  intros H Hp. apply padded_cons in Hp as (r1 & -> & Hr1).
  assert (Hrec : forall q q' c' t rest,
            String.length q < n -> padded q q' ->
            cons_char c' (scan_string q) = Ok (t, rest) ->
            exists rest', cons_char c' (scan_string q') = Ok (t, rest')
                          /\ padded rest rest').
  { intros q q' c' t1 rest1 Hlt Hq Hc.
    apply cons_char_ok in Hc as (t0 & Hs & ->).
    destruct (IH _ Hlt q eq_refl q' t0 rest1 Hs Hq) as (rest' & Hs' & Hpr).
    exists rest'. rewrite Hs'. now split. }
  simpl in En. simpl in H |- *.
  destruct (Ascii.eqb c dq).
  { injection H as <- <-. now exists r1. }
  destruct (Ascii.eqb c backslash).
  - destruct r as [|e r']; [discriminate|].
    apply padded_cons in Hr1 as (r2 & -> & Hr2). simpl in En.
    repeat match type of H with
    | (if Ascii.eqb e ?x then _ else _) = _ =>
        destruct (Ascii.eqb e x);
        [apply (Hrec r' r2 _ _ _ ltac:(lia) Hr2 H)|]
    end.
    destruct (Ascii.eqb e "u"); [|discriminate].
    destruct r' as [|h1 [|h2 [|h3 [|h4 r'']]]]; try discriminate.
    apply padded_cons in Hr2 as (q1 & -> & Hr2).
    apply padded_cons in Hr2 as (q2 & -> & Hr2).
    apply padded_cons in Hr2 as (q3 & -> & Hr2).
    apply padded_cons in Hr2 as (q4 & -> & Hr2).
    destruct (hex4 h1 h2 h3 h4); [|discriminate].
    destruct (_ <? 256)%nat; [|discriminate].
    simpl in En. apply (Hrec r'' q4 _ _ _ ltac:(lia) Hr2 H).
  - destruct (_ <? 32)%nat; [discriminate|].
    apply (Hrec r r1 _ _ _ ltac:(lia) Hr1 H).
Qed.

Lemma blank_head_digit (w : string) : blank w = true -> head_digit w = false.
Proof.
  destruct w as [|a w]; [reflexivity|]. simpl. intros H.
  apply andb_prop in H as [Ha _].
  destruct (is_ws_cases a Ha) as [-> | [-> | [-> | ->]]]; reflexivity.
Qed.

Lemma head_digit_padded (s s' : string) :
  padded s s' -> head_digit s' = head_digit s.
Proof.
  intros Hp. destruct s as [|a s].
  - apply padded_nil in Hp. now apply blank_head_digit.
  - apply padded_cons in Hp as (t & -> & _). reflexivity.
Qed.

Lemma blank_starts_float (w : string) :
  blank w = true -> starts_float w = false.
Proof.
  destruct w as [|a [|b w]]; try reflexivity. simpl. intros H.
  apply andb_prop in H as [Ha _].
  destruct (is_ws_cases a Ha) as [-> | [-> | [-> | ->]]]; reflexivity.
Qed.

Lemma starts_float_padded (s s' : string) :
  padded s s' -> starts_float s' = starts_float s.
Proof.
  intros Hp. destruct s as [|c s].
  - apply padded_nil in Hp. now apply blank_starts_float.
  - apply padded_cons in Hp as (t & -> & Ht). destruct s as [|d s].
    + apply padded_nil in Ht. destruct t as [|a t]; [reflexivity|].
      simpl in Ht. apply andb_prop in Ht as [Ha Ht].
      cbn [starts_float].
      rewrite (blank_head_digit t Ht).
      destruct (is_ws_cases a Ha) as [-> | [-> | [-> | ->]]];
        cbn; now rewrite !andb_false_r.
    + apply padded_cons in Ht as (t' & -> & Ht'). cbn [starts_float].
      now rewrite (head_digit_padded s t' Ht').
Qed.

Lemma span_digits_padded (s s' : string) :
  padded s s' ->
  fst (span_digits s') = fst (span_digits s) /\
  padded (snd (span_digits s)) (snd (span_digits s')).
Proof.
  revert s'. induction s as [|a s IH]; intros s' Hp.
  - apply padded_nil in Hp. destruct s' as [|b s'].
    + split; [reflexivity | apply padded_refl].
    + pose proof (blank_head_digit _ Hp) as Hd. simpl in Hd. simpl.
      rewrite Hd. simpl. split; [reflexivity|]. now apply padded_nil.
  - apply padded_cons in Hp as (t & -> & Ht). simpl.
    destruct (is_digit a).
    + destruct (IH t Ht) as [I1 I2].
      destruct (span_digits s) as [ds r], (span_digits t) as [ds' r'].
      simpl in *. now subst ds'.
    + simpl. split; [reflexivity|]. apply padded_cons. now exists t.
Qed.

Lemma scan_natural_padded (s s' : string) (z : Z) (rest : string) :
  scan_natural s = Ok (z, rest) -> padded s s' ->
  exists rest', scan_natural s' = Ok (z, rest') /\ padded rest rest'.
Proof.
  unfold scan_natural. intros H Hp.
  rewrite (head_is_padded "0" s s' eq_refl Hp).
  pose proof (tail_padded s s' Hp) as Ht.
  destruct (head_is "0" s).
  - rewrite (starts_float_padded _ _ Ht).
    destruct (starts_float (tail s)); [discriminate|].
    injection H as <- <-. now exists (tail s').
  - destruct (span_digits_padded s s' Hp) as [S1 S2]. rewrite S1.
    destruct (fst (span_digits s)) as [|c ds]; [discriminate|].
    destruct (NilZero.uint_of_string (String c ds)); [|discriminate].
    rewrite (starts_float_padded _ _ S2).
    destruct (starts_float (snd (span_digits s))); [discriminate|].
    destruct (max_str_digits <? _)%Z; [discriminate|].
    injection H as <- <-. now exists (snd (span_digits s')).
Qed.

Lemma scan_number_padded (s s' : string) (z : Z) (rest : string) :
  scan_number s = Ok (z, rest) -> padded s s' ->
  exists rest', scan_number s' = Ok (z, rest') /\ padded rest rest'.
Proof.
  unfold scan_number. intros H Hp.
  rewrite (head_is_padded "-" s s' eq_refl Hp).
  destruct (head_is "-" s).
  - apply jbind_ok in H as ([z0 r0] & H0 & H). injection H as <- <-.
    destruct (scan_natural_padded _ _ _ _ H0 (tail_padded s s' Hp))
      as (rest' & Hs' & Hr).
    exists rest'. rewrite Hs'. now split.
  - now apply scan_natural_padded with (s := s).
Qed.

(** More fuel and white space after the input change nothing in a
    successful scan. *)
Lemma parse_padded (fuel : nat) :
  (forall fuel' s s' v rest,
     parse_value fuel s = Ok (v, rest) -> fuel <= fuel' -> padded s s' ->
     exists rest', parse_value fuel' s' = Ok (v, rest') /\ padded rest rest') /\
  (forall fuel' s s' acc v rest,
     parse_array fuel s acc = Ok (v, rest) -> fuel <= fuel' -> padded s s' ->
     exists rest',
       parse_array fuel' s' acc = Ok (v, rest') /\ padded rest rest') /\
  (forall fuel' s s' acc v rest,
     parse_object fuel s acc = Ok (v, rest) -> fuel <= fuel' -> padded s s' ->
     exists rest',
       parse_object fuel' s' acc = Ok (v, rest') /\ padded rest rest').
Proof.
  induction fuel as [|f (IHv & IHa & IHo)].
  - repeat split; intros; discriminate.
  - split; [|split].
    + intros [|f'] s s' v rest H Hle Hp; [lia|].
      rewrite parse_value_S in H. rewrite parse_value_S.
      pose proof (tail_padded s s' Hp) as Ht.
      pose proof (skip_ws_padded _ _ Ht) as Hst.
      rewrite (head_is_padded dq s s' eq_refl Hp).
      destruct (head_is dq s).
      { apply jbind_ok in H as ([t r] & Hs & H). injection H as <- <-.
        destruct (scan_string_padded _ _ _ _ Hs Ht) as (rest' & Hs' & Hr).
        exists rest'. rewrite Hs'. now split. }
      rewrite (head_is_padded "{" s s' eq_refl Hp).
      destruct (head_is "{" s).
      { cbv zeta in H |- *.
        rewrite (head_is_padded "}" _ _ eq_refl Hst).
        destruct (head_is "}" (skip_ws (tail s))).
        - injection H as <- <-. eexists. split; [reflexivity|].
          now apply tail_padded.
        - apply (IHo f' _ _ _ _ _ H ltac:(lia) Hst). }
      rewrite (head_is_padded "[" s s' eq_refl Hp).
      destruct (head_is "[" s).
      { cbv zeta in H |- *.
        rewrite (head_is_padded "]" _ _ eq_refl Hst).
        destruct (head_is "]" (skip_ws (tail s))).
        - injection H as <- <-. eexists. split; [reflexivity|].
          now apply tail_padded.
        - apply (IHa f' _ _ _ _ _ H ltac:(lia) Hst). }
      rewrite (startswith_padded "null" s s' eq_refl Hp).
      destruct (PyStr.startswith "null" s).
      { injection H as <- <-. exists (drop 4 s'). split; [reflexivity|].
        exact (drop_padded 4 s s' Hp). }
      rewrite (startswith_padded "true" s s' eq_refl Hp).
      destruct (PyStr.startswith "true" s).
      { injection H as <- <-. exists (drop 4 s'). split; [reflexivity|].
        exact (drop_padded 4 s s' Hp). }
      rewrite (startswith_padded "false" s s' eq_refl Hp).
      destruct (PyStr.startswith "false" s).
      { injection H as <- <-. exists (drop 5 s'). split; [reflexivity|].
        exact (drop_padded 5 s s' Hp). }
      rewrite (startswith_padded "NaN" s s' eq_refl Hp).
      destruct (PyStr.startswith "NaN" s); [discriminate|].
      rewrite (startswith_padded "Infinity" s s' eq_refl Hp).
      destruct (PyStr.startswith "Infinity" s); [discriminate|].
      rewrite (startswith_padded "-Infinity" s s' eq_refl Hp).
      destruct (PyStr.startswith "-Infinity" s); [discriminate|].
      apply jbind_ok in H as ([z r] & Hs & H). injection H as <- <-.
      destruct (scan_number_padded _ _ _ _ Hs Hp) as (rest' & Hs' & Hr).
      exists rest'. rewrite Hs'. now split.
    + intros [|f'] s s' acc v rest H Hle Hp; [lia|].
      rewrite parse_array_S in H. rewrite parse_array_S.
      apply jbind_ok in H as ([x r] & Hx & H). cbv zeta in H.
      cbn [fst snd] in H.
      destruct (IHv f' _ _ _ _ Hx ltac:(lia) Hp) as (r' & Hx' & Hr).
      rewrite Hx'. cbn [rbind fst snd]. cbv zeta.
      pose proof (skip_ws_padded _ _ Hr) as Hsr.
      rewrite (head_is_padded "]" _ _ eq_refl Hsr).
      destruct (head_is "]" (skip_ws r)).
      { injection H as <- <-. eexists. split; [reflexivity|].
        now apply tail_padded. }
      rewrite (head_is_padded "," _ _ eq_refl Hsr).
      destruct (head_is "," (skip_ws r)); [|discriminate].
      apply (IHa f' _ _ _ _ _ H ltac:(lia)).
      now apply skip_ws_padded, tail_padded.
    + intros [|f'] s s' acc v rest H Hle Hp; [lia|].
      rewrite parse_object_S in H. rewrite parse_object_S.
      rewrite (head_is_padded dq s s' eq_refl Hp).
      destruct (head_is dq s); [|discriminate].
      apply jbind_ok in H as ([k r] & Hk & H). cbv zeta in H.
      cbn [fst snd] in H.
      destruct (scan_string_padded _ _ _ _ Hk (tail_padded s s' Hp))
        as (r' & Hk' & Hr).
      rewrite Hk'. cbn [rbind fst snd]. cbv zeta.
      pose proof (skip_ws_padded _ _ Hr) as Hsr.
      rewrite (head_is_padded ":" _ _ eq_refl Hsr).
      destruct (head_is ":" (skip_ws r)); [|discriminate].
      apply jbind_ok in H as ([x r2] & Hx & H). cbn [fst snd] in H.
      assert (Hin : padded (skip_ws (tail (skip_ws r)))
                           (skip_ws (tail (skip_ws r')))).
      { now apply skip_ws_padded, tail_padded. }
      destruct (IHv f' _ _ _ _ Hx ltac:(lia) Hin) as (r2' & Hx' & Hr2).
      rewrite Hx'. cbn [rbind fst snd].
      pose proof (skip_ws_padded _ _ Hr2) as Hsr2.
      rewrite (head_is_padded "}" _ _ eq_refl Hsr2).
      destruct (head_is "}" (skip_ws r2)).
      { injection H as <- <-. eexists. split; [reflexivity|].
        now apply tail_padded. }
      rewrite (head_is_padded "," _ _ eq_refl Hsr2).
      destruct (head_is "," (skip_ws r2)); [|discriminate].
      apply (IHo f' _ _ _ _ _ H ltac:(lia)).
      now apply skip_ws_padded, tail_padded.
Qed.

Lemma skip_ws_leading (w s : string) :
  blank w = true -> skip_ws (w ++ s) = skip_ws s.
Proof.
  induction w as [|a w IH]; [reflexivity|]. simpl. intros H.
  apply andb_prop in H as [Ha Hw]. rewrite Ha. now apply IH.
Qed.

(** X21: white space around a document changes nothing: a token that
    decodes to a value decodes to the same value with blanks, tabs or
    line ends before and after it (test, line 11). *)
Theorem surrounding_white_space_is_ignored (w1 s w2 : string) (v : value) :
  blank w1 = true -> blank w2 = true ->
  loads s = Ok v -> loads (w1 ++ s ++ w2) = Ok v.
Proof.
  intros H1 H2 H.
  destruct (loads_parsed s v H) as (rest & Hp & Hrest).
  unfold loads. rewrite (skip_ws_leading w1 (s ++ w2) H1).
  assert (Hpad : padded (skip_ws s) (skip_ws (s ++ w2))).
  { apply skip_ws_padded. now exists w2. }
  destruct (proj1 (parse_padded (S (2 * String.length s)))
              (S (2 * String.length (w1 ++ s ++ w2))) _ _ _ _ Hp
              ltac:(rewrite !length_append; lia) Hpad)
    as (rest' & Hp' & (w & Hw & ->)).
  rewrite Hp'. cbn [rbind fst snd].
  assert (Hb : blank (rest ++ w) = true).
  { apply skip_ws_blank in Hrest. clear - Hrest Hw.
    induction rest as [|a r IH]; [exact Hw|]. simpl in *.
    apply andb_prop in Hrest as [Ha Hr]. now rewrite Ha, IH. }
  now rewrite (blank_skip_ws _ Hb).
Qed.

(** X21, at the token of the test between blanks. *)
Lemma surrounding_white_space_is_ignored_witness :
  loads ("  " ++ "[1, 2]" ++ " ") = Ok (VList [VInt 1; VInt 2]).
Proof.
  apply (surrounding_white_space_is_ignored "  " "[1, 2]" " ");
    reflexivity.
Defined.

(** ** [cli] over any collaborators *)

Local Open Scope list_scope.

Section MonadFacts.
Context {A B : Type}.

Lemma bind_inr_inv (m : M A) (k : A -> M B) (tr : list event) (b : B) :
  bind m k = (tr, inr b) ->
  exists tr1 a tr2, m = (tr1, inr a) /\ k a = (tr2, inr b) /\ tr = tr1 ++ tr2.
Proof.
  destruct m as [tr1 [e | a]]; simpl; [discriminate|].
  destruct (k a) as [tr2 r] eqn:Ek. intros H. injection H as <- ->.
  exists tr1, a, tr2. auto.
Qed.

Lemma outcome_bind (m : M A) (k : A -> M B) :
  outcome_of (bind m k)
  = match outcome_of m with
    | inl e => inl e
    | inr a => outcome_of (k a)
    end.
Proof.
  destruct m as [tr [e | a]]; simpl; [reflexivity|].
  destruct (k a); reflexivity.
Qed.

Lemma trace_bind_raise (m : M A) (k : A -> M B) (tr : list event) (e : exn) :
  m = (tr, inl e) -> bind m k = (tr, inl e).
Proof. intros ->. reflexivity. Qed.

Lemma bind_ok (m : M A) (k : A -> M B) (tr : list event) (a : A) :
  m = (tr, inr a) -> bind m k = (tr ++ fst (k a), snd (k a)).
Proof. intros ->. simpl. destruct (k a); reflexivity. Qed.

End MonadFacts.

Lemma mem_In (s : PySet.t) (k : string) : PySet.mem s k = true <-> In k s.
Proof.
  unfold PySet.mem. rewrite existsb_exists. split.
  - intros (x & Hin & Hx). apply String.eqb_eq in Hx. now subst.
  - intros H. exists k. split; [exact H | apply String.eqb_refl].
Qed.

Lemma diff_nil (ks : list string) (s : PySet.t) :
  PySet.diff ks s = [] <-> forall k, In k ks -> In k s.
Proof.
  unfold PySet.diff. induction ks as [|k ks IH]; simpl.
  - split; [intros _ k [] | reflexivity].
  - destruct (PySet.mem s k) eqn:Hm; simpl.
    + rewrite IH. apply mem_In in Hm. split.
      * intros H k' [<- | Hin]; auto.
      * intros H k' Hin. apply H. now right.
    + split; [discriminate|]. intros H.
      assert (Hk : In k s) by (apply H; now left).
      apply mem_In in Hk. congruence.
Qed.

Section CliFacts.

Context {callable pspec parser formatter : Type}.
Variable E : Env callable pspec parser formatter.

Lemma all_consumed_spec (ns : @PyDict.t value) (consumed : PySet.t) :
  all_consumed ns consumed = true
  <-> forall k, In k (PyDict.keys ns) -> In k consumed.
Proof.
  unfold all_consumed. rewrite Nat.eqb_eq, List.length_zero_iff_nil.
  apply diff_nil.
Qed.

(** The calling phase, by the way [call_from_args] ends. *)
Lemma call_and_return_ok (st : parsed) (tr : list event) (out : value)
    (consumed : PySet.t) :
  call_from_args E (p_f st) (p_definition st) (p_default_instance st)
                 (p_values st) "" = (tr, inr (out, consumed)) ->
  call_and_return E st
  = if all_consumed (p_values st) consumed
    then (tr ++ fst (unwrap E (p_dummy_wrapped st) out),
          snd (unwrap E (p_dummy_wrapped st) out))
    else (tr, inl (AssertionError
                     (Unconsumed (PyDict.keys (p_values st)) consumed))).
Proof.
  intros Hc. unfold call_and_return, reconstruct. rewrite Hc. simpl.
  destruct (all_consumed (p_values st) consumed); simpl.
  - destruct (unwrap E (p_dummy_wrapped st) out) as [tr' r]. reflexivity.
  - now rewrite List.app_nil_r.
Qed.

Lemma call_and_return_instantiation (st : parsed) (tr : list event)
    (msg : string) :
  call_from_args E (p_f st) (p_definition st) (p_default_instance st)
                 (p_values st) "" = (tr, inl (InstantiationError msg)) ->
  call_and_return E st
  = (tr ++ [Print (format_usage E (p_parser st)); Print ""; Print msg],
     inl (SystemExit None)).
Proof.
  intros Hc. unfold call_and_return, reconstruct. rewrite Hc. reflexivity.
Qed.

Lemma call_and_return_inv (st : parsed) (tr : list event) (v : value) :
  call_and_return E st = (tr, inr v) ->
  exists tr1 out consumed tr2,
    call_from_args E (p_f st) (p_definition st) (p_default_instance st)
                   (p_values st) "" = (tr1, inr (out, consumed)) /\
    all_consumed (p_values st) consumed = true /\
    unwrap E (p_dummy_wrapped st) out = (tr2, inr v) /\
    tr = tr1 ++ tr2.
Proof.
  intros H.
  destruct (call_from_args E (p_f st) (p_definition st) (p_default_instance st)
              (p_values st) "") as [tr1 [e | [out consumed]]] eqn:Hc.
  - unfold call_and_return, reconstruct in H. rewrite Hc in H.
    destruct e; simpl in H; discriminate.
  - rewrite (call_and_return_ok st tr1 out consumed Hc) in H.
    destruct (all_consumed (p_values st) consumed) eqn:Ha; [|discriminate].
    destruct (unwrap E (p_dummy_wrapped st) out) as [tr2 r] eqn:Hu.
    simpl in H. injection H as <- ->.
    exists tr1, out, consumed, tr2. auto.
Qed.

End CliFacts.

Section CliTheorems.

Context {callable pspec parser formatter : Type}.
Variable E : Env callable pspec parser formatter.

Lemma cli_unfold (f : callable) (prog description : option string)
    (args : option (list string)) (default : value) (kw : @PyDict.t value)
    (tr : list event) (st : parsed) :
  derive_and_parse E f prog description args default kw = (tr, inr st) ->
  cli E f prog description args default kw
  = (tr ++ fst (call_and_return E st), snd (call_and_return E st)).
Proof. intros H. unfold cli. now apply bind_ok. Qed.

Lemma cli_inr_inv (f : callable) (prog description : option string)
    (args : option (list string)) (default : value) (kw : @PyDict.t value)
    (tr : list event) (v : value) :
  cli E f prog description args default kw = (tr, inr v) ->
  exists tr1 st tr2 out consumed tr3,
    derive_and_parse E f prog description args default kw = (tr1, inr st) /\
    call_from_args E (p_f st) (p_definition st) (p_default_instance st)
                   (p_values st) "" = (tr2, inr (out, consumed)) /\
    all_consumed (p_values st) consumed = true /\
    unwrap E (p_dummy_wrapped st) out = (tr3, inr v) /\
    tr = tr1 ++ tr2 ++ tr3.
Proof.
  intros H. unfold cli in H.
  apply bind_inr_inv in H as (tr1 & st & tr' & Hd & Hc & ->).
  apply call_and_return_inv in Hc as (tr2 & out & consumed & tr3 & Hc & Ha & Hu & ->).
  exists tr1, st, tr2, out, consumed, tr3. auto.
Qed.

(** C1 (amended): once the calling phase has returned with its set of
    consumed keywords, a path of the flat mapping that is not in the set
    makes [cli] fail the assertion of lines 215-218, and a normal return
    of [cli] implies that every path of the mapping was consumed.  The
    assertion looks at leftovers only. *)
Theorem no_leftover_or_abort
    (f : callable) (prog description : option string)
    (args : option (list string)) (default : value) (kw : @PyDict.t value)
    (tr1 : list event) (st : parsed) (tr2 : list event) (out : value)
    (consumed : PySet.t) :
  derive_and_parse E f prog description args default kw = (tr1, inr st) ->
  call_from_args E (p_f st) (p_definition st) (p_default_instance st)
                 (p_values st) "" = (tr2, inr (out, consumed)) ->
  ((exists k, In k (PyDict.keys (p_values st)) /\ ~ In k consumed) ->
   cli E f prog description args default kw
   = (tr1 ++ tr2,
      inl (AssertionError
             (Unconsumed (PyDict.keys (p_values st)) consumed)))) /\
  (forall v,
     outcome_of (cli E f prog description args default kw) = inr v ->
     forall k, In k (PyDict.keys (p_values st)) -> In k consumed).
Proof.
  intros Hd Hc.
  rewrite (cli_unfold _ _ _ _ _ _ _ _ Hd).
  rewrite (call_and_return_ok E st tr2 out consumed Hc).
  destruct (all_consumed (p_values st) consumed) eqn:Ha.
  - pose proof (proj1 (all_consumed_spec _ _) Ha) as Hall. split.
    + intros (k & Hin & Hn). exfalso. apply Hn, Hall, Hin.
    + intros _ _. exact Hall.
  - split.
    + intros _. reflexivity.
    + intros v Hv. discriminate Hv.
Qed.

(** X1: when the calling phase raises [InstantiationError], [cli] prints
    the usage of the parser, an empty line and the message, in this
    order, and raises [SystemExit] without an exit code (lines 199-213). *)
Lemma reconstruction_failure
    (f : callable) (prog description : option string)
    (args : option (list string)) (default : value) (kw : @PyDict.t value)
    (tr1 : list event) (st : parsed) (tr2 : list event) (msg : string) :
  derive_and_parse E f prog description args default kw = (tr1, inr st) ->
  call_from_args E (p_f st) (p_definition st) (p_default_instance st)
                 (p_values st) "" = (tr2, inl (InstantiationError msg)) ->
  cli E f prog description args default kw
  = (tr1 ++ tr2 ++ [Print (format_usage E (p_parser st)); Print ""; Print msg],
     inl (SystemExit None)).
Proof.
  intros Hd Hc.
  rewrite (cli_unfold _ _ _ _ _ _ _ _ Hd).
  rewrite (call_and_return_instantiation E st tr2 msg Hc). reflexivity.
Qed.

End CliTheorems.

(** [str.replace] *)

Lemma startswith_refl (s : string) : PyStr.startswith s s = true.
Proof.
  induction s as [|c s IH]; simpl; [reflexivity|].
  now rewrite Ascii.eqb_refl, IH.
Qed.

Lemma replace_go_skip (old new s : string) (n : nat) :
  String.length s <= n -> PyStr.replace_go old new n s = "".
Proof.
  revert n. induction s as [|c s IH]; intros n Hn; simpl; [reflexivity|].
  destruct n as [|n]; simpl in Hn; [lia|]. apply IH. lia.
Qed.

(** X5: [str.replace] turns the key that is the synthetic field name
    itself into the empty key (line 195). *)
Lemma replace_self (old : string) :
  old <> "" -> PyStr.replace old old "" = "".
Proof.
  destruct old as [|c old]; [congruence|]. intros _.
  unfold PyStr.replace.
  change (PyStr.replace_go (String c old) "" 0 (String c old))
    with (if PyStr.startswith (String c old) (String c old)
          then ("" ++ PyStr.replace_go (String c old) ""
                        (String.length (String c old) - 1) old)%string
          else String c (PyStr.replace_go (String c old) "" 0 old)).
  rewrite startswith_refl. simpl. apply replace_go_skip. lia.
Qed.

Lemma replace_go_absent (old new s : string) :
  occurs old s = false -> PyStr.replace_go old new 0 s = s.
Proof.
  induction s as [|c s IH]; intros H; [reflexivity|].
  cbn [occurs] in H. apply orb_false_iff in H as [Hs Ho].
  cbn [PyStr.replace_go]. rewrite Hs. now rewrite IH.
Qed.

Lemma replace_absent (s old new : string) :
  occurs old s = false -> PyStr.replace s old new = s.
Proof.
  intros H. unfold PyStr.replace. destruct old as [|c old].
  - destruct s; discriminate H.
  - now apply replace_go_absent.
Qed.

Lemma replace_go_skip_prefix (old new p s : string) :
  PyStr.replace_go old new (String.length p) (p ++ s)%string
  = PyStr.replace_go old new 0 s.
Proof.
  induction p as [|a p IH]; [reflexivity|].
  cbn [String.length append PyStr.replace_go]. exact IH.
Qed.

Lemma startswith_app (p s : string) : PyStr.startswith p (p ++ s) = true.
Proof.
  induction p as [|a p IH]; [reflexivity|].
  cbn [append PyStr.startswith]. now rewrite Ascii.eqb_refl.
Qed.

Lemma replace_prefix (old new s : string) :
  old <> "" ->
  PyStr.replace (old ++ s) old new = (new ++ PyStr.replace s old new)%string.
Proof.
  destruct old as [|c old]; [congruence|]. intros _.
  unfold PyStr.replace.
  change (PyStr.replace_go (String c old) new 0 (String c old ++ s))
    with (if PyStr.startswith (String c old) (String c old ++ s)
          then (new ++ PyStr.replace_go (String c old) new
                         (String.length (String c old) - 1) (old ++ s))%string
          else String c (PyStr.replace_go (String c old) new 0 (old ++ s))).
  rewrite startswith_app.
  cbn [String.length]. rewrite Nat.sub_succ, Nat.sub_0_r.
  now rewrite replace_go_skip_prefix.
Qed.

(** Dictionaries *)

Section DictFacts.
Context {V : Type}.

Lemma keys_set (d : @PyDict.t V) (k : string) (v : V) (k' : string) :
  In k' (PyDict.keys (PyDict.set d k v)) <-> In k' (PyDict.keys d) \/ k' = k.
Proof.
  unfold PyDict.keys.
  induction d as [|[k0 v0] d IH]; simpl.
  - intuition.
  - destruct (String.eqb_spec k0 k) as [->|Hne]; simpl.
    + intuition.
    + rewrite IH. intuition.
Qed.

Lemma keys_rekey_acc (key : string -> string) (d acc : @PyDict.t V)
    (k : string) :
  In k (PyDict.keys
          (fold_left (fun a kv => PyDict.set a (key (fst kv)) (snd kv)) d acc))
  <-> In k (PyDict.keys acc)
      \/ exists k0, In k0 (PyDict.keys d) /\ k = key k0.
Proof.
  revert acc. induction d as [|[k0 v0] d IH]; intros acc; simpl.
  - split; [auto | intros [H | (k0 & [] & _)]; exact H].
  - rewrite IH, keys_set. simpl. split.
    + intros [[H | ->] | (k1 & Hin & ->)].
      * now left.
      * right. exists k0. auto.
      * right. exists k1. auto.
    + intros [H | (k1 & [<- | Hin] & ->)].
      * left. now left.
      * left. now right.
      * right. exists k1. auto.
Qed.

Lemma keys_rekey (key : string -> string) (d : @PyDict.t V) (k : string) :
  In k (PyDict.keys (PyDict.rekey key d))
  <-> exists k0, In k0 (PyDict.keys d) /\ k = key k0.
Proof.
  unfold PyDict.rekey. rewrite keys_rekey_acc. simpl. intuition.
Qed.

End DictFacts.

(** ** The stages of [cli] *)

Section Stages.

Context {callable pspec parser formatter : Type}.
Variable E : Env callable pspec parser formatter.

Lemma bind_ext {A B} (m : M A) (k k' : A -> M B) :
  (forall a, k a = k' a) -> bind m k = bind m k'.
Proof.
  intros H. destruct m as [tr [e | a]]; simpl; [reflexivity|].
  now rewrite H.
Qed.

(** Lines 130-143. *)
Lemma wrap_target_nested (f : callable) (default : value)
    (trn : list event) :
  is_nested_type E f (default_instance_internal default) = (trn, inr true) ->
  wrap_target E f default = (trn, inr (f, false)).
Proof.
  intros H. unfold wrap_target. rewrite H. cbn.
  now rewrite List.app_nil_r.
Qed.

Lemma wrap_target_plain (f : callable) (default : value)
    (trn trm : list event) (r : exn + callable) :
  is_nested_type E f (default_instance_internal default) = (trn, inr false) ->
  make_dataclass E ""
    [(dummy_field_name E, f,
      if is_None default then VMissing DC_MISSING else default)]
  = (trm, r) ->
  wrap_target E f default
  = (trn ++ trm,
     match r with
     | inl e => inl e
     | inr fw => inr (fw, true)
     end).
Proof.
  intros Hn Hm. unfold wrap_target. rewrite Hn. cbn [bind negb].
  rewrite Hm. destruct r as [e | fw]; cbn; [reflexivity|].
  now rewrite List.app_nil_r.
Qed.

(** Lines 160-191. *)
Lemma run_parser_parse (prog : option string) (pd : pspec) (a : list string) :
  print_completion a = false ->
  run_parser E prog pd a
  = with_context ansi_context
      (bind (build_parser E prog pd) (fun p =>
       bind (parse_args E p a) (fun ns => ret (p, ns)))).
Proof. intros H. unfold run_parser. rewrite H. reflexivity. Qed.

Lemma run_parser_completion (prog : option string) (pd : pspec)
    (a : list string) :
  print_completion a = true ->
  run_parser E prog pd a
  = with_context dummy_termcolor_context
      (bind (build_parser E prog pd) (fun p =>
       bind (assert_ (existsb (String.eqb (nth 1 a "")) completion_shells)
                     (BadShell (nth 1 a ""))) (fun _ =>
       bind (shtab_complete E p (nth 1 a "")
               ("dcargs_" ++ parser_prog E p)) (fun script =>
       bind (emit (Print script)) (fun _ =>
       raise (SystemExit None)))))).
Proof. intros H. unfold run_parser. rewrite H. reflexivity. Qed.

Lemma run_parser_build_fails (prog : option string) (pd : pspec)
    (a : list string) (trb : list event) (e : exn) :
  build_parser E prog pd = (trb, inl e) ->
  run_parser E prog pd a
  = (Enter (if print_completion a then dummy_termcolor_context
            else ansi_context)
       :: trb
       ++ [Leave (if print_completion a then dummy_termcolor_context
                  else ansi_context)],
     inl e).
Proof. intros H. unfold run_parser. rewrite H. reflexivity. Qed.

Lemma run_parser_parsed (prog : option string) (pd : pspec)
    (a : list string) (trb : list event) (p : parser) (tr2 : list event)
    (r : exn + @PyDict.t value) :
  print_completion a = false ->
  build_parser E prog pd = (trb, inr p) ->
  parse_args E p a = (tr2, r) ->
  run_parser E prog pd a
  = (Enter ansi_context :: (trb ++ tr2) ++ [Leave ansi_context],
     match r with
     | inl e => inl e
     | inr ns => inr (p, ns)
     end).
Proof.
  intros Hc Hb Hp. rewrite (run_parser_parse _ _ _ Hc), Hb. cbn [bind].
  rewrite Hp. destruct r as [e | ns]; cbn; [reflexivity|].
  now rewrite List.app_nil_r.
Qed.

Lemma shell_supported (s : string) :
  existsb (String.eqb s) completion_shells = true <-> In s completion_shells.
Proof.
  rewrite existsb_exists. split.
  - intros (x & Hin & Heq). apply String.eqb_eq in Heq. now subst.
  - intros H. exists s. split; [exact H | apply String.eqb_refl].
Qed.

Lemma run_parser_completed (prog : option string) (pd : pspec)
    (a : list string) (trb : list event) (p : parser) (trs : list event)
    (r : exn + string) :
  print_completion a = true ->
  build_parser E prog pd = (trb, inr p) ->
  In (nth 1 a "") completion_shells ->
  shtab_complete E p (nth 1 a "") ("dcargs_" ++ parser_prog E p) = (trs, r) ->
  run_parser E prog pd a
  = match r with
    | inl e =>
        (Enter dummy_termcolor_context
           :: (trb ++ trs) ++ [Leave dummy_termcolor_context],
         inl e)
    | inr script =>
        (Enter dummy_termcolor_context
           :: (trb ++ trs ++ [Print script])
           ++ [Leave dummy_termcolor_context],
         inl (SystemExit None))
    end.
Proof.
  intros Hc Hb Hs Hsh. rewrite (run_parser_completion _ _ _ Hc), Hb.
  apply shell_supported in Hs. rewrite Hs. cbn [bind assert_ ret].
  rewrite Hsh. destruct r as [e | script]; reflexivity.
Qed.

Lemma run_parser_bad_shell (prog : option string) (pd : pspec)
    (a : list string) (trb : list event) (p : parser) :
  print_completion a = true ->
  build_parser E prog pd = (trb, inr p) ->
  ~ In (nth 1 a "") completion_shells ->
  run_parser E prog pd a
  = (Enter dummy_termcolor_context :: trb ++ [Leave dummy_termcolor_context],
     inl (AssertionError (BadShell (nth 1 a "")))).
Proof.
  intros Hc Hb Hs. rewrite (run_parser_completion _ _ _ Hc), Hb.
  destruct (existsb (String.eqb (nth 1 a "")) completion_shells) eqn:Ex.
  - exfalso. apply Hs. now apply shell_supported.
  - cbn. now rewrite List.app_nil_r.
Qed.

Lemma run_parser_no_return (prog : option string) (pd : pspec)
    (a : list string) :
  print_completion a = true ->
  forall tr pn, run_parser E prog pd a <> (tr, inr pn).
Proof.
  intros Hc tr pn. rewrite (run_parser_completion _ _ _ Hc).
  destruct (build_parser E prog pd) as [trb [e | p]]; [discriminate|].
  cbn [bind with_context].
  destruct (existsb (String.eqb (nth 1 a "")) completion_shells);
    cbn [assert_ bind ret raise]; [|discriminate].
  destruct (shtab_complete E p (nth 1 a "") ("dcargs_" ++ parser_prog E p))
    as [trs [e | script]]; discriminate.
Qed.

Lemma print_completion_spec (a : list string) :
  print_completion a = true
  <-> (2 <= List.length a)%nat /\ hd "" a = completion_flag.
Proof.
  unfold print_completion. rewrite andb_true_iff, Nat.leb_le, String.eqb_eq.
  reflexivity.
Qed.

(** Lines 107-197, once the keywords are applied, the target is wrapped
    or not, and the schema is derived: the trace and the outcome follow
    the parser. *)
Lemma derive_and_parse_after
    (f : callable) (prog description : option string)
    (args : option (list string)) (default : value) (kw : @PyDict.t value)
    (tr0 : list event) (fd : callable * value) (trw : list event)
    (fw : callable * bool) (tr1 : list event) (pd : pspec) :
  apply_deprecated E f default kw = (tr0, inr fd) ->
  wrap_target E (fst fd) (snd fd) = (trw, inr fw) ->
  from_callable E (fst fw) description [] None
                (default_instance_internal (snd fd)) "" = (tr1, inr pd) ->
  derive_and_parse E f prog description args default kw
  = (tr0 ++ trw ++ tr1 ++ fst (run_parser E prog pd (effective_args E args)),
     match snd (run_parser E prog pd (effective_args E args)) with
     | inl e => inl e
     | inr pn =>
         inr {| p_f := fst fw;
                p_dummy_wrapped := snd fw;
                p_default_instance := default_instance_internal (snd fd);
                p_definition := pd;
                p_parser := fst pn;
                p_values := strip_dummy E (snd fw) (snd pn) |}
     end).
Proof.
  intros H0 Hw H1. unfold derive_and_parse. rewrite H0. cbn [bind].
  rewrite Hw. cbn [bind]. rewrite H1. cbn [bind].
  destruct (run_parser E prog pd (effective_args E args)) as [tr2 [e | pn]];
    cbn; rewrite ?List.app_nil_r, ?List.app_assoc; reflexivity.
Qed.

(** The same, when a stage raises. *)
Lemma derive_and_parse_stops
    (f : callable) (prog description : option string)
    (args : option (list string)) (default : value) (kw : @PyDict.t value) :
  (forall tr0 e,
     apply_deprecated E f default kw = (tr0, inl e) ->
     derive_and_parse E f prog description args default kw = (tr0, inl e)) /\
  (forall tr0 fd trw e,
     apply_deprecated E f default kw = (tr0, inr fd) ->
     wrap_target E (fst fd) (snd fd) = (trw, inl e) ->
     derive_and_parse E f prog description args default kw
     = (tr0 ++ trw, inl e)) /\
  (forall tr0 fd trw fw tr1 e,
     apply_deprecated E f default kw = (tr0, inr fd) ->
     wrap_target E (fst fd) (snd fd) = (trw, inr fw) ->
     from_callable E (fst fw) description [] None
                   (default_instance_internal (snd fd)) "" = (tr1, inl e) ->
     derive_and_parse E f prog description args default kw
     = (tr0 ++ trw ++ tr1, inl e)).
Proof.
  split; [|split].
  - intros tr0 e H0. unfold derive_and_parse. now rewrite H0.
  - intros tr0 fd trw e H0 Hw. unfold derive_and_parse. rewrite H0.
    cbn [bind]. now rewrite Hw.
  - intros tr0 fd trw fw tr1 e H0 Hw H1. unfold derive_and_parse.
    rewrite H0. cbn [bind]. rewrite Hw. cbn [bind]. rewrite H1.
    cbn. now rewrite List.app_assoc.
Qed.

Lemma derive_and_parse_inv
    (f : callable) (prog description : option string)
    (args : option (list string)) (default : value) (kw : @PyDict.t value)
    (tr : list event) (st : parsed) :
  derive_and_parse E f prog description args default kw = (tr, inr st) ->
  exists tr0 fd trw fw tr1 pd tr2 pn,
    apply_deprecated E f default kw = (tr0, inr fd) /\
    wrap_target E (fst fd) (snd fd) = (trw, inr fw) /\
    from_callable E (fst fw) description [] None
                  (default_instance_internal (snd fd)) "" = (tr1, inr pd) /\
    run_parser E prog pd (effective_args E args) = (tr2, inr pn) /\
    st = {| p_f := fst fw;
            p_dummy_wrapped := snd fw;
            p_default_instance := default_instance_internal (snd fd);
            p_definition := pd;
            p_parser := fst pn;
            p_values := strip_dummy E (snd fw) (snd pn) |} /\
    tr = tr0 ++ trw ++ tr1 ++ tr2.
Proof.
  intros H. unfold derive_and_parse in H.
  apply bind_inr_inv in H as (tr0 & fd & ta & H0 & H & ->).
  apply bind_inr_inv in H as (trw & fw & tb & Hw & H & ->).
  apply bind_inr_inv in H as (tr1 & pd & tc & H1 & H & ->).
  apply bind_inr_inv in H as (tr2 & pn & tr3 & H2 & H & ->).
  unfold ret in H. injection H as <- <-.
  exists tr0, fd, trw, fw, tr1, pd, tr2, pn. repeat split; try assumption.
  now rewrite List.app_nil_r.
Qed.

Lemma derive_and_parse_completion
    (f : callable) (prog description : option string)
    (args : option (list string)) (default : value) (kw : @PyDict.t value) :
  print_completion (effective_args E args) = true ->
  forall tr st,
    derive_and_parse E f prog description args default kw <> (tr, inr st).
Proof.
  intros Hp tr st H.
  apply derive_and_parse_inv in H
    as (tr0 & fd & trw & fw & tr1 & pd & tr2 & pn & _ & _ & _ & H2 & _).
  exact (run_parser_no_return _ _ _ Hp _ _ H2).
Qed.

(** The run from the keywords to a normal return. *)
Lemma cli_returns
    (f : callable) (prog description : option string)
    (args : option (list string)) (default : value) (kw : @PyDict.t value)
    (tr0 : list event) (fd : callable * value) (trw : list event)
    (fw : callable * bool) (tr1 : list event) (pd : pspec)
    (trb : list event) (p : parser) (tr2 : list event)
    (ns : @PyDict.t value) (tr3 : list event) (out : value)
    (consumed : PySet.t) (tr4 : list event) (v : value) :
  apply_deprecated E f default kw = (tr0, inr fd) ->
  wrap_target E (fst fd) (snd fd) = (trw, inr fw) ->
  from_callable E (fst fw) description [] None
                (default_instance_internal (snd fd)) "" = (tr1, inr pd) ->
  build_parser E prog pd = (trb, inr p) ->
  print_completion (effective_args E args) = false ->
  parse_args E p (effective_args E args) = (tr2, inr ns) ->
  call_from_args E (fst fw) pd (default_instance_internal (snd fd))
                 (strip_dummy E (snd fw) ns) "" = (tr3, inr (out, consumed)) ->
  (forall k, In k (PyDict.keys (strip_dummy E (snd fw) ns)) ->
             In k consumed) ->
  unwrap E (snd fw) out = (tr4, inr v) ->
  cli E f prog description args default kw
  = (tr0 ++ trw ++ tr1
       ++ (Enter ansi_context :: (trb ++ tr2) ++ [Leave ansi_context])
       ++ tr3 ++ tr4,
     inr v).
Proof.
  intros H0 Hw H1 Hb Hc Hp Hcall Hall Hu.
  pose proof (derive_and_parse_after f prog description args default kw
                tr0 fd trw fw tr1 pd H0 Hw H1) as Hd.
  rewrite (run_parser_parsed prog pd _ trb p tr2 (inr ns) Hc Hb Hp) in Hd.
  cbn [fst snd] in Hd.
  rewrite (cli_unfold E _ _ _ _ _ _ _ _ Hd).
  erewrite call_and_return_ok by (cbn [p_f p_definition p_default_instance
                                       p_values]; exact Hcall).
  cbn [p_values p_dummy_wrapped].
  rewrite (proj2 (all_consumed_spec _ consumed) Hall), Hu.
  cbn [fst snd]. now rewrite <- !List.app_assoc.
Qed.

End Stages.

Section Claims.

Context {callable pspec parser formatter : Type}.
Variable E : Env callable pspec parser formatter.

(** C3: [cli] takes the target, [prog], [description], [args] and
    [default].  With an explicit argument sequence [a], [cli] does not
    read [sys.argv]: the run is the same under any process argument
    list, and it is the run [cli] makes without [args] in a process
    started with the arguments [a].  Unless [a] asks for a completion
    script, [parse_args] receives exactly [a]: its exception leaves
    [cli], and when it and the other stages return and every parsed key
    is consumed, [cli] returns the output of the calling phase (its
    wrapped field when the target was wrapped). *)
Theorem explicit_args_replace_argv
    (f : callable) (prog description : option string)
    (a : list string) (default : value) (kw : @PyDict.t value) :
  (forall argv,
     cli (with_argv E argv) f prog description (Some a) default kw
     = cli E f prog description (Some a) default kw) /\
  (forall prog0,
     cli (with_argv E (prog0 :: a)) f prog description None default kw
     = cli E f prog description (Some a) default kw) /\
  (forall tr0 fd trw fw tr1 pd trb p tr2 ns tr3 out consumed tr4 v,
     apply_deprecated E f default kw = (tr0, inr fd) ->
     wrap_target E (fst fd) (snd fd) = (trw, inr fw) ->
     from_callable E (fst fw) description [] None
                   (default_instance_internal (snd fd)) "" = (tr1, inr pd) ->
     build_parser E prog pd = (trb, inr p) ->
     print_completion a = false ->
     parse_args E p a = (tr2, inr ns) ->
     call_from_args E (fst fw) pd (default_instance_internal (snd fd))
                    (strip_dummy E (snd fw) ns) ""
     = (tr3, inr (out, consumed)) ->
     (forall k, In k (PyDict.keys (strip_dummy E (snd fw) ns)) ->
                In k consumed) ->
     unwrap E (snd fw) out = (tr4, inr v) ->
     cli E f prog description (Some a) default kw
     = (tr0 ++ trw ++ tr1
          ++ (Enter ansi_context :: (trb ++ tr2) ++ [Leave ansi_context])
          ++ tr3 ++ tr4,
        inr v)) /\
  (forall tr0 fd trw fw tr1 pd trb p tr2 e,
     apply_deprecated E f default kw = (tr0, inr fd) ->
     wrap_target E (fst fd) (snd fd) = (trw, inr fw) ->
     from_callable E (fst fw) description [] None
                   (default_instance_internal (snd fd)) "" = (tr1, inr pd) ->
     build_parser E prog pd = (trb, inr p) ->
     print_completion a = false ->
     parse_args E p a = (tr2, inl e) ->
     cli E f prog description (Some a) default kw
     = (tr0 ++ trw ++ tr1
          ++ Enter ansi_context :: (trb ++ tr2) ++ [Leave ansi_context],
        inl e)).
Proof.
  split; [|split; [|split]].
  - intros argv. reflexivity.
  - intros prog0. reflexivity.
  - intros tr0 fd trw fw tr1 pd trb p tr2 ns tr3 out consumed tr4 v
           H0 Hw H1 Hb Hc Hp Hcall Hall Hu.
    exact (cli_returns E f prog description (Some a) default kw
             tr0 fd trw fw tr1 pd trb p tr2 ns tr3 out consumed tr4 v
             H0 Hw H1 Hb Hc Hp Hcall Hall Hu).
  - intros tr0 fd trw fw tr1 pd trb p tr2 e H0 Hw H1 Hb Hc Hp.
    unfold cli.
    rewrite (derive_and_parse_after E f prog description (Some a) default kw
               tr0 fd trw fw tr1 pd H0 Hw H1).
    cbn [effective_args].
    rewrite (run_parser_parsed E prog pd a trb p tr2 (inl e) Hc Hb Hp).
    reflexivity.
Qed.


(** C10 (amended): with at least two arguments of which the first is
    [--dcargs-print-completion], [cli] never returns normally and does
    not depend on the calling phase.  Once the keywords are applied, the
    target wrapped or not, the schema derived and the parser built, it
    fails the assertion for a shell other than [bash], [zsh] and
    [tcsh]; for these it calls [shtab.complete] and, if that returns,
    prints the script and raises [SystemExit].  An exception of the
    parser construction or of [shtab.complete] leaves [cli] instead,
    with nothing printed by [cli]. *)
Theorem completion_request
    (f : callable) (prog description : option string)
    (args : option (list string)) (default : value) (kw : @PyDict.t value) :
  (2 <= List.length (effective_args E args))%nat ->
  hd "" (effective_args E args) = completion_flag ->
  (forall v,
     outcome_of (cli E f prog description args default kw) <> inr v) /\
  (forall c,
     cli (with_call_from_args E c) f prog description args default kw
     = cli E f prog description args default kw) /\
  (forall tr0 fd trw fw tr1 pd,
     apply_deprecated E f default kw = (tr0, inr fd) ->
     wrap_target E (fst fd) (snd fd) = (trw, inr fw) ->
     from_callable E (fst fw) description [] None
                   (default_instance_internal (snd fd)) "" = (tr1, inr pd) ->
     let shell := nth 1 (effective_args E args) "" in
     (forall trb e,
        build_parser E prog pd = (trb, inl e) ->
        cli E f prog description args default kw
        = (tr0 ++ trw ++ tr1
             ++ Enter dummy_termcolor_context
                  :: trb ++ [Leave dummy_termcolor_context],
           inl e)) /\
     (forall trb p,
        build_parser E prog pd = (trb, inr p) ->
        (~ In shell completion_shells ->
         cli E f prog description args default kw
         = (tr0 ++ trw ++ tr1
              ++ Enter dummy_termcolor_context
                   :: trb ++ [Leave dummy_termcolor_context],
            inl (AssertionError (BadShell shell)))) /\
        (In shell completion_shells ->
         (forall trs script,
            shtab_complete E p shell ("dcargs_" ++ parser_prog E p)
            = (trs, inr script) ->
            cli E f prog description args default kw
            = (tr0 ++ trw ++ tr1
                 ++ Enter dummy_termcolor_context
                      :: (trb ++ trs ++ [Print script])
                      ++ [Leave dummy_termcolor_context],
               inl (SystemExit None))) /\
         (forall trs e,
            shtab_complete E p shell ("dcargs_" ++ parser_prog E p)
            = (trs, inl e) ->
            cli E f prog description args default kw
            = (tr0 ++ trw ++ tr1
                 ++ Enter dummy_termcolor_context
                      :: (trb ++ trs) ++ [Leave dummy_termcolor_context],
               inl e))))).
Proof.
  intros Hlen Hhd.
  assert (Hp : print_completion (effective_args E args) = true)
    by (apply print_completion_spec; auto).
  assert (Hraise : forall (E' : Env callable pspec parser formatter) tr e,
            derive_and_parse E' f prog description args default kw
            = (tr, inl e) ->
            cli E' f prog description args default kw = (tr, inl e)).
  { intros E' tr e Hd. unfold cli. now rewrite Hd. }
  split; [|split].
  - intros v Hv. unfold outcome_of in Hv.
    destruct (cli E f prog description args default kw) as [tr r] eqn:Hcli.
    simpl in Hv. subst r.
    apply cli_inr_inv in Hcli as (tr1 & st & _ & _ & _ & _ & Hd & _).
    exact (derive_and_parse_completion E f prog description args default kw
             Hp _ _ Hd).
  - intros c.
    destruct (derive_and_parse E f prog description args default kw)
      as [tr [e | st]] eqn:Hd.
    + rewrite (Hraise E tr e Hd). apply Hraise. exact Hd.
    + exfalso.
      exact (derive_and_parse_completion E f prog description args default kw
               Hp _ _ Hd).
  - intros tr0 fd trw fw tr1 pd H0 Hw H1 shell.
    pose proof (derive_and_parse_after E f prog description args default kw
                  tr0 fd trw fw tr1 pd H0 Hw H1) as Hd.
    split.
    + intros trb e Hb.
      rewrite (run_parser_build_fails E prog pd _ trb e Hb), Hp in Hd.
      exact (Hraise E _ _ Hd).
    + intros trb p Hb. split; [|intros Hs; split].
      * intros Hs.
        rewrite (run_parser_bad_shell E prog pd _ trb p Hp Hb Hs) in Hd.
        exact (Hraise E _ _ Hd).
      * intros trs script Hsh.
        rewrite (run_parser_completed E prog pd _ trb p trs (inr script)
                   Hp Hb Hs Hsh) in Hd.
        exact (Hraise E _ _ Hd).
      * intros trs e Hsh.
        rewrite (run_parser_completed E prog pd _ trb p trs (inl e)
                   Hp Hb Hs Hsh) in Hd.
        exact (Hraise E _ _ Hd).
Qed.

End Claims.

(** ** Control flow of [cli]: what is propagated, what is ignored *)

Section ControlFlow.

Context {callable pspec parser formatter : Type}.
Variable E : Env callable pspec parser formatter.

(** The keywords *)

(** X6: [cli] looks at two keys of [**deprecated_kwargs] only, the
    second through its truth value: any other keyword is accepted and
    has no effect, and a false [avoid_subparsers] is as good as none
    (lines 54 and 107-118). *)
Theorem other_keywords_are_ignored
    (f : callable) (prog description : option string)
    (args : option (list string)) (default : value)
    (kw kw' : @PyDict.t value) :
  PyDict.get kw "default_instance" = PyDict.get kw' "default_instance" ->
  avoid_subparsers_set kw = avoid_subparsers_set kw' ->
  cli E f prog description args default kw
  = cli E f prog description args default kw'.
Proof.
  intros Hd Ha. unfold cli, derive_and_parse, apply_deprecated.
  unfold avoid_subparsers_set in Ha. rewrite Hd, Ha. reflexivity.
Qed.

(** Failures before the calling phase *)

(** X7: an exception of schema derivation leaves [cli] as it is, before
    a parser is built: nothing is parsed and the target is not called
    (lines 146-153). *)
Theorem derivation_error_propagates
    (f : callable) (prog description : option string)
    (args : option (list string)) (default : value) (kw : @PyDict.t value)
    (tr0 : list event) (fd : callable * value) (trw : list event)
    (fw : callable * bool) (tr1 : list event) (e : exn) :
  apply_deprecated E f default kw = (tr0, inr fd) ->
  wrap_target E (fst fd) (snd fd) = (trw, inr fw) ->
  from_callable E (fst fw) description [] None
                (default_instance_internal (snd fd)) "" = (tr1, inl e) ->
  cli E f prog description args default kw = (tr0 ++ trw ++ tr1, inl e) /\
  forall pa c,
    cli (with_parse_args (with_call_from_args E c) pa)
        f prog description args default kw
    = cli E f prog description args default kw.
Proof.
  intros H0 Hw H1.
  assert (Hcli : forall E' : Env callable pspec parser formatter,
            apply_deprecated E' f default kw = (tr0, inr fd) ->
            wrap_target E' (fst fd) (snd fd) = (trw, inr fw) ->
            from_callable E' (fst fw) description [] None
                          (default_instance_internal (snd fd)) ""
            = (tr1, inl e) ->
            cli E' f prog description args default kw
            = (tr0 ++ trw ++ tr1, inl e)).
  { intros E' K0 Kw K1. unfold cli.
    now rewrite (proj2 (proj2 (derive_and_parse_stops E' f prog description
                                 args default kw))
                   tr0 fd trw fw tr1 e K0 Kw K1). }
  split; [now apply Hcli|].
  intros pa c. rewrite (Hcli E H0 Hw H1). apply Hcli; assumption.
Qed.

(** X8: an exception of [parse_args] (argparse exits by itself on a
    usage error) leaves [cli] unchanged, after the formatting context is
    left; the target is not called (lines 167-191). *)
Theorem parse_error_propagates
    (f : callable) (prog description : option string)
    (args : option (list string)) (default : value) (kw : @PyDict.t value)
    (tr0 : list event) (fd : callable * value) (trw : list event)
    (fw : callable * bool) (tr1 : list event) (pd : pspec)
    (trb : list event) (p : parser) (tr2 : list event) (e : exn) :
  apply_deprecated E f default kw = (tr0, inr fd) ->
  wrap_target E (fst fd) (snd fd) = (trw, inr fw) ->
  from_callable E (fst fw) description [] None
                (default_instance_internal (snd fd)) "" = (tr1, inr pd) ->
  build_parser E prog pd = (trb, inr p) ->
  print_completion (effective_args E args) = false ->
  parse_args E p (effective_args E args) = (tr2, inl e) ->
  cli E f prog description args default kw
  = (tr0 ++ trw ++ tr1
       ++ Enter ansi_context :: (trb ++ tr2) ++ [Leave ansi_context],
     inl e) /\
  forall c,
    cli (with_call_from_args E c) f prog description args default kw
    = cli E f prog description args default kw.
Proof.
  intros H0 Hw H1 Hb Hc Hp.
  assert (Hcli : forall E' : Env callable pspec parser formatter,
            apply_deprecated E' f default kw = (tr0, inr fd) ->
            wrap_target E' (fst fd) (snd fd) = (trw, inr fw) ->
            from_callable E' (fst fw) description [] None
                          (default_instance_internal (snd fd)) ""
            = (tr1, inr pd) ->
            build_parser E' prog pd = (trb, inr p) ->
            print_completion (effective_args E' args) = false ->
            parse_args E' p (effective_args E' args) = (tr2, inl e) ->
            cli E' f prog description args default kw
            = (tr0 ++ trw ++ tr1
                 ++ Enter ansi_context :: (trb ++ tr2) ++ [Leave ansi_context],
               inl e)).
  { intros E' K0 Kw K1 Kb Kc Kp. unfold cli.
    rewrite (derive_and_parse_after E' f prog description args default kw
               tr0 fd trw fw tr1 pd K0 Kw K1).
    rewrite (run_parser_parsed E' prog pd _ trb p tr2 (inl e) Kc Kb Kp).
    reflexivity. }
  split; [now apply Hcli|].
  intros c. rewrite (Hcli E H0 Hw H1 Hb Hc Hp). apply Hcli; assumption.
Qed.

(** The calling phase *)

(** X9: [cli] catches [InstantiationError] only: any other exception of
    the calling phase leaves [cli] unchanged, and [cli] prints nothing
    of its own (lines 199-213). *)
Theorem other_exceptions_pass_through
    (f : callable) (prog description : option string)
    (args : option (list string)) (default : value) (kw : @PyDict.t value)
    (tr1 : list event) (st : parsed) (tr2 : list event) (e : exn) :
  derive_and_parse E f prog description args default kw = (tr1, inr st) ->
  call_from_args E (p_f st) (p_definition st) (p_default_instance st)
                 (p_values st) "" = (tr2, inl e) ->
  (forall msg, e <> InstantiationError msg) ->
  cli E f prog description args default kw = (tr1 ++ tr2, inl e).
Proof.
  intros Hd Hc Hne. rewrite (cli_unfold E _ _ _ _ _ _ _ _ Hd).
  unfold call_and_return, reconstruct. rewrite Hc.
  destruct e; try reflexivity. now elim (Hne arg0).
Qed.

(** X10: for a nested target nothing is wrapped: the schema is derived
    for the target itself, the calling phase receives the mapping of
    [parse_args] with its keys unchanged, and its output is returned as
    it is.  The formatting context is left before the target is called
    (lines 130-143, 167-191, 193-222). *)
Theorem nested_target_runs_unwrapped
    (f : callable) (prog description : option string)
    (args : option (list string)) (default : value) (kw : @PyDict.t value)
    (tr0 : list event) (f' : callable) (d' : value) (trn tr1 : list event)
    (pd : pspec) (trb : list event) (p : parser) (tr2 : list event)
    (ns : @PyDict.t value) (tr3 : list event) (out : value)
    (consumed : PySet.t) :
  apply_deprecated E f default kw = (tr0, inr (f', d')) ->
  is_nested_type E f' (default_instance_internal d') = (trn, inr true) ->
  from_callable E f' description [] None (default_instance_internal d') ""
  = (tr1, inr pd) ->
  build_parser E prog pd = (trb, inr p) ->
  print_completion (effective_args E args) = false ->
  parse_args E p (effective_args E args) = (tr2, inr ns) ->
  call_from_args E f' pd (default_instance_internal d') ns ""
  = (tr3, inr (out, consumed)) ->
  (forall k, In k (PyDict.keys ns) -> In k consumed) ->
  cli E f prog description args default kw
  = (tr0 ++ trn ++ tr1
       ++ (Enter ansi_context :: (trb ++ tr2) ++ [Leave ansi_context])
       ++ tr3,
     inr out).
Proof.
  intros H0 Hn H1 Hb Hc Hp Hcall Hall.
  pose proof (wrap_target_nested E f' d' trn Hn) as Hw.
  rewrite (cli_returns E f prog description args default kw
             tr0 (f', d') trn (f', false) tr1 pd trb p tr2 ns tr3 out
             consumed [] out H0 Hw H1 Hb Hc Hp Hcall Hall eq_refl).
  now rewrite List.app_nil_r.
Qed.

(** The completion request *)

(** X11: an argument list with fewer than two elements is never a
    completion request, also when its only element is
    [--dcargs-print-completion]: it is parsed like any other (line 158). *)
Theorem short_args_are_parsed (prog : option string) (pd : pspec)
    (a : list string) :
  (List.length a < 2)%nat ->
  run_parser E prog pd a
  = with_context ansi_context
      (bind (build_parser E prog pd) (fun p =>
       bind (parse_args E p a) (fun ns => ret (p, ns)))).
Proof.
  intros H. apply run_parser_parse. unfold print_completion.
  destruct a as [|x [|y a]]; simpl in *; try reflexivity; lia.
Qed.

(** X12: on a completion request only the first two arguments count:
    what follows the shell is never looked at, and [parse_args] is not
    called (lines 158-189). *)
Theorem completion_ignores_the_rest
    (f : callable) (prog description : option string)
    (shell : string) (rest : list string) (default : value)
    (kw : @PyDict.t value) :
  cli E f prog description (Some (completion_flag :: shell :: rest))
      default kw
  = cli E f prog description (Some [completion_flag; shell]) default kw /\
  forall pa,
    cli (with_parse_args E pa) f prog description
        (Some (completion_flag :: shell :: rest)) default kw
    = cli E f prog description (Some (completion_flag :: shell :: rest))
          default kw.
Proof.
  split.
  - assert (Hd : derive_and_parse E f prog description
                   (Some (completion_flag :: shell :: rest)) default kw
                 = derive_and_parse E f prog description
                     (Some [completion_flag; shell]) default kw).
    { unfold derive_and_parse. cbn [effective_args].
      apply bind_ext; intros fd. apply bind_ext; intros fw.
      apply bind_ext; intros pd.
      now rewrite !run_parser_completion by reflexivity. }
    unfold cli. now rewrite Hd.
  - intros pa.
    assert (Hd : derive_and_parse (with_parse_args E pa) f prog description
                   (Some (completion_flag :: shell :: rest)) default kw
                 = derive_and_parse E f prog description
                     (Some (completion_flag :: shell :: rest)) default kw).
    { unfold derive_and_parse. cbn [effective_args].
      apply bind_ext; intros fd. apply bind_ext; intros fw.
      apply bind_ext; intros pd.
      now rewrite !run_parser_completion by reflexivity. }
    unfold cli. rewrite Hd. reflexivity.
Qed.

End ControlFlow.

(** X6, at a misspelt keyword and a false [avoid_subparsers]. *)
Lemma other_keywords_are_ignored_witness :
  PyDict.get [("defualt", VInt 1); ("avoid_subparsers", VInt 0)]
             "default_instance"
  = @PyDict.get value [] "default_instance" /\
  avoid_subparsers_set [("defualt", VInt 1); ("avoid_subparsers", VInt 0)]
  = avoid_subparsers_set [] /\
  cli (fixed_env [] VNone []) tt None None (Some []) VNone
      [("defualt", VInt 1); ("avoid_subparsers", VInt 0)]
  = cli (fixed_env [] VNone []) tt None None (Some []) VNone [].
Proof.
  split; [reflexivity|]. split; [reflexivity|].
  apply (other_keywords_are_ignored (fixed_env [] VNone []));
    reflexivity.
Defined.

(** X7, at a schema derivation that raises. *)
Lemma derivation_error_propagates_witness :
  cli (scripted_env true
         (raise (OtherError "UnsupportedTypeAnnotationError" "x"))
         (ret []) (ret (VNone, [])))
      tt None None (Some ["--dcargs-print-completion"; "bash"]) VNone []
  = ([], inl (OtherError "UnsupportedTypeAnnotationError" "x")).
Proof.
  exact (proj1 (derivation_error_propagates
                  (scripted_env true
                     (raise (OtherError "UnsupportedTypeAnnotationError" "x"))
                     (ret []) (ret (VNone, [])))
                  tt None None (Some ["--dcargs-print-completion"; "bash"])
                  VNone [] [] (tt, VNone) [] (tt, false) []
                  (OtherError "UnsupportedTypeAnnotationError" "x")
                  eq_refl eq_refl eq_refl)).
Defined.

(** X8, at a parser that reports a usage error and exits with status 2. *)
Lemma parse_error_propagates_witness :
  cli (scripted_env true (ret tt)
         ([Stderr "usage: prog"], inl (SystemExit (Some 2%Z)))
         (ret (VNone, [])))
      tt None None (Some ["--bogus"]) VNone []
  = ([Enter ansi_context; Stderr "usage: prog"; Leave ansi_context],
     inl (SystemExit (Some 2%Z))).
Proof.
  exact (proj1 (parse_error_propagates
                  (scripted_env true (ret tt)
                     ([Stderr "usage: prog"], inl (SystemExit (Some 2%Z)))
                     (ret (VNone, [])))
                  tt None None (Some ["--bogus"]) VNone []
                  [] (tt, VNone) [] (tt, false) [] tt [] tt
                  [Stderr "usage: prog"] (SystemExit (Some 2%Z))
                  eq_refl eq_refl eq_refl eq_refl eq_refl eq_refl)).
Defined.

(** X9, at a target that raises [ValueError]. *)
Lemma other_exceptions_pass_through_witness :
  cli (scripted_env true (ret tt) (ret [])
         ([], inl (OtherError "ValueError" "boom")))
      tt None None (Some []) VNone []
  = ([Enter ansi_context; Leave ansi_context],
     inl (OtherError "ValueError" "boom")).
Proof.
  refine (other_exceptions_pass_through
            (scripted_env true (ret tt) (ret [])
               ([], inl (OtherError "ValueError" "boom")))
            tt None None (Some []) VNone []
            [Enter ansi_context; Leave ansi_context]
            {| p_f := tt; p_dummy_wrapped := false;
               p_default_instance := VMissing MISSING_NONPROP;
               p_definition := tt; p_parser := tt; p_values := [] |}
            [] (OtherError "ValueError" "boom") eq_refl eq_refl _).
  intros msg; discriminate.
Defined.

(** X10, at a nested target with one parsed value. *)
Lemma nested_target_runs_unwrapped_witness :
  cli (scripted_env true (ret tt) (ret [("x", VInt 1)])
         ([Print "called"], inr (VInt 1, ["x"])))
      tt None None (Some ["--x"; "1"]) VNone []
  = ([Enter ansi_context; Leave ansi_context; Print "called"],
     inr (VInt 1)).
Proof.
  refine (nested_target_runs_unwrapped
            (scripted_env true (ret tt) (ret [("x", VInt 1)])
               ([Print "called"], inr (VInt 1, ["x"])))
            tt None None (Some ["--x"; "1"]) VNone []
            [] tt VNone [] [] tt [] tt [] [("x", VInt 1)] [Print "called"]
            (VInt 1) ["x"] eq_refl eq_refl eq_refl eq_refl eq_refl eq_refl
            eq_refl _).
  intros k [<- | []]. now left.
Defined.

(** X11, at the completion flag alone. *)
Lemma short_args_are_parsed_witness :
  (List.length [completion_flag] < 2)%nat /\
  run_parser (fixed_env [] VNone []) None tt [completion_flag]
  = ([Enter ansi_context; Leave ansi_context], inr (tt, [])).
Proof.
  split; [simpl; lia|].
  apply (short_args_are_parsed (fixed_env [] VNone []) None tt
           [completion_flag]).
  simpl; lia.
Defined.

(** ** The keys of a wrapped target (lines 193-197) *)

(** X13: with the synthetic field name as a prefix and nowhere else, a
    key loses exactly that prefix (line 195). *)
Theorem prefixed_key_is_stripped (old rest : string) :
  old <> "" ->
  occurs old rest = false ->
  PyStr.replace (old ++ rest) old "" = rest.
Proof.
  intros Hne Hno. rewrite (replace_prefix old "" rest Hne).
  now rewrite (replace_absent rest old "" Hno).
Qed.

Section DictComprehension.
Context {V : Type}.

Lemma get_set (d : @PyDict.t V) (k : string) (v : V) (k' : string) :
  PyDict.get (PyDict.set d k v) k'
  = if String.eqb k k' then Some v else PyDict.get d k'.
Proof.
  induction d as [|[k0 v0] d IH]; cbn [PyDict.set PyDict.get].
  - reflexivity.
  - destruct (String.eqb k0 k) eqn:E0; cbn [PyDict.get].
    + apply String.eqb_eq in E0. subst k0.
      destruct (String.eqb k k'); reflexivity.
    + destruct (String.eqb k0 k') eqn:E1.
      * apply String.eqb_eq in E1. subst k'.
        rewrite String.eqb_sym, E0. reflexivity.
      * exact IH.
Qed.

Lemma last_under_cons (key : string -> string) (x : string * V)
    (d : @PyDict.t V) (k : string) :
  last_under key (x :: d) k
  = match last_under key d k with
    | Some v => Some v
    | None => if String.eqb (key (fst x)) k then Some (snd x) else None
    end.
Proof.
  unfold last_under. cbn [rev].
  induction (rev d) as [|y l IH]; cbn [app find].
  - destruct (String.eqb (key (fst x)) k); reflexivity.
  - destruct (String.eqb (key (fst y)) k); [reflexivity | exact IH].
Qed.

Lemma get_rekey_acc (key : string -> string) (d acc : @PyDict.t V)
    (k : string) :
  PyDict.get
    (fold_left (fun a kv => PyDict.set a (key (fst kv)) (snd kv)) d acc) k
  = match last_under key d k with
    | Some v => Some v
    | None => PyDict.get acc k
    end.
Proof.
  revert acc. induction d as [|x d IH]; intros acc; [reflexivity|].
  cbn [fold_left]. rewrite IH, last_under_cons, get_set.
  destruct (last_under key d k); [reflexivity|].
  destruct (String.eqb (key (fst x)) k); reflexivity.
Qed.

Lemma get_rekey (key : string -> string) (d : @PyDict.t V) (k : string) :
  PyDict.get (PyDict.rekey key d) k = last_under key d k.
Proof.
  unfold PyDict.rekey. rewrite get_rekey_acc.
  destruct (last_under key d k); reflexivity.
Qed.

Lemma set_fresh (d : @PyDict.t V) (k : string) (v : V) :
  ~ In k (PyDict.keys d) -> PyDict.set d k v = d ++ [(k, v)].
Proof.
  induction d as [|[k0 v0] d IH]; intros H; [reflexivity|].
  cbn [PyDict.set]. destruct (String.eqb k0 k) eqn:E0.
  - apply String.eqb_eq in E0. subst k0. elim H. now left.
  - cbn [app]. rewrite IH; [reflexivity|]. intros Hi. apply H. now right.
Qed.

Lemma rekey_fixed_acc (key : string -> string) (d acc : @PyDict.t V) :
  NoDup (PyDict.keys (acc ++ d)) ->
  (forall k, In k (PyDict.keys d) -> key k = k) ->
  fold_left (fun a kv => PyDict.set a (key (fst kv)) (snd kv)) d acc
  = acc ++ d.
Proof.
  revert acc. induction d as [|[k v] d IH]; intros acc Hnd Hkey.
  - now rewrite List.app_nil_r.
  - cbn [fold_left fst snd].
    rewrite (Hkey k) by now left.
    assert (Hfresh : ~ In k (PyDict.keys acc)).
    { unfold PyDict.keys in *. rewrite map_app in Hnd. cbn [map fst] in Hnd.
      apply NoDup_remove_2 in Hnd. intros Hi. apply Hnd.
      apply in_or_app. now left. }
    rewrite (set_fresh acc k v Hfresh).
    rewrite IH.
    + now rewrite <- List.app_assoc.
    + now rewrite <- List.app_assoc.
    + intros k' Hk'. apply Hkey. now right.
Qed.

Lemma rekey_fixed (key : string -> string) (d : @PyDict.t V) :
  NoDup (PyDict.keys d) ->
  (forall k, In k (PyDict.keys d) -> key k = k) ->
  PyDict.rekey key d = d.
Proof. intros Hnd Hkey. unfold PyDict.rekey. now rewrite rekey_fixed_acc. Qed.

End DictComprehension.

Section Stripping.

Context {callable pspec parser formatter : Type}.
Variable E : Env callable pspec parser formatter.

(** X14: a mapping in which no key contains the synthetic field name
    goes through the rewriting of a wrapped target unchanged, order
    included (lines 193-197). *)
Theorem unrelated_keys_survive (ns : @PyDict.t value) :
  NoDup (PyDict.keys ns) ->
  (forall k, In k (PyDict.keys ns) -> occurs (dummy_field_name E) k = false) ->
  strip_dummy E true ns = ns.
Proof.
  intros Hnd Hno. unfold strip_dummy. apply rekey_fixed; [exact Hnd|].
  intros k Hk. apply replace_absent. now apply Hno.
Qed.

(** X15: after the rewriting, a key holds the value of the last parsed
    entry that is rewritten to it: entries whose keys become equal are
    merged, and the later one wins (lines 193-197). *)
Theorem stripped_lookup (ns : @PyDict.t value) (k : string) :
  PyDict.get (strip_dummy E true ns) k
  = last_under (fun k0 => PyStr.replace k0 (dummy_field_name E) "") ns k.
Proof. unfold strip_dummy. apply get_rekey. Qed.

End Stripping.

(** X13, at a key below the synthetic field. *)
Lemma prefixed_key_is_stripped_witness :
  "__dcargs_dummy_field_name__" <> "" /\
  occurs "__dcargs_dummy_field_name__" ".x" = false /\
  PyStr.replace ("__dcargs_dummy_field_name__" ++ ".x")
                "__dcargs_dummy_field_name__" "" = ".x".
Proof.
  split; [discriminate|]. split; [reflexivity|].
  apply (prefixed_key_is_stripped "__dcargs_dummy_field_name__" ".x");
    [discriminate | reflexivity].
Defined.

(** X14, at two ordinary keys. *)
Lemma unrelated_keys_survive_witness :
  strip_dummy (fixed_env [] VNone []) true [("x", VInt 1); ("y", VInt 2)]
  = [("x", VInt 1); ("y", VInt 2)].
Proof.
  apply (unrelated_keys_survive (fixed_env [] VNone [])
           [("x", VInt 1); ("y", VInt 2)]).
  - repeat constructor; simpl; intuition discriminate.
  - intros k [<- | [<- | []]]; reflexivity.
Defined.

Section Deprecated.

Context {callable pspec parser formatter : Type}.
Variable E : Env callable pspec parser formatter.

Lemma bind_ret_l {A B} (a : A) (k : A -> M B) : bind (ret a) k = k a.
Proof. unfold ret, bind. destruct (k a). reflexivity. Qed.

Lemma bind_prefix {A B} (tr0 : list event) (m : M A) (k : A -> M B) :
  bind (tr0 ++ fst m, snd m) k
  = (tr0 ++ fst (bind m k), snd (bind m k)).
Proof.
  destruct m as [tr1 [e | a]]; cbn [bind fst snd]; [reflexivity|].
  destruct (k a) as [tr2 r]. cbn [fst snd]. now rewrite List.app_assoc.
Qed.

(** Lines 107-118 first, then the rest as without keywords. *)
Lemma cli_after_keywords
    (f f' : callable) (prog description : option string)
    (args : option (list string)) (default d' : value)
    (kw : @PyDict.t value) (tr0 : list event) :
  apply_deprecated E f default kw = (tr0, inr (f', d')) ->
  cli E f prog description args default kw
  = (tr0 ++ fst (cli E f' prog description args d' []),
     snd (cli E f' prog description args d' [])).
Proof.
  intros H. unfold cli, derive_and_parse. rewrite H.
  change (apply_deprecated E f' d' []) with (@ret (callable * value) (f', d')).
  rewrite bind_ret_l.
  set (K1 := fun fd : callable * value => _).
  set (K2 := fun st : parsed => _).
  replace (bind (tr0, inr (f', d')) K1)
    with (tr0 ++ fst (K1 (f', d')), snd (K1 (f', d')))
    by (simpl; now destruct (K1 (f', d'))).
  exact (bind_prefix tr0 (K1 (f', d')) K2).
Qed.

(** X2: the deprecated keyword [default_instance=] warns and then acts as
    [default=] (lines 107-111). *)
Theorem deprecated_default_instance
    (f : callable) (prog description : option string)
    (args : option (list string)) (default d' : value) :
  cli E f prog description args default [("default_instance", d')]
  = (Warn warn_default_instance :: fst (cli E f prog description args d' []),
     snd (cli E f prog description args d' [])).
Proof.
  apply (cli_after_keywords f f prog description args default d'
           [("default_instance", d')] [Warn warn_default_instance]).
  reflexivity.
Qed.

(** X3: the deprecated keyword [avoid_subparsers=True] takes
    [conf.AvoidSubcommands[f]], warns, and then acts on that target
    (lines 112-118). *)
Theorem deprecated_avoid_subparsers
    (f : callable) (prog description : option string)
    (args : option (list string)) (default : value)
    (tra : list event) (f' : callable) :
  AvoidSubcommands E f = (tra, inr f') ->
  cli E f prog description args default [("avoid_subparsers", VBool true)]
  = (tra ++ Warn warn_avoid_subparsers
       :: fst (cli E f' prog description args default []),
     snd (cli E f' prog description args default [])).
Proof.
  intros Ha.
  rewrite (cli_after_keywords f f' prog description args default default
             [("avoid_subparsers", VBool true)]
             (tra ++ [Warn warn_avoid_subparsers])).
  - now rewrite <- List.app_assoc.
  - unfold apply_deprecated. cbn [PyDict.get String.eqb Ascii.eqb Bool.eqb
                                  truthy bind ret].
    rewrite Ha. cbn. now rewrite List.app_nil_r.
Qed.

(** X4: without [args], the process arguments after the program name
    are parsed (line 157). *)
Theorem argv_is_the_fallback
    (f : callable) (prog description : option string)
    (default : value) (kw : @PyDict.t value) :
  cli E f prog description None default kw
  = cli E f prog description (Some (tl (sys_argv E))) default kw.
Proof. reflexivity. Qed.

End Deprecated.


(** ** The deprecated keywords together *)

Section BothKeywords.

Context {callable pspec parser formatter : Type}.
Variable E : Env callable pspec parser formatter.

(** X22: with both deprecated keywords, the warning for
    [default_instance=] comes first, then [conf.AvoidSubcommands[f]] is
    taken and the warning for [avoid_subparsers=] follows; [cli] goes on
    with that target and the given instance as [default]; a [default=]
    given as well is dropped (lines 107-118). *)
Theorem both_deprecated_keywords
    (f : callable) (prog description : option string)
    (args : option (list string)) (default d' : value)
    (kw : @PyDict.t value) (tra : list event) (f' : callable) :
  PyDict.get kw "default_instance" = Some d' ->
  avoid_subparsers_set kw = true ->
  AvoidSubcommands E f = (tra, inr f') ->
  cli E f prog description args default kw
  = (Warn warn_default_instance
       :: tra ++ Warn warn_avoid_subparsers
       :: fst (cli E f' prog description args d' []),
     snd (cli E f' prog description args d' [])).
Proof.
  intros Hd Ha Hf.
  rewrite (cli_after_keywords E f f' prog description args default d' kw
             (Warn warn_default_instance
                :: tra ++ [Warn warn_avoid_subparsers])).
  - cbn [app]. now rewrite <- List.app_assoc.
  - unfold apply_deprecated. unfold avoid_subparsers_set in Ha.
    rewrite Hd, Ha. cbn [bind emit ret]. rewrite Hf. cbn.
    now rewrite List.app_nil_r.
Qed.

End BothKeywords.

(** X3, at collaborators that take the marked target without more ado. *)
Lemma deprecated_avoid_subparsers_witness :
  cli (fixed_env [] VNone []) tt None None (Some []) VNone
      [("avoid_subparsers", VBool true)]
  = ([Warn warn_avoid_subparsers; Enter ansi_context; Leave ansi_context],
     inr VNone).
Proof.
  exact (deprecated_avoid_subparsers (fixed_env [] VNone []) tt None None
           (Some []) VNone [] tt eq_refl).
Defined.

(** X22, at both keywords and a [default=] that is dropped. *)
Lemma both_deprecated_keywords_witness :
  cli (fixed_env [] VNone []) tt None None (Some []) (VInt 7)
      [("avoid_subparsers", VStr "yes"); ("default_instance", VInt 1)]
  = (Warn warn_default_instance :: Warn warn_avoid_subparsers
       :: fst (cli (fixed_env [] VNone []) tt None None (Some []) (VInt 1) []),
     snd (cli (fixed_env [] VNone []) tt None None (Some []) (VInt 1) [])).
Proof.
  exact (both_deprecated_keywords (fixed_env [] VNone []) tt None None
           (Some []) (VInt 7) (VInt 1)
           [("avoid_subparsers", VStr "yes"); ("default_instance", VInt 1)]
           [] tt eq_refl eq_refl eq_refl).
Defined.

(** ** Registry scopes *)

Import Schema.

Section SessionFacts.

Variable dummy : string.
Variable argv : list string.

Lemma block_is_run_block (body : list cmd) (reg : registry) :
  (fix block (body : list cmd) (reg : registry) : session :=
     match body with
     | [] => {| results := []; raised := None; final := reg |}
     | c :: r =>
         let s1 := run dummy argv c reg in
         match raised s1 with
         | Some _ => s1
         | None =>
             let s2 := block r (final s1) in
             {| results := results s1 ++ results s2;
                raised := raised s2;
                final := final s2 |}
         end
     end) body reg
  = run_block dummy argv body reg.
Proof.
  revert reg. induction body as [|c body IH]; intros reg; [reflexivity|].
  simpl. destruct (raised (run dummy argv c reg)); [reflexivity|].
  now rewrite IH.
Qed.

Lemma run_with_registry (rules : list rule) (body : list cmd) (reg : registry) :
  run dummy argv (WithRegistry rules body) reg
  = {| results := results (run_block dummy argv body (enter_scope rules reg));
       raised := raised (run_block dummy argv body (enter_scope rules reg));
       final := exit_scope
                  (final (run_block dummy argv body (enter_scope rules reg))) |}.
Proof.
  simpl. now rewrite block_is_run_block.
Qed.

Lemma run_block_tl (body : list cmd) :
  Forall (fun c => forall reg, tl (final (run dummy argv c reg)) = tl reg) body ->
  forall reg, tl (final (run_block dummy argv body reg)) = tl reg.
Proof.
  induction 1 as [|c body Hc _ IH]; intros reg; [reflexivity|].
  simpl. destruct (raised (run dummy argv c reg)).
  - apply Hc.
  - simpl. rewrite IH. apply Hc.
Qed.

Lemma run_tl (c : cmd) :
  forall reg, tl (final (run dummy argv c reg)) = tl reg.
Proof.
  induction c using cmd_ind'; intros reg.
  - reflexivity.
  - destruct reg; reflexivity.
  - rewrite run_with_registry. simpl final. unfold exit_scope.
    rewrite (run_block_tl body H). reflexivity.
  - reflexivity.
Qed.

Lemma scope_restores (rules : list rule) (body : list cmd) (reg : registry) :
  final (run dummy argv (WithRegistry rules body) reg) = reg.
Proof.
  rewrite run_with_registry. simpl final. unfold exit_scope.
  rewrite run_block_tl; [reflexivity|].
  apply Forall_forall. intros c _. apply run_tl.
Qed.

Lemma active_rules_enter (rules : list rule) (reg : registry) :
  active_rules (enter_scope rules reg) = active_rules reg ++ rules.
Proof.
  unfold active_rules, enter_scope. simpl. rewrite concat_app. simpl.
  now rewrite List.app_nil_r.
Qed.

(** C4: the rules of a scope are active, after the rules of the
    enclosing scopes, for the derivations run inside it; when the scope
    is left, normally or by an exception, the registry is what it was
    before, so a later call of [cli] runs as if the rules had never been
    registered. *)
Theorem registry_is_scoped (rules : list rule) (body : list cmd)
    (reg : registry) :
  active_rules (enter_scope rules reg) = active_rules reg ++ rules /\
  (forall f args default rest,
     hd_error (results (run dummy argv
                          (WithRegistry rules (RunCli f args default :: rest))
                          reg))
     = Some (cli (env (enter_scope rules reg) dummy argv)
                 f None None (Some args) default [])) /\
  final (run dummy argv (WithRegistry rules body) reg) = reg /\
  (forall e rest,
     raised (run dummy argv (WithRegistry rules (Throw e :: rest)) reg)
     = Some e /\
     final (run dummy argv (WithRegistry rules (Throw e :: rest)) reg) = reg) /\
  (forall f args default,
     run dummy argv (RunCli f args default)
         (final (run dummy argv (WithRegistry rules body) reg))
     = run dummy argv (RunCli f args default) reg).
Proof.
  split; [apply active_rules_enter|]. split; [|split; [|split]].
  - intros f args default rest. rewrite run_with_registry. simpl.
    destruct (raised_by _); reflexivity.
  - apply scope_restores.
  - intros e rest. split; [|apply scope_restores].
    rewrite run_with_registry. reflexivity.
  - intros f args default. now rewrite scope_restores.
Qed.

End SessionFacts.

(** ** Default propagation in the builder *)

Lemma rbind_ok {A B} (m : res A) (k : A -> res B) (b : B) :
  rbind m k = Ok b -> exists a, m = Ok a /\ k a = Ok b.
Proof. destruct m; simpl; intros H; try discriminate. eauto. Qed.

Section BuilderFacts.

Variable rules : list rule.
Variable dummy : string.

Local Abbreviation build_field := (build_field rules dummy).
Local Abbreviation build_fields := (build_fields rules dummy).
Local Abbreviation status_follows := (status_follows rules dummy).
Local Abbreviation defaults_follow := (defaults_follow rules dummy).

Lemma build_field_struct (prefix : list string) (inst : value) (name : string)
    (declared : option value) (c : constructor) (fields : list (field_of ty)) :
  build_field prefix inst name declared (TStruct c fields)
  = rbind (build_fields (prefix ++ [name])
             (instance_of (effective_default declared inst name)) fields)
      (fun children =>
         Ok (Group {| fs_name := name;
                      fs_path := prefix ++ [name];
                      fs_default := effective_default declared inst name;
                      fs_required :=
                        is_required (effective_default declared inst name) |}
                   c children)).
Proof.
  simpl. f_equal.
  induction fields as [|f fields IH]; [reflexivity|].
  simpl. now rewrite IH.
Qed.

Lemma build_field_leaf (prefix : list string) (inst : value) (name : string)
    (declared : option value) (t : ty) :
  (forall c fields, t <> TStruct c fields) ->
  (forall t', t <> TAvoidSubcommands t') ->
  build_field prefix inst name declared t
  = rbind (resolve_spec rules t)
      (fun cs =>
         Ok (Leaf {| fs_name := name;
                     fs_path := prefix ++ [name];
                     fs_default := effective_default declared inst name;
                     fs_required :=
                       is_required (effective_default declared inst name) |}
                  cs (leaf_kind dummy name t declared))).
Proof.
  intros Hs Ha. destruct t; try reflexivity.
  - exfalso. now apply (Ha t).
  - exfalso. now apply (Hs c fields).
Qed.


(** Status *)

Lemma build_fields_status (fields : list (field_of ty)) :
  Forall (fun f => status_follows (f_type f)) fields ->
  forall prefix inst ns,
    build_fields prefix inst fields = Ok ns ->
    Forall status_of_default (flat_map leaves ns).
Proof.
  induction 1 as [|f fields Hf _ IH]; intros prefix inst ns Hb.
  - simpl in Hb. injection Hb as <-. constructor.
  - simpl in Hb.
    apply rbind_ok in Hb as (n & Hn & Hb).
    apply rbind_ok in Hb as (ns0 & Hns & Hb). injection Hb as <-.
    simpl. apply Forall_app. split.
    + apply (Hf prefix inst _ _ n Hn).
    + apply (IH prefix inst ns0 Hns).
Qed.

Lemma build_field_status (t : ty) : status_follows t.
Proof.
  induction t using ty_ind'; intros prefix inst name declared n Hb;
    try (rewrite build_field_leaf in Hb by discriminate;
         apply rbind_ok in Hb as (cs & Hcs & Hb); injection Hb as <-;
         simpl; constructor; [reflexivity | constructor]).
  - simpl in Hb. injection Hb as <-.
    simpl; constructor; [reflexivity | constructor].
  - simpl in Hb. apply (IHt prefix inst name declared n Hb).
  - rewrite build_field_struct in Hb.
    apply rbind_ok in Hb as (ns & Hns & Hb). injection Hb as <-.
    simpl. exact (build_fields_status fields H _ _ ns Hns).
Qed.

(** A path that is shown as required carries no default. *)
Theorem build_required (target : ty) (inst : value) (prefix : list string)
    (n : node) :
  build rules dummy target inst prefix = Ok n ->
  forall path,
    In path (required_paths n) -> In (path, Required) (leaf_defaults n).
Proof.
  unfold build. destruct (strip target); try discriminate.
  intros Hb. apply rbind_ok in Hb as (ns & Hns & Hb). injection Hb as <-.
  pose proof (build_fields_status fields
                (proj2 (Forall_forall _ _)
                       (fun f _ => build_field_status (f_type f)))
                prefix inst ns Hns) as Hall.
  intros path Hin. unfold required_paths in Hin. simpl in Hin.
  apply in_map_iff in Hin as (l & <- & Hin).
  apply filter_In in Hin as [Hin Hreq].
  rewrite Forall_forall in Hall. specialize (Hall l Hin).
  unfold status_of_default in Hall. rewrite Hreq in Hall.
  unfold leaf_defaults. simpl. apply in_map_iff. exists l.
  split; [|exact Hin].
  destruct (fs_default (fst (fst l))); [reflexivity | discriminate Hall].
Qed.

(** Defaults *)


Lemma lookup_cons (inst : value) (name : string) (rel : list string) (v : value) :
  lookup_path inst (name :: rel) = Some v ->
  exists v0, instance_field inst name = Some v0 /\ lookup_path v0 rel = Some v.
Proof.
  simpl. destruct (instance_field inst name) as [v0|]; [|discriminate].
  intros H. eauto.
Qed.

Lemma build_fields_defaults (fields : list (field_of ty)) :
  Forall (fun f => defaults_follow (f_type f)) fields ->
  forall prefix inst ns,
    build_fields prefix inst fields = Ok ns ->
    Forall (overridden inst prefix) (flat_map leaves ns).
Proof.
  induction 1 as [|f fields Hf _ IH]; intros prefix inst ns Hb.
  - simpl in Hb. injection Hb as <-. constructor.
  - simpl in Hb.
    apply rbind_ok in Hb as (n & Hn & Hb).
    apply rbind_ok in Hb as (ns0 & Hns & Hb). injection Hb as <-.
    simpl. apply Forall_app. split.
    + apply (Hf prefix inst _ _ n Hn).
    + apply (IH prefix inst ns0 Hns).
Qed.

Lemma leaf_overridden (prefix : list string) (inst : value) (name : string)
    (declared : option value) (req : bool) (cs : ConstructorSpec)
    (kind : arg_kind) :
  overridden inst prefix
    ({| fs_name := name; fs_path := prefix ++ [name];
        fs_default := effective_default declared inst name;
        fs_required := req |}, cs, kind).
Proof.
  exists [name]. split; [reflexivity|].
  intros v Hv. apply lookup_cons in Hv as (v0 & H0 & Hv).
  simpl in Hv. injection Hv as <-. simpl.
  unfold effective_default. now rewrite H0.
Qed.

Lemma build_field_defaults (t : ty) : defaults_follow t.
Proof.
  induction t using ty_ind'; intros prefix inst name declared n Hb;
    try (rewrite build_field_leaf in Hb by discriminate;
         apply rbind_ok in Hb as (cs & Hcs & Hb); injection Hb as <-;
         simpl; constructor; [apply leaf_overridden | constructor]).
  - simpl in Hb. injection Hb as <-.
    simpl; constructor; [apply leaf_overridden | constructor].
  - simpl in Hb. apply (IHt prefix inst name declared n Hb).
  - rewrite build_field_struct in Hb.
    apply rbind_ok in Hb as (ns & Hns & Hb). injection Hb as <-.
    simpl.
    pose proof (build_fields_defaults fields H _ _ ns Hns) as Hall.
    eapply Forall_impl; [|exact Hall].
    intros l (rel & Hp & Hv). exists (name :: rel). split.
    + rewrite Hp. now rewrite <- List.app_assoc.
    + intros v Hl. apply lookup_cons in Hl as (v0 & H0 & Hl).
      apply Hv. unfold effective_default. rewrite H0. exact Hl.
Qed.

Theorem build_defaults (target : ty) (inst : value) (n : node) :
  build rules dummy target inst [] = Ok n ->
  forall path d,
    In (path, d) (leaf_defaults n) ->
    forall v, lookup_path inst path = Some v -> d = HasValue v.
Proof.
  unfold build. destruct (strip target); try discriminate.
  intros Hb. apply rbind_ok in Hb as (ns & Hns & Hb). injection Hb as <-.
  pose proof (build_fields_defaults fields
                (proj2 (Forall_forall _ _)
                       (fun f _ => build_field_defaults (f_type f)))
                [] inst ns Hns) as Hall.
  intros path d Hin v Hv. unfold leaf_defaults in Hin. simpl in Hin.
  apply in_map_iff in Hin as (l & El & Hin). injection El as <- <-.
  rewrite Forall_forall in Hall.
  destruct (Hall l Hin) as (rel & Hp & Hd). simpl in Hp.
  apply Hd. now rewrite <- Hp.
Qed.

End BuilderFacts.

(** ** The scenarios of the examples and of the test-suite *)

Import Examples.

(** C5: with the rule of the test active, [cli] on [main] turns the single
    token after [--x], when it holds a JSON object, into that mapping;
    with no user rule active the same target fails schema derivation
    with the no-matching-rule error, whatever the arguments. *)
Theorem json_rule_parses_token (tok : string) (d : list (value * value)) :
  Json.loads tok = Ok (VDict d) ->
  cli json_env main None None (Some ["--x"; tok]) VNone []
  = ([Enter ansi_context; Leave ansi_context], inr (VDict d)) /\
  results (run dummy argv
             (WithRegistry [json_dict_spec] [RunCli main ["--x"; tok] VNone])
             [])
  = [([Enter ansi_context; Leave ansi_context], inr (VDict d))] /\
  forall args,
    cli plain_env main None None args VNone []
    = ([], inl (OtherError "SchemaError" no_matching_rule)).
Proof.
  intros H.
  assert (Hcli : cli json_env main None None (Some ["--x"; tok]) VNone []
                 = ([Enter ansi_context; Leave ansi_context], inr (VDict d))).
  { cbv -[Json.loads]. rewrite H. reflexivity. }
  split; [exact Hcli|]. split.
  - rewrite run_with_registry. simpl results.
    change (cli (env (enter_scope [json_dict_spec] []) dummy argv) main None None
              (Some ["--x"; tok]) VNone [])
      with (cli json_env main None None (Some ["--x"; tok]) VNone []).
    rewrite Hcli. reflexivity.
  - intros args. reflexivity.
Qed.

(** C1, at the two flags of the example. *)
Lemma no_leftover_or_abort_witness :
  exists tr1 st tr2 out consumed,
    derive_and_parse plain_env Flags None None
      (Some ["--flag-a"; "--no-flag-b"]) VNone [] = (tr1, inr st) /\
    call_from_args plain_env (p_f st) (p_definition st)
      (p_default_instance st) (p_values st) "" = (tr2, inr (out, consumed)) /\
    (((exists k, In k (PyDict.keys (p_values st)) /\ ~ In k consumed) ->
      cli plain_env Flags None None (Some ["--flag-a"; "--no-flag-b"]) VNone []
      = (tr1 ++ tr2,
         inl (AssertionError
                (Unconsumed (PyDict.keys (p_values st)) consumed)))) /\
     (forall v,
        outcome_of (cli plain_env Flags None None
                      (Some ["--flag-a"; "--no-flag-b"]) VNone []) = inr v ->
        forall k, In k (PyDict.keys (p_values st)) -> In k consumed)).
Proof.
  eexists _, _, _, _, _.
  split; [vm_compute; reflexivity|].
  split; [vm_compute; reflexivity|].
  eapply (no_leftover_or_abort plain_env Flags None None
            (Some ["--flag-a"; "--no-flag-b"]) VNone []);
    vm_compute; reflexivity.
Defined.

(** C1 as stated fails: a calling phase that reports a consumed keyword
    absent from the parsed mapping passes the assertion, and [cli]
    returns normally with two different sets. *)
Lemma consumed_may_exceed_parsed :
  ~ consumes_exactly (fixed_env [("x", VStr "1")] (VInt 1) ["x"; "y"])
      tt None None (Some []) VNone [].
Proof.
  intros H.
  specialize (H _ _ _ _ _ (VInt 1) eq_refl eq_refl eq_refl "y").
  simpl in H. destruct H as [H _].
  destruct (H (or_intror (or_introl eq_refl))) as [E | []].
  discriminate E.
Qed.

(** C2: a token that is no integer, for a required integer: the usage,
    an empty line and the message are printed, and [SystemExit] is
    raised without a code, which is exit status 0. *)
Theorem reconstruction_failure_exits_zero :
  cli plain_env count None None (Some ["--x"; "abc"]) VNone []
  = ([Enter ansi_context; Leave ansi_context;
      Print "usage: prog.py --x INT";
      Print "";
      Print "ConversionError: x: invalid literal for int(): abc"],
     inl (SystemExit None)) /\
  exit_status None = 0%Z.
Proof. split; vm_compute; reflexivity. Qed.







(** C8: two boolean fields with defaults [False] and [True] become
    flags, and [--flag-a --no-flag-b] reconstructs to [flag_a = True],
    [flag_b = False]. *)
Theorem flags_scenario (cls : string) (argv' : list string) :
  let target :=
    TStruct (Instantiate cls)
      [field "flag_a" TBool (Some (VBool false));
       field "flag_b" TBool (Some (VBool true))] in
  (exists tr s,
     derived_schema (env [] dummy argv') target VNone = (tr, inr s) /\
     map (fun l => (fs_name (fst (fst l)), snd l)) (leaves (ps_root s))
     = [("flag_a", Flag); ("flag_b", Flag)]) /\
  cli (env [] dummy argv') target None None
      (Some ["--flag-a"; "--no-flag-b"]) VNone []
  = ([Enter ansi_context; Leave ansi_context],
     inr (VObj cls [("flag_a", VBool true); ("flag_b", VBool false)])).
Proof.
  split; [|reflexivity].
  eexists _, _. split; reflexivity.
Qed.

(** C5, at the token of the test. *)
Lemma json_rule_parses_token_witness :
  Json.loads a1_token = Ok (VDict [(VStr "a", VInt 1)]) /\
  (cli json_env main None None (Some ["--x"; a1_token]) VNone []
   = ([Enter ansi_context; Leave ansi_context],
      inr (VDict [(VStr "a", VInt 1)])) /\
   results (run dummy argv
              (WithRegistry [json_dict_spec]
                 [RunCli main ["--x"; a1_token] VNone]) [])
   = [([Enter ansi_context; Leave ansi_context],
       inr (VDict [(VStr "a", VInt 1)]))] /\
   forall args,
     cli plain_env main None None args VNone []
     = ([], inl (OtherError "SchemaError" no_matching_rule))).
Proof.
  split; [vm_compute; reflexivity|].
  apply (json_rule_parses_token a1_token [(VStr "a", VInt 1)]).
  vm_compute; reflexivity.
Defined.

(** C3, at the two flags of the example. *)
Lemma explicit_args_replace_argv_witness :
  cli plain_env Flags None None (Some ["--flag-a"; "--no-flag-b"]) VNone []
  = ([Enter ansi_context; Leave ansi_context],
     inr (VObj "Args" [("flag_a", VBool true); ("flag_b", VBool false)])).
Proof.
  refine (proj1 (proj2 (proj2
            (explicit_args_replace_argv plain_env Flags None None
               ["--flag-a"; "--no-flag-b"] VNone [])))
            [] (Flags, VNone) [] (Flags, false) [] _ [] _ [] _ [] _
            ["flag_a"; "flag_b"] [] _
            eq_refl eq_refl eq_refl eq_refl eq_refl eq_refl eq_refl _
            eq_refl).
  vm_compute. intros k [<- | [<- | []]]; auto.
Defined.



(** C10 as stated fails: the parser is built before the completion
    branch (lines 168-174), and when [apply] raises no script is printed
    and no [SystemExit] is raised. *)
Lemma completion_needs_a_parser :
  ~ completion_always_exits
      (with_pspec_apply
         (scripted_env true (ret tt) (ret []) (ret (VNone, [])))
         (fun _ _ => raise (OtherError "UnsupportedTypeAnnotationError" "x")))
      tt None None (Some ["--dcargs-print-completion"; "bash"]) VNone [].
Proof.
  intros H. unfold completion_always_exits in H.
  assert (H' := H ltac:(simpl; lia) eq_refl ltac:(simpl; auto)).
  vm_compute in H'. discriminate H'.
Qed.

(** C10, at the two flags of the example and [bash]. *)
Lemma completion_request_witness :
  (2 <= List.length (effective_args plain_env
                       (Some ["--dcargs-print-completion"; "bash"])))%nat /\
  hd "" (effective_args plain_env (Some ["--dcargs-print-completion"; "bash"]))
  = completion_flag /\
  cli plain_env Flags None None (Some ["--dcargs-print-completion"; "bash"])
      VNone []
  = ([Enter dummy_termcolor_context;
      Print "# bash completion for dcargs_prog.py";
      Leave dummy_termcolor_context],
     inl (SystemExit None)) /\
  (forall v,
     outcome_of (cli plain_env Flags None None
                   (Some ["--dcargs-print-completion"; "bash"]) VNone [])
     <> inr v).
Proof.
  split; [simpl; lia|]. split; [reflexivity|]. split; [vm_compute; reflexivity|].
  apply (completion_request plain_env Flags None None
           (Some ["--dcargs-print-completion"; "bash"]) VNone []);
    [simpl; lia | reflexivity].
Defined.

(** X5, at the name of the synthetic field. *)
Lemma replace_self_witness :
  Examples.dummy <> "" /\ PyStr.replace Examples.dummy Examples.dummy "" = "".
Proof.
  split; [discriminate|]. apply (replace_self Examples.dummy). discriminate.
Defined.

(** X1, at a token that is no integer. *)
Lemma reconstruction_failure_witness :
  exists tr1 st tr2 msg,
    derive_and_parse plain_env count None None (Some ["--x"; "abc"]) VNone []
    = (tr1, inr st) /\
    call_from_args plain_env (p_f st) (p_definition st)
      (p_default_instance st) (p_values st) ""
    = (tr2, inl (InstantiationError msg)) /\
    cli plain_env count None None (Some ["--x"; "abc"]) VNone []
    = (tr1 ++ tr2 ++
         [Print (format_usage plain_env (p_parser st)); Print ""; Print msg],
       inl (SystemExit None)).
Proof.
  eexists _, _, _, _.
  split; [vm_compute; reflexivity|].
  split; [vm_compute; reflexivity|].
  eapply (reconstruction_failure plain_env count None None
            (Some ["--x"; "abc"]) VNone []); vm_compute; reflexivity.
Defined.

(** ** The decoder and the encoder at concrete documents *)

(** X16, at the token of the test. *)
Lemma loads_yields_plain_values_witness :
  loads Examples.a1_token = Ok (VDict [(VStr "a", VInt 1)]) /\
  json_plain (VDict [(VStr "a", VInt 1)]) = true.
Proof.
  split; [vm_compute; reflexivity|].
  apply (loads_yields_plain_values Examples.a1_token).
  vm_compute; reflexivity.
Defined.

(** X17, at the token of the test. *)
Lemma decoded_values_round_trip_witness :
  loads Examples.a1_token = Ok (VDict [(VStr "a", VInt 1)]) /\
  exists t,
    dumps (VDict [(VStr "a", VInt 1)]) = Ok t /\
    loads t = Ok (VDict [(VStr "a", VInt 1)]).
Proof.
  split; [vm_compute; reflexivity|].
  apply (decoded_values_round_trip Examples.a1_token).
  vm_compute; reflexivity.
Defined.

(** X18, at a list. *)
Lemma dumps_is_injective_witness :
  dumps (VList [VInt 1; VNone]) = Ok "[1, null]" /\
  VList [VInt 1; VNone] = VList [VInt 1; VNone].
Proof.
  split; [vm_compute; reflexivity|].
  apply (dumps_is_injective (VList [VInt 1; VNone]) (VList [VInt 1; VNone])
           "[1, null]"); vm_compute; reflexivity.
Defined.

(** X19, at two blanks. *)
Lemma blank_token_is_rejected_witness :
  blank "  " = true /\ loads "  " = Err "Expecting value".
Proof.
  split; [reflexivity|].
  apply (blank_token_is_rejected "  "). reflexivity.
Defined.

(** X20, at a string with a line end and a character above [~]. *)
Lemma dumps_is_printable_ascii_witness :
  dumps (VStr (String "010" (String "233" "x")))
  = Ok (String dq ("\n\u00e9x" ++ String dq ""))%string /\
  all_printable (String dq ("\n\u00e9x" ++ String dq ""))%string = true.
Proof.
  split; [vm_compute; reflexivity|].
  apply (dumps_is_printable_ascii (VStr (String "010" (String "233" "x")))).
  vm_compute; reflexivity.
Defined.

(** X23, at the key [1]. *)
Lemma integer_keys_come_back_as_text_witness :
  json_plain (VInt 2) = true /\
  dumps (VDict [(VInt 1, VInt 2)])
  = Ok ("{" ++ String dq ("1" ++ String dq ": 2}"))%string /\
  dumps (VDict [(VStr (decimal 1), VInt 2)])
  = Ok ("{" ++ String dq ("1" ++ String dq ": 2}"))%string /\
  loads ("{" ++ String dq ("1" ++ String dq ": 2}"))%string
  = Ok (VDict [(VStr (decimal 1), VInt 2)]).
Proof.
  split; [reflexivity|]. split; [vm_compute; reflexivity|].
  apply (integer_keys_come_back_as_text 1 (VInt 2)
           ("{" ++ String dq ("1" ++ String dq ": 2}"))%string);
    vm_compute; reflexivity.
Defined.
